(** * auto-circuit: factorized graph of an autoencoder-augmented transformer
      and the edge-pruning evaluator

    Shallow embedding of
      - [src/auto_circuit/model_utils/autoencoder_transformer.py]
        ([AutoencoderTransformer], [_prune_latents_with_dataset],
        [autoencoder_model], [factorized_src_nodes], [factorized_dest_nodes]);
      - [src/auto_circuit/prune.py] ([run_pruned]).

    Python exceptions are values of [PyErr]; a function that can raise returns
    a sum [PyErr + _].  Counters made with [itertools.count] and the set that
    is filled with [nodes.add] are threaded through a small state-and-error
    monad.  The model object that [run_pruned] drives is a record holding the
    patch context and the patch masks, threaded through a second monad of the
    same shape together with the sequence of calls made on the model. *)

From Stdlib Require Import ZArith Lia Ascii.
From stdpp Require Import base list strings pretty gmap sorting.

Set Warnings "-clear-no-such-hyp".

(** ** Exceptions *)

Inductive PyErr : Set :=
  | AssertionError
  | IndexError
  | AttributeError
  | KeyError
  | NotImplementedError
  | ValueError
  | TypeError.

#[global] Instance PyErr_eq_dec : EqDecision PyErr.
Proof. solve_decision. Defined.

(** A result: the exception raised, or the value returned. *)
#[global] Instance Result_fmap : FMap (sum PyErr) := λ A B f r,
  match r with
  | inl e => inl e
  | inr x => inr (f x)
  end.

(** ** Data model *)

(** Modelled from the spec: [Node], [SrcNode] and [DestNode] of
    [auto_circuit/types.py], which is not among the sources.  The fields are
    the keyword arguments the two enumeration functions pass; the ones a call
    leaves out are [None].  Two nodes are equal when all attributes are. *)
Record Node : Set := mkNode {
  name : string;
  module_name : string;
  layer : nat;
  idx : nat;
  head_dim : option nat;
  head_idx : option nat;
  weight : option string;
  weight_head_dim : option nat
}.

Abbreviation SrcNode := Node.
Abbreviation DestNode := Node.

#[global] Instance Node_eq_dec : EqDecision Node.
Proof. solve_decision. Defined.

(** Nodes are countable, so that they can be the elements of a [gset]: a
    node is coded as the list of its attributes. *)
Definition Node_to_list (n : Node) : list (string + option nat) :=
  [inl (name n); inl (module_name n); inr (Some (layer n));
   inr (Some (idx n)); inr (head_dim n); inr (head_idx n);
   match weight n with Some w => inl w | None => inr None end;
   inr (weight_head_dim n)].

Definition Node_of_list (l : list (string + option nat)) : option Node :=
  match l with
  | [inl a; inl b; inr (Some c); inr (Some d); inr e; inr f; g; inr h] =>
      Some (mkNode a b c d e f
              match g with inl w => Some w | inr _ => None end h)
  | _ => None
  end.

#[global] Instance Node_countable : Countable Node.
Proof.
  refine (inj_countable Node_to_list Node_of_list _).
  by intros [? ? ? ? ? ? [] ?].
Defined.

(** Modelled from the spec: the sparse autoencoder of
    [auto_circuit/model_utils/sparse_autoencoder.py], which is not among the
    sources: its current latent count and the per-latent cumulative
    activation, one row when no sequence length was given to
    [reset_activated_latents], one row per position otherwise.  Activation
    totals are only compared with zero here, so they are integers. *)
Inductive LatentTotalAct : Set :=
  | Act1D (row : list Z)
  | Act2D (rows : list (list Z)).

Record SparseAutoencoder : Set := mkSAE {
  n_latents : nat;
  latent_total_act : LatentTotalAct
}.

(** What an attribute such as [blocks[i].hook_mlp_out] can hold: the hook
    point the transformer was built with, a sparse autoencoder, or a value
    that is no module, such as the string that line 152 passes to
    [setattr]. *)
Inductive HookAttr : Set :=
  | HookPoint (hook_name : string)
  | Autoencoder (sae : SparseAutoencoder)
  | StrValue (s : string).

Record MLP : Set := mkMLP { hook_post : HookAttr }.

Record Block : Set := mkBlock { mlp : MLP; hook_mlp_out : HookAttr }.

(** [model.cfg] of the wrapped transformer: the fields this code reads. *)
Record Config : Set := mkConfig {
  n_layers : nat;
  n_heads : nat;
  use_attn_result : bool;
  use_attn_in : bool;
  use_split_qkv_input : bool;
  use_hook_mlp_in : bool;
  parallel_attn_mlp : bool
}.

Record HookedTransformer : Set := mkHT {
  cfg : Config;
  blocks : list Block
}.

(** A [t.nn.Module] handed to the constructor of [AutoencoderTransformer]:
    a transformer, or a [PatchableModel] around one. *)
Inductive TorchModule : Set :=
  | Plain (m : HookedTransformer)
  | PatchableModel (inner : HookedTransformer).

Record AutoencoderTransformer : Set := mkAT {
  wrapped_model : HookedTransformer;
  sparse_autoencoders : list SparseAutoencoder
}.

(** ** [class AutoencoderTransformer] *)

(** The opaque operations of the wrapped transformer. *)
Class TransformerOps := {
  Args : Type;
  Any : Type;
  call : HookedTransformer → Args → Any;
  ht_run_with_cache : HookedTransformer → Args → Any;
  ht_add_hook : HookedTransformer → Args → Any;
  ht_tokenizer : HookedTransformer → Any;
  ht_input_to_embed : HookedTransformer → Any;
  ht_to_tokens : HookedTransformer → Args → Any;
  ht_to_str_tokens : HookedTransformer → Args → Any;
  ht_to_string : HookedTransformer → Args → Any;
  ht_str : HookedTransformer → string;
  ht_repr : HookedTransformer → string
}.

Module AT.

(** [__init__], lines 22-29. *)
Definition __init__ (wrapped_model : TorchModule) (saes : list SparseAutoencoder)
    : AutoencoderTransformer :=
  match wrapped_model with
  | PatchableModel inner => mkAT inner saes
  | Plain m => mkAT m saes
  end.

Definition cfg (self : AutoencoderTransformer) : Config :=
  cfg (wrapped_model self).

Definition blocks (self : AutoencoderTransformer) : list Block :=
  blocks (wrapped_model self).

Section Delegation.
Context `{TransformerOps}.

Definition forward (self : AutoencoderTransformer) (args : Args) : Any :=
  call (wrapped_model self) args.

Definition run_with_cache (self : AutoencoderTransformer) (args : Args) : Any :=
  ht_run_with_cache (wrapped_model self) args.

Definition add_hook (self : AutoencoderTransformer) (args : Args) : Any :=
  ht_add_hook (wrapped_model self) args.

Definition tokenizer (self : AutoencoderTransformer) : Any :=
  ht_tokenizer (wrapped_model self).

Definition input_to_embed (self : AutoencoderTransformer) : Any :=
  ht_input_to_embed (wrapped_model self).

Definition to_tokens (self : AutoencoderTransformer) (args : Args) : Any :=
  ht_to_tokens (wrapped_model self) args.

Definition to_str_tokens (self : AutoencoderTransformer) (args : Args) : Any :=
  ht_to_str_tokens (wrapped_model self) args.

Definition to_string (self : AutoencoderTransformer) (args : Args) : Any :=
  ht_to_string (wrapped_model self) args.

Definition __str__ (self : AutoencoderTransformer) : string :=
  ht_str (wrapped_model self).

Definition __repr__ (self : AutoencoderTransformer) : string :=
  ht_repr (wrapped_model self).

End Delegation.

End AT.

(** ** Node enumeration: [factorized_src_nodes], [factorized_dest_nodes] *)

(** The two [count()] iterators, the set [nodes], and the order in which
    [nodes.add] was called. *)
Record Enum : Set := mkEnum {
  layers : nat;
  idxs : nat;
  nodes : gset Node;
  order : list Node
}.

Definition Build (A : Type) : Type := Enum → PyErr + (A * Enum).

#[global] Instance Build_ret : MRet Build := λ A x s, inr (x, s).

#[global] Instance Build_bind : MBind Build := λ A B f m s,
  match m s with
  | inl e => inl e
  | inr (x, s') => f x s'
  end.

Definition raise {A : Type} (e : PyErr) : Build A := λ _, inl e.

Definition py_assert (b : bool) : Build unit :=
  if b then mret tt else raise AssertionError.

(** [next(layers)] and [next(idxs)]. *)
Definition next_layers : Build nat := λ s,
  inr (layers s, mkEnum (S (layers s)) (idxs s) (nodes s) (order s)).

Definition next_idxs : Build nat := λ s,
  inr (idxs s, mkEnum (layers s) (S (idxs s)) (nodes s) (order s)).

(** [nodes.add(n)]. *)
Definition add (n : Node) : Build unit := λ s,
  inr (tt, mkEnum (layers s) (idxs s) ({[ n ]} ∪ nodes s) (order s ++ [n])).

Definition range (n : nat) : list nat := seq 0 n.

Fixpoint for_each {A : Type} (l : list A) (body : A → Build unit)
    : Build unit :=
  match l with
  | [] => mret tt
  | x :: l' => body x;; for_each l' body
  end.

(** [model.blocks[block_idx].hook_mlp_out.n_latents]. *)
Definition block_n_latents (model : AutoencoderTransformer) (block_idx : nat)
    : Build nat :=
  match AT.blocks model !! block_idx with
  | None => raise IndexError
  | Some b =>
      match hook_mlp_out b with
      | Autoencoder sae => mret (n_latents sae)
      | _ => raise AttributeError
      end
  end.

(** The f-string [f"{n}"] of a non-negative integer. *)
Definition fmt (n : nat) : string := pretty n.

(** The three [SrcNode(...)] calls, lines 175-181, 188-197 and 202-211. *)
Definition resid_start (layer idx : nat) : SrcNode :=
  mkNode "Resid Start" "blocks.0.hook_resid_pre" layer idx None None
    (Some "embed.W_E") None.

Definition src_attn_node (block_idx head_idx layer idx : nat) : SrcNode :=
  mkNode ("A" +:+ fmt block_idx +:+ "." +:+ fmt head_idx)
    ("blocks." +:+ fmt block_idx +:+ ".attn.hook_result")
    layer idx (Some 2) (Some head_idx)
    (Some ("blocks." +:+ fmt block_idx +:+ ".attn.W_O")) (Some 0).

Definition src_latent_node (block_idx latent_idx layer idx : nat) : SrcNode :=
  mkNode ("MLP " +:+ fmt block_idx +:+ " Latent " +:+ fmt latent_idx)
    ("blocks." +:+ fmt block_idx +:+ ".hook_mlp_out.latent_outs")
    layer idx (Some 2) (Some latent_idx)
    (Some ("blocks." +:+ fmt block_idx +:+ ".hook_mlp_out.decoder.weight"))
    (Some 0).

(** One pass of the loop over the blocks, lines 185-212. *)
Definition src_block (model : AutoencoderTransformer) (block_idx : nat)
    : Build unit :=
  layer ← next_layers;
  for_each (range (n_heads (AT.cfg model))) (λ head_idx,
    i ← next_idxs;
    add (src_attn_node block_idx head_idx layer i));;
  layer ← (if parallel_attn_mlp (AT.cfg model) then mret layer
           else next_layers);
  n ← block_n_latents model block_idx;
  for_each (range n) (λ latent_idx,
    i ← next_idxs;
    add (src_latent_node block_idx latent_idx layer i)).

Definition src_body (model : AutoencoderTransformer) : Build unit :=
  py_assert (use_attn_result (AT.cfg model));;
  py_assert (use_attn_in (AT.cfg model));;
  py_assert (use_split_qkv_input (AT.cfg model));;
  py_assert (use_hook_mlp_in (AT.cfg model));;
  (l0 ← next_layers;
   i0 ← next_idxs;
   add (resid_start l0 i0));;
  for_each (range (n_layers (AT.cfg model))) (src_block model).

(** State at the end of [factorized_src_nodes]: [layers, idxs = count(),
    count()] and [nodes = set()] at the start. *)
Definition src_run (model : AutoencoderTransformer) : PyErr + Enum :=
  match src_body model (mkEnum 0 0 ∅ []) with
  | inl e => inl e
  | inr (_, s) => inr s
  end.

Definition factorized_src_nodes (model : AutoencoderTransformer)
    : PyErr + gset SrcNode :=
  nodes <$> src_run model.

(** The nodes in the order they were constructed and added. *)
Definition src_enumeration (model : AutoencoderTransformer)
    : PyErr + list SrcNode :=
  order <$> src_run model.

(** The three [DestNode(...)] calls, lines 231-238, 241-247 and 250-256. *)
Definition dest_attn_node (block_idx head_idx layer idx : nat) : DestNode :=
  mkNode ("A" +:+ fmt block_idx +:+ "." +:+ fmt head_idx)
    ("blocks." +:+ fmt block_idx +:+ ".hook_attn_in")
    layer idx (Some 2) (Some head_idx) None None.

Definition dest_mlp_node (block_idx layer idx : nat) : DestNode :=
  mkNode ("MLP " +:+ fmt block_idx)
    ("blocks." +:+ fmt block_idx +:+ ".hook_mlp_in")
    layer idx None None
    (Some ("blocks." +:+ fmt block_idx +:+ ".mlp.W_in")) None.

(** [model.cfg.n_layers - 1] is negative for a model without layers. *)
Definition resid_end (n_layers layer idx : nat) : DestNode :=
  mkNode "Resid End"
    ("blocks." +:+ pretty (Z.of_nat n_layers - 1)%Z +:+ ".hook_resid_post")
    layer idx None None (Some "unembed.W_U") None.

(** One pass of the loop over the blocks, lines 228-248. *)
Definition dest_block (model : AutoencoderTransformer) (block_idx : nat)
    : Build unit :=
  layer ← next_layers;
  for_each (range (n_heads (AT.cfg model))) (λ head_idx,
    i ← next_idxs;
    add (dest_attn_node block_idx head_idx layer i));;
  layer ← (if parallel_attn_mlp (AT.cfg model) then mret layer
           else next_layers);
  i ← next_idxs;
  add (dest_mlp_node block_idx layer i).

Definition dest_body (model : AutoencoderTransformer) : Build unit :=
  py_assert (use_attn_result (AT.cfg model));;
  py_assert (use_attn_in (AT.cfg model));;
  py_assert (use_hook_mlp_in (AT.cfg model));;
  for_each (range (n_layers (AT.cfg model))) (dest_block model);;
  l ← next_layers;
  i ← next_idxs;
  add (resid_end (n_layers (AT.cfg model)) l i).

(** [layers, idxs = count(1), count()]. *)
Definition dest_run (model : AutoencoderTransformer) : PyErr + Enum :=
  match dest_body model (mkEnum 1 0 ∅ []) with
  | inl e => inl e
  | inr (_, s) => inr s
  end.

Definition factorized_dest_nodes (model : AutoencoderTransformer)
    : PyErr + gset DestNode :=
  nodes <$> dest_run model.

Definition dest_enumeration (model : AutoencoderTransformer)
    : PyErr + list DestNode :=
  order <$> dest_run model.

(** *** The enumeration in closed form

    What the two functions add, block by block, as plain lists: the
    attention nodes of a block and then its MLP nodes.  [b], [L] and [i] are
    the block index, the next value of [layers] and the next value of [idxs]
    when the block starts. *)
Definition mlp_layer (parallel : bool) (L : nat) : nat :=
  if parallel then L else S L.

Definition src_block_nodes (parallel : bool) (heads b L i n : nat)
    : list SrcNode * list SrcNode :=
  ((λ h, src_attn_node b h L (i + h)) <$> seq 0 heads,
   (λ k, src_latent_node b k (mlp_layer parallel L) (i + heads + k))
     <$> seq 0 n).

Fixpoint src_groups (parallel : bool) (heads : nat) (latents : list nat)
    (b L i : nat) : list (list SrcNode * list SrcNode) :=
  match latents with
  | [] => []
  | n :: latents' =>
      src_block_nodes parallel heads b L i n
      :: src_groups parallel heads latents' (S b)
           (S (mlp_layer parallel L)) (i + heads + n)
  end.

Definition dest_block_nodes (parallel : bool) (heads b L i : nat)
    : list DestNode * list DestNode :=
  ((λ h, dest_attn_node b h L (i + h)) <$> seq 0 heads,
   [dest_mlp_node b (mlp_layer parallel L) (i + heads)]).

Fixpoint dest_groups (parallel : bool) (heads blocks b L i : nat)
    : list (list DestNode * list DestNode) :=
  match blocks with
  | 0 => []
  | S blocks' =>
      dest_block_nodes parallel heads b L i
      :: dest_groups parallel heads blocks' (S b)
           (S (mlp_layer parallel L)) (S (i + heads))
  end.

(** The nodes of the groups, in order. *)
Definition flatten (groups : list (list Node * list Node)) : list Node :=
  mjoin ((λ g, g.1 ++ g.2) <$> groups).

(** The latent counts [model.blocks[b].hook_mlp_out.n_latents] of the first
    blocks of the model are the numbers [latents]. *)
Definition has_latents (model : AutoencoderTransformer) (latents : list nat)
    : Prop :=
  ∀ b n, latents !! b = Some n →
    ∃ blk sae, AT.blocks model !! b = Some blk
      ∧ hook_mlp_out blk = Autoencoder sae ∧ n_latents sae = n.

(** ** [autoencoder_model] *)

(** [load_autoencoder] of [sparse_autoencoder.py] is not among the sources:
    it is a parameter, called with the arguments of lines 151 and 156. *)
Class Loader := {
  load_autoencoder :
    HookAttr → HookedTransformer → nat → string → option string
    → SparseAutoencoder
}.

(** The blocks and their hook points are [torch.nn.Module]s, and
    [torch.nn.Module.__setattr__] guards the attributes that hold a
    registered submodule: such an attribute takes a module, and any other
    value but [None] raises [TypeError]. *)
Definition is_module (v : HookAttr) : bool :=
  match v with
  | StrValue _ => false
  | _ => true
  end.

Definition module_setattr (old v : HookAttr) : PyErr + HookAttr :=
  if is_module old && negb (is_module v) then inl TypeError else inr v.

(** The model after [setattr(model.blocks[layer_idx].mlp, "hook_post", v)]
    has gone through. *)
Definition setattr_hook_post (model : HookedTransformer) (layer_idx : nat)
    (v : HookAttr) : HookedTransformer :=
  mkHT (cfg model)
    (alter (λ b, mkBlock (mkMLP v) (hook_mlp_out b)) layer_idx (blocks model)).

(** The model after [setattr(model.blocks[layer_idx], "hook_mlp_out", v)]
    has gone through. *)
Definition setattr_hook_mlp_out (model : HookedTransformer) (layer_idx : nat)
    (v : HookAttr) : HookedTransformer :=
  mkHT (cfg model)
    (alter (λ b, mkBlock (mlp b) v) layer_idx (blocks model)).

Section AutoencoderModel.
Context `{Loader}.

(** The loop of lines 148-159 over the remaining layer indices: the branch
    on [sae_input] comes first, then the block is indexed, the autoencoder
    loaded and [setattr] called.  [sae.to] moves the autoencoder to the
    device and leaves its value as it is. *)
Fixpoint autoencoder_loop (layer_idxs : list nat) (sae_input : string)
    (pythia_size : option string) (model : HookedTransformer)
    (sparse_autoencoders : list SparseAutoencoder)
    : PyErr + (HookedTransformer * list SparseAutoencoder) :=
  match layer_idxs with
  | [] => inr (model, sparse_autoencoders)
  | layer_idx :: rest =>
      if decide (sae_input = "mlp_post_act") then
        match blocks model !! layer_idx with
        | None => inl IndexError
        | Some blk =>
            let hook_point := hook_post (mlp blk) in
            let sae :=
              load_autoencoder hook_point model layer_idx sae_input
                pythia_size in
            match module_setattr hook_point (StrValue sae_input) with
            | inl e => inl e
            | inr v =>
                autoencoder_loop rest sae_input pythia_size
                  (setattr_hook_post model layer_idx v)
                  (sparse_autoencoders ++ [sae])
            end
        end
      else if decide (sae_input = "resid_delta_mlp") then
        match blocks model !! layer_idx with
        | None => inl IndexError
        | Some blk =>
            let hook_point := hook_mlp_out blk in
            let sae :=
              load_autoencoder hook_point model layer_idx sae_input
                pythia_size in
            match module_setattr hook_point (Autoencoder sae) with
            | inl e => inl e
            | inr v =>
                autoencoder_loop rest sae_input pythia_size
                  (setattr_hook_mlp_out model layer_idx v)
                  (sparse_autoencoders ++ [sae])
            end
        end
      else inl AssertionError
  end.

(** [deepcopy] gives an equal value, so [new_instance] only decides whether
    the caller's object is the one that gets modified. *)
Definition autoencoder_model (model : HookedTransformer) (sae_input : string)
    (pythia_size : option string) (new_instance : bool)
    : PyErr + AutoencoderTransformer :=
  match
    autoencoder_loop (range (n_layers (cfg model))) sae_input pythia_size
      model []
  with
  | inl e => inl e
  | inr (model, sparse_autoencoders) =>
      inr (AT.__init__ (Plain model) sparse_autoencoders)
  end.

End AutoencoderModel.

(** ** [_prune_latents_with_dataset], lines 66-75 *)

(** [(sae.latent_total_act > 0).sum(dim=-1).tolist()]: an [int] for a
    one-dimensional tensor, a list of them otherwise. *)
Inductive Activated : Set :=
  | ActInt (n : Z)
  | ActList (l : list Z).

Definition count_positive (row : list Z) : Z :=
  Z.of_nat (length (filter (λ x, 0 < x)%Z row)).

Definition activated_of (act : LatentTotalAct) : Activated :=
  match act with
  | Act1D row => ActInt (count_positive row)
  | Act2D rows => ActList (count_positive <$> rows)
  end.

(** [max(l)]; it raises [ValueError] on an empty list. *)
Definition py_max (l : list Z) : PyErr + Z :=
  match l with
  | [] => inl ValueError
  | x :: l' => inr (foldl Z.max x l')
  end.

(** [activated if type(activated) == int else max(activated)]. *)
Definition activated_count_of (activated : Activated) : PyErr + Z :=
  match activated with
  | ActInt n => inr n
  | ActList l => py_max l
  end.

(** [max_latents or activated_count]: [None] and [0] are false. *)
Definition py_or (max_latents : option Z) (activated_count : Z) : Z :=
  match max_latents with
  | None => activated_count
  | Some n => if decide (n = 0%Z) then activated_count else n
  end.

(** The slice [l[:k]]; a negative [k] counts from the end. *)
Definition py_take {A : Type} (k : Z) (l : list A) : list A :=
  if decide (k < 0)%Z then take (length l - Z.to_nat (- k)) l
  else take (Z.to_nat k) l.

Inductive LatentIdxs : Set :=
  | Idxs1D (row : list nat)
  | Idxs2D (rows : list (list nat)).

(** [t.sort(..., descending=True).indices] of one row, and
    [sae.prune_latents]: parameters. *)
Class SaeOps := {
  sort_indices_desc : list Z → list nat;
  prune_latents : SparseAutoencoder → LatentIdxs → SparseAutoencoder
}.

Record PruneLog : Set := mkPruneLog {
  activated_latent_counts : list Activated;
  latent_counts : list Z;
  pruned : list SparseAutoencoder
}.

Section PruneLatents.
Context `{SaeOps}.

Definition idxs_to_keep_of (act : LatentTotalAct) (max_idx : Z) : LatentIdxs :=
  match act with
  | Act1D row => Idxs1D (py_take max_idx (sort_indices_desc row))
  | Act2D rows =>
      Idxs2D ((λ row, py_take max_idx (sort_indices_desc row)) <$> rows)
  end.

(** The loop of lines 67-75; [max_latents] is the function's own parameter,
    which line 71 assigns. *)
Fixpoint prune_loop (saes : list SparseAutoencoder) (max_latents : option Z)
    (log : PruneLog) : PyErr + (option Z * PruneLog) :=
  match saes with
  | [] => inr (max_latents, log)
  | sae :: rest =>
      let activated := activated_of (latent_total_act sae) in
      match activated_count_of activated with
      | inl e => inl e
      | inr activated_count =>
          let max_latents := py_or max_latents activated_count in
          let max_idx := Z.min max_latents activated_count in
          let idxs_to_keep := idxs_to_keep_of (latent_total_act sae) max_idx in
          prune_loop rest (Some max_latents)
            (mkPruneLog (activated_latent_counts log ++ [activated])
               (latent_counts log ++ [max_idx])
               (pruned log ++ [prune_latents sae idxs_to_keep]))
      end
  end.

(** Lines 66-75 of [_prune_latents_with_dataset]. *)
Definition _prune_latents_with_dataset (self : AutoencoderTransformer)
    (max_latents : option Z) : PyErr + PruneLog :=
  snd <$> prune_loop (sparse_autoencoders self) max_latents
            (mkPruneLog [] [] []).

End PruneLatents.

(** ** [run_pruned] *)

(** Modelled from the spec: [ActType], [ExperimentType] and [Edge] of
    [auto_circuit/types.py], which is not among the sources.  The code names
    the members [CLEAN], [CORRUPT] and [ZERO]; [OTHER] stands for any value
    that compares unequal to the three.  An edge is an ordered pair of a
    source and a destination node and owns one entry of a patch mask. *)
Inductive ActType : Set :=
  | CLEAN
  | CORRUPT
  | ZERO
  | OTHER (tag : nat).

#[global] Instance ActType_eq_dec : EqDecision ActType.
Proof. solve_decision. Defined.

Record ExperimentType : Set := mkExperimentType {
  input_type : ActType;
  patch_type : ActType
}.

Record Edge : Set := mkEdge { src : SrcNode; dest : DestNode }.

#[global] Instance Edge_eq_dec : EqDecision Edge.
Proof. solve_decision. Defined.

#[global] Instance Edge_countable : Countable Edge.
Proof.
  refine (inj_countable (λ e, [src e; dest e])
            (λ l, match l with [s; d] => Some (mkEdge s d) | _ => None end) _).
  by intros [].
Defined.

(** Tensors and the [torch] functions the evaluator calls on them.  [detach]
    and [clone] give a tensor with the same entries. *)
Class Torch := {
  Tensor : Type;
  zeros_like : Tensor → Tensor;
  stack : list Tensor → Tensor
}.

Definition detach `{Torch} (x : Tensor) : Tensor := x.
Definition clone `{Torch} (x : Tensor) : Tensor := x.

Record PromptPairBatch `{Torch} : Type := mkBatch {
  clean : Tensor;
  corrupt : Tensor
}.

Arguments mkBatch {_} _ _.

(** Prune scores are floats that the evaluator only compares: a type with
    the comparison [<]. *)
Class ScoreType := {
  Score : Type;
  score_lt : Score → Score → bool
}.

(** The comparison is a strict weak order, as [<] is on floats other than
    NaN. *)
Class ScoreOrder `{ScoreType} : Prop := {
  score_lt_irrefl : ∀ x, score_lt x x = false;
  score_lt_trans : ∀ x y z,
    score_lt x y = true → score_lt y z = true → score_lt x z = true;
  score_lt_incomp : ∀ x y z,
    score_lt x y = false → score_lt y z = false → score_lt x z = false
}.

(** Modelled from the spec: the state of the patchable model
    ([auto_circuit/utils/patchable_model.py] and [graph_utils.patch_mode] are
    not among the sources).  Inside a patch context the model holds the
    current and the baseline source outputs; every edge has a mask entry,
    which is zero unless the map says otherwise. *)
Record PatchState `{Torch} : Type := mkPatchState {
  patching : option (Tensor * Tensor);
  patch_mask : gmap Edge Z
}.

Arguments mkPatchState {_} _ _.

(** The opaque parts of the model: its forward pass outside and inside a
    patch context, [get_sorted_src_outs], and indexing an output with
    [model.out_slice]. *)
Class ModelOps `{Torch} := {
  forward_plain : Tensor → Tensor;
  forward_patched : gmap Edge Z → Tensor → Tensor → Tensor → Tensor;
  sorted_src_outs : PatchState → Tensor → list (SrcNode * Tensor);
  out_slice : Tensor → Tensor
}.

(** What the evaluator does to the model, in order. *)
Inductive Event `{Torch} : Type :=
  | EvForward (x : Tensor)
  | EvSrcOuts (x : Tensor)
  | EvEnter (curr_src_outs patch_src_outs : Tensor) (reset_mask : bool)
  | EvMaskSet (e : Edge) (v : Z)
  | EvDraw (x : Tensor) (render_patched_edge_only : bool)
  | EvExit.

Record World `{Torch} : Type := mkWorld {
  model_state : PatchState;
  events : list Event
}.

Arguments mkWorld {_} _ _.

Definition Run `{Torch} (A : Type) : Type := World → PyErr + (A * World).

#[global] Instance Run_ret `{Torch} : MRet Run := λ A x w, inr (x, w).

#[global] Instance Run_bind `{Torch} : MBind Run := λ A B f m w,
  match m w with
  | inl e => inl e
  | inr (x, w') => f x w'
  end.

Definition throw `{Torch} {A : Type} (e : PyErr) : Run A := λ _, inl e.

(** The value of a mask entry. *)
Definition mask_at (m : gmap Edge Z) (e : Edge) : Z := default 0%Z (m !! e).

(** [pruned_outs[k].append(v)] on a [defaultdict(list)]. *)
Definition append_out {V : Type} (k : Z) (v : V) (d : gmap Z (list V))
    : gmap Z (list V) :=
  <[k := default [] (d !! k) ++ [v]]> d.

(** [d[k] = v] on a dict kept as the list of its items in insertion order:
    a key that is present keeps its place. *)
Fixpoint dict_set {K V : Type} `{EqDecision K} (k : K) (v : V)
    (d : list (K * V)) : list (K * V) :=
  match d with
  | [] => [(k, v)]
  | (k', v') :: d' =>
      if decide (k = k') then (k, v) :: d' else (k', v') :: dict_set k v d'
  end.

(** [dict(items)]. *)
Definition dict_of_items {K V : Type} `{EqDecision K} (items : list (K * V))
    : list (K * V) :=
  foldl (λ d kv, dict_set kv.1 kv.2 d) [] items.

(** [d[k]], [None] when the key is missing. *)
Fixpoint dict_get {K V : Type} `{EqDecision K} (k : K) (d : list (K * V))
    : option V :=
  match d with
  | [] => None
  | (k', v) :: d' => if decide (k = k') then Some v else dict_get k d'
  end.

Section Sorting.
Context `{ScoreType} {K : Type}.

(** [sorted(items, key=lambda x: x[1], reverse=True)]: the built-in sort is
    stable, also with [reverse=True], and compares keys with [<] only.  One
    item is put in front of a sorted list of later items: it moves past the
    items whose score is strictly larger. *)
Fixpoint insert_desc (x : K * Score) (l : list (K * Score))
    : list (K * Score) :=
  match l with
  | [] => [x]
  | y :: l' =>
      if score_lt x.2 y.2 then y :: insert_desc x l' else x :: y :: l'
  end.

Definition sorted_desc (items : list (K * Score)) : list (K * Score) :=
  foldr insert_desc [] items.

End Sorting.

Section RunPruned.
Context `{Torch} `{!ModelOps} `{ScoreType}.

(** Modelled from the spec: the forward pass of the patchable model.  Outside
    a patch context the output is the unmodified one; inside, the source
    outputs are intercepted according to the masks. *)
Definition forward (st : PatchState) (x : Tensor) : Tensor :=
  match patching st with
  | None => forward_plain x
  | Some (curr_src_outs, patch_src_outs) =>
      forward_patched (patch_mask st) curr_src_outs patch_src_outs x
  end.

(** [model(x)]. *)
Definition model_call (x : Tensor) : Run Tensor := λ w,
  inr (forward (model_state w) x,
       mkWorld (model_state w) (events w ++ [EvForward x])).

(** [get_sorted_src_outs(model, x)]. *)
Definition get_sorted_src_outs (x : Tensor) : Run (list (SrcNode * Tensor)) :=
  λ w,
  inr (sorted_src_outs (model_state w) x,
       mkWorld (model_state w) (events w ++ [EvSrcOuts x])).

(** Modelled from the spec: entering [patch_mode] installs the two tensors
    and, with [reset_mask], zeroes the masks; leaving it removes the
    interception.  The masks are left as they are on the way out: the next
    entry zeroes them, and a forward pass outside the context does not read
    them. *)
Definition patch_enter (curr_src_outs patch_src_outs : Tensor)
    (reset_mask : bool) : Run unit := λ w,
  inr (tt,
       mkWorld
         (mkPatchState (Some (curr_src_outs, patch_src_outs))
            (if reset_mask then ∅ else patch_mask (model_state w)))
         (events w ++ [EvEnter curr_src_outs patch_src_outs reset_mask])).

Definition patch_exit : Run unit := λ w,
  inr (tt,
       mkWorld (mkPatchState None (patch_mask (model_state w)))
         (events w ++ [EvExit])).

(** [with patch_mode(model, curr, patch, reset_mask): body].  The context is
    left on every path; an exception of the body goes on to the caller. *)
Definition with_patch_mode {A : Type} (curr_src_outs patch_src_outs : Tensor)
    (reset_mask : bool) (body : Run A) : Run A :=
  patch_enter curr_src_outs patch_src_outs reset_mask;;
  r ← body;
  patch_exit;;
  mret r.

(** [edge.patch_mask(model).data[edge.patch_idx] = v]. *)
Definition set_patch_mask (edge : Edge) (v : Z) : Run unit := λ w,
  inr (tt,
       mkWorld
         (mkPatchState (patching (model_state w))
            (<[edge := v]> (patch_mask (model_state w))))
         (events w ++ [EvMaskSet edge v])).

(** [draw_seq_graph(model, batch_input, labels, render_patched_edge_only)]:
    the rendering is outside this code, the call is recorded. *)
Definition draw_seq_graph (batch_input : Tensor)
    (labels : list (Edge * Tensor)) (render_patched_edge_only : bool)
    : Run unit := λ w,
  inr (tt,
       mkWorld (model_state w)
         (events w ++ [EvDraw batch_input render_patched_edge_only])).

(** Lines 34-39. *)
Definition select_input (experiment_type : ExperimentType)
    (batch : PromptPairBatch) : Run Tensor :=
  match input_type experiment_type with
  | CLEAN => mret (clean batch)
  | CORRUPT => mret (corrupt batch)
  | _ => throw NotImplementedError
  end.

(** Lines 41-43. *)
Definition record_unpatched (test_edge_counts : list Z) (batch_input : Tensor)
    (pruned_outs : gmap Z (list Tensor)) : Run (gmap Z (list Tensor)) :=
  if decide (0%Z ∈ test_edge_counts) then
    out ← model_call batch_input;
    mret (append_out 0 (out_slice out) pruned_outs)
  else mret pruned_outs.

(** Lines 45-53. *)
Definition patch_baseline (experiment_type : ExperimentType)
    (batch : PromptPairBatch) : Run (list (SrcNode * Tensor)) :=
  match patch_type experiment_type with
  | CLEAN => get_sorted_src_outs (clean batch)
  | CORRUPT => get_sorted_src_outs (corrupt batch)
  | other =>
      (if decide (other = ZERO) then mret tt else throw AssertionError);;
      patch_outs ← get_sorted_src_outs (clean batch);
      mret (dict_of_items ((λ p, (p.1, zeros_like p.2)) <$> patch_outs))
  end.

(** Lines 59-66: the loop over [enumerate(prune_scores.keys())], from
    position [edge_idx] on. *)
Fixpoint edge_loop (test_edge_counts : list Z) (batch_input : Tensor)
    (edges : list Edge) (edge_idx : nat) (pruned_outs : gmap Z (list Tensor))
    : Run (gmap Z (list Tensor)) :=
  match edges with
  | [] => mret pruned_outs
  | edge :: rest =>
      let n_edge := (Z.of_nat edge_idx + 1)%Z in
      set_patch_mask edge 1;;
      pruned_outs ←
        (if decide (n_edge ∈ test_edge_counts) then
           model_output ← model_call batch_input;
           mret (append_out n_edge (clone (detach (out_slice model_output)))
                   pruned_outs)
         else mret pruned_outs);
      edge_loop test_edge_counts batch_input rest (S edge_idx) pruned_outs
  end.

(** Line 68: [dict([(e, patch_outs[e.src]) for e, _ in prune_scores.items()])]. *)
Fixpoint edge_labels (patch_outs : list (SrcNode * Tensor))
    (edges : list Edge) : Run (list (Edge * Tensor)) :=
  match edges with
  | [] => mret []
  | e :: rest =>
      match dict_get (src e) patch_outs with
      | None => throw KeyError
      | Some out =>
          labels ← edge_labels patch_outs rest;
          mret ((e, out) :: labels)
      end
  end.

(** The body of the loop over the batches, lines 33-71. *)
Definition run_batch (experiment_type : ExperimentType)
    (test_edge_counts : list Z) (prune_scores : list (Edge * Score))
    (render_graph render_patched_edge_only : bool) (batch : PromptPairBatch)
    (pruned_outs : gmap Z (list Tensor)) : Run (gmap Z (list Tensor)) :=
  batch_input ← select_input experiment_type batch;
  pruned_outs ← record_unpatched test_edge_counts batch_input pruned_outs;
  patch_outs ← patch_baseline experiment_type batch;
  let patch_src_outs := detach (stack (patch_outs.*2)) in
  let curr_src_outs := zeros_like patch_src_outs in
  with_patch_mode curr_src_outs patch_src_outs true (
    pruned_outs ←
      edge_loop test_edge_counts batch_input (prune_scores.*1) 0 pruned_outs;
    (if render_graph then
       labels ← edge_labels patch_outs (prune_scores.*1);
       draw_seq_graph batch_input (dict_of_items labels)
         render_patched_edge_only
     else mret tt);;
    mret pruned_outs).

Fixpoint batch_loop (experiment_type : ExperimentType)
    (test_edge_counts : list Z) (prune_scores : list (Edge * Score))
    (render_graph render_patched_edge_only : bool)
    (data_loader : list PromptPairBatch) (pruned_outs : gmap Z (list Tensor))
    : Run (gmap Z (list Tensor)) :=
  match data_loader with
  | [] => mret pruned_outs
  | batch :: rest =>
      pruned_outs ←
        run_batch experiment_type test_edge_counts prune_scores render_graph
          render_patched_edge_only batch pruned_outs;
      batch_loop experiment_type test_edge_counts prune_scores render_graph
        render_patched_edge_only rest pruned_outs
  end.

(** [run_pruned]; [prune_scores] is the list of the dict's items in
    iteration order, the model is the state the computation runs in. *)
Definition run_pruned (data_loader : list PromptPairBatch)
    (experiment_type : ExperimentType) (test_edge_counts : list Z)
    (prune_scores : list (Edge * Score))
    (render_graph render_patched_edge_only : bool)
    : Run (gmap Z (list Tensor)) :=
  let pruned_outs : gmap Z (list Tensor) := ∅ in
  let prune_scores := dict_of_items (sorted_desc prune_scores) in
  batch_loop experiment_type test_edge_counts prune_scores render_graph
    render_patched_edge_only data_loader pruned_outs.

End RunPruned.

(** ** Notions used in the statements *)

(** *** Node enumeration *)

(** The state after [dl] draws from [layers] and after the nodes [new] were
    added, each with a fresh value of [idxs]. *)
Definition grow (s : Enum) (dl : nat) (new : list Node) : Enum :=
  mkEnum (layers s + dl) (idxs s + length new) (list_to_set new ∪ nodes s)
    (order s ++ new).

(** The number of layer indices a block uses. *)
Definition step (parallel : bool) : nat := if parallel then 1 else 2.

(** All four flags of lines 166-171. *)
Definition src_flags (c : Config) : bool :=
  use_attn_result c && use_attn_in c && use_split_qkv_input c
  && use_hook_mlp_in c.

(** The three flags of lines 219-224. *)
Definition dest_flags (c : Config) : bool :=
  use_attn_result c && use_attn_in c && use_hook_mlp_in c.

(** The groups start at layer [L]: the attention nodes of a block have the
    block's layer, its MLP nodes have [mlp_layer], and the next block starts
    one layer further. *)
Fixpoint layered (parallel : bool) (L : nat)
    (groups : list (list Node * list Node)) : Prop :=
  match groups with
  | [] => True
  | g :: groups' =>
      (∀ a, a ∈ g.1 → layer a = L)
      ∧ (∀ m, m ∈ g.2 → layer m = mlp_layer parallel L)
      ∧ layered parallel (S (mlp_layer parallel L)) groups'
  end.

Definition by_layer (a b : Node) : Prop := layer a ≤ layer b.

(** A block's MLP nodes are on the attention nodes' layer exactly when
    attention and MLP run in parallel, and on the next layer otherwise. *)
Definition block_layers (parallel : bool) (g : list Node * list Node)
    : Prop :=
  ∀ a m, a ∈ g.1 → m ∈ g.2 →
    (layer m = layer a ↔ parallel = true)
    ∧ (parallel = false → layer m = S (layer a)).

(** *** The evaluator *)

Section OrderNotions.
Context `{ScoreType} {K : Type}.

(** [a] is not smaller than [b]. *)
Definition not_below (a b : K * Score) : Prop := score_lt a.2 b.2 = false.

(** Neither score is smaller than the other. *)
Definition tied (v : Score) (a : K * Score) : Prop :=
  score_lt a.2 v = false ∧ score_lt v a.2 = false.

(** The edges in the order of [prune_scores] after line 30. *)
Definition edge_order (prune_scores : list (Edge * Score)) : list Edge :=
  (dict_of_items (sorted_desc prune_scores)).*1.

End OrderNotions.

Section RunNotions.
Context `{Torch}.

(** [m] returns from [w], and its result and final state satisfy [Q]. *)
Definition wp {A : Type} (m : Run A) (w : World) (Q : A → World → Prop)
    : Prop :=
  match m w with
  | inl _ => False
  | inr (a, w') => Q a w'
  end.

(** If [m] returns from [w], its result and final state satisfy [Q]. *)
Definition wlp {A : Type} (m : Run A) (w : World) (Q : A → World → Prop)
    : Prop :=
  match m w with
  | inl _ => True
  | inr (a, w') => Q a w'
  end.

(** The writes to mask entries among some events. *)
Definition mask_writes (evs : list Event) : list (Edge * Z) :=
  omap (λ ev, match ev with EvMaskSet e v => Some (e, v) | _ => None end) evs.

(** Inside the loop over the edges the model is only written to at a mask
    entry, and called. *)
Definition loop_event (ev : Event) : Prop :=
  match ev with
  | EvMaskSet _ _ | EvForward _ => True
  | _ => False
  end.

(** The events of one batch with batch input [x]: the unpatched call if
    checkpoint 0 is asked for, the baseline, the entry into the patch
    context with the masks reset, the loop over [edges], the drawing if
    any, and the exit. *)
Definition batch_segment (test_edge_counts : list Z) (edges : list Edge)
    (x : Tensor) (seg : list Event) : Prop :=
  ∃ p curr_src_outs patch_src_outs body draw,
    seg = (if decide (0%Z ∈ test_edge_counts) then [EvForward x] else [])
          ++ [EvSrcOuts p; EvEnter curr_src_outs patch_src_outs true]
          ++ body ++ draw ++ [EvExit]
    ∧ mask_writes body = (λ e, (e, 1%Z)) <$> edges
    ∧ Forall loop_event body
    ∧ (draw = [] ∨ ∃ r, draw = [EvDraw x r]).

Definition valid_input (experiment_type : ExperimentType) : Prop :=
  input_type experiment_type = CLEAN ∨ input_type experiment_type = CORRUPT.

Definition valid_patch (experiment_type : ExperimentType) : Prop :=
  patch_type experiment_type = CLEAN ∨ patch_type experiment_type = CORRUPT
  ∨ patch_type experiment_type = ZERO.

(** The tensor [batch_input] of lines 34-37. *)
Definition chosen_input (experiment_type : ExperimentType)
    (batch : PromptPairBatch) : Tensor :=
  match input_type experiment_type with
  | CORRUPT => corrupt batch
  | _ => clean batch
  end.

Context `{!ModelOps}.

(** When the graph is drawn, [get_sorted_src_outs] has an output for the
    source of every edge (line 68 looks them up). *)
Definition labels_available (render_graph : bool) (edges : list Edge) : Prop :=
  render_graph = true →
  ∀ st x e, e ∈ edges → src e ∈ (sorted_src_outs st x).*1.

(** The outputs recorded under key 0, one per batch: the first batch sees
    the model as it was handed in, the later ones after a patch context was
    left. *)
Definition unpatched_outs (experiment_type : ExperimentType) (st : PatchState)
    (data_loader : list PromptPairBatch) : list Tensor :=
  match data_loader with
  | [] => []
  | batch :: rest =>
      out_slice (forward st (chosen_input experiment_type batch))
      :: ((λ b, out_slice (forward_plain (chosen_input experiment_type b)))
            <$> rest)
  end.

End RunNotions.

(** ** Concrete inputs *)

Definition example_sae (n : nat) : SparseAutoencoder :=
  mkSAE n (Act1D (replicate n 1%Z)).

Definition example_block (n : nat) : Block :=
  mkBlock (mkMLP (HookPoint "hook_post")) (Autoencoder (example_sae n)).

(** Two blocks, two heads, three latents per block. *)
Definition example_model (split_qkv parallel : bool) : AutoencoderTransformer :=
  mkAT
    (mkHT (mkConfig 2 2 true true split_qkv true parallel)
       [example_block 3; example_block 3])
    [example_sae 3; example_sae 3].

(** One block that still has its two hook points. *)
Definition one_layer_model : HookedTransformer :=
  mkHT (mkConfig 1 1 true true true true false)
    [mkBlock (mkMLP (HookPoint "blocks.0.mlp.hook_post"))
       (HookPoint "blocks.0.hook_mlp_out")].

(** Two autoencoders with one and with two activated latents. *)
Definition two_saes : list SparseAutoencoder :=
  [mkSAE 3 (Act1D [1; 0; 0]%Z); mkSAE 3 (Act1D [1; 1; 0]%Z)].

(** Integers as tensors and as scores. *)
Definition Z_Torch : Torch :=
  {| Tensor := Z; zeros_like := λ _, 0%Z; stack := foldr Z.add 0%Z |}.

Definition Z_Model : @ModelOps Z_Torch :=
  @Build_ModelOps Z_Torch
    (λ x : Z, (10 * x)%Z)
    (λ m _ (patch_src_outs x : Z),
       (10 * x + patch_src_outs + Z.of_nat (size m))%Z)
    (λ _ (x : Z), [(resid_start 0 0, x); (src_attn_node 0 0 1 1, x)])
    (λ x : Z, x).

Definition Z_Score : ScoreType := {| Score := Z; score_lt := Z.ltb |}.

Definition example_scores : list (Edge * @Score Z_Score) :=
  [(mkEdge (resid_start 0 0) (dest_attn_node 0 0 1 0), 5%Z);
   (mkEdge (resid_start 0 0) (dest_mlp_node 0 2 1), 7%Z);
   (mkEdge (src_attn_node 0 0 1 1) (dest_mlp_node 0 2 1), 5%Z)].

Definition example_loader : list (@PromptPairBatch Z_Torch) :=
  [@mkBatch Z_Torch 1%Z 2%Z; @mkBatch Z_Torch 3%Z 4%Z].

Definition example_world : @World Z_Torch :=
  @mkWorld Z_Torch (@mkPatchState Z_Torch None ∅) [].

(** ** Notions for the closed forms *)

(** *** Node names *)

(** The character [c] does not occur in [s]. *)
Fixpoint lacks (c : Ascii.ascii) (s : string) : Prop :=
  match s with
  | EmptyString => True
  | String c' s' => c' ≠ c ∧ lacks c s'
  end.

(** Which node a name stands for. *)
Inductive SrcTag : Set :=
  | TStart
  | TAttn (b h : nat)
  | TLatent (b k : nat).

Inductive DestTag : Set :=
  | DAttn (b h : nat)
  | DMlp (b : nat)
  | DEnd.

Definition src_tag_name (t : SrcTag) : string :=
  match t with
  | TStart => "Resid Start"
  | TAttn b h => "A" +:+ fmt b +:+ "." +:+ fmt h
  | TLatent b k => "MLP " +:+ fmt b +:+ " Latent " +:+ fmt k
  end.

Definition dest_tag_name (t : DestTag) : string :=
  match t with
  | DAttn b h => "A" +:+ fmt b +:+ "." +:+ fmt h
  | DMlp b => "MLP " +:+ fmt b
  | DEnd => "Resid End"
  end.

Definition src_tag_block (t : SrcTag) : nat :=
  match t with TStart => 0 | TAttn b _ | TLatent b _ => b end.

Definition dest_tag_block (t : DestTag) : nat :=
  match t with DEnd => 0 | DAttn b _ | DMlp b => b end.

Fixpoint src_tags (heads : nat) (latents : list nat) (b : nat) : list SrcTag :=
  match latents with
  | [] => []
  | n :: latents' =>
      (TAttn b <$> seq 0 heads) ++ (TLatent b <$> seq 0 n)
      ++ src_tags heads latents' (S b)
  end.

Fixpoint dest_tags (heads blocks b : nat) : list DestTag :=
  match blocks with
  | 0 => []
  | S blocks' =>
      (DAttn b <$> seq 0 heads) ++ [DMlp b] ++ dest_tags heads blocks' (S b)
  end.

(** *** The counts that [_prune_latents_with_dataset] retains *)

(** [activated_count] of line 70 for one autoencoder. *)
Definition own_count (sae : SparseAutoencoder) : PyErr + Z :=
  activated_count_of (activated_of (latent_total_act sae)).

(** The values of [max_idx] for autoencoders with the activated counts
    [counts], when the loop is entered with [max_latents]. *)
Fixpoint retained (max_latents : option Z) (counts : list Z) : list Z :=
  match counts with
  | [] => []
  | c :: counts' =>
      Z.min (py_or max_latents c) c
      :: retained (Some (py_or max_latents c)) counts'
  end.

(** The first count that is not zero, or zero. *)
Definition first_nonzero (counts : list Z) : Z :=
  default 0%Z (head (filter (λ c, c ≠ 0%Z) counts)).

(** *** What [run_pruned] returns and does *)

Section RunResult.
Context `{Torch} `{!ModelOps}.

(** The masks of a patch context in which the entries of [edges], and no
    others, have been set to 1. *)
Definition mask_of (edges : list Edge) : gmap Edge Z :=
  gset_to_gmap 1%Z (list_to_set edges).

(** The tensor that [get_sorted_src_outs] is called on, lines 46-52. *)
Definition baseline_input (experiment_type : ExperimentType)
    (batch : PromptPairBatch) : Tensor :=
  match patch_type experiment_type with
  | CORRUPT => corrupt batch
  | _ => clean batch
  end.

(** [patch_outs] of lines 45-53 for a model in state [st]. *)
Definition baseline_outs (experiment_type : ExperimentType) (st : PatchState)
    (batch : PromptPairBatch) : list (SrcNode * Tensor) :=
  let outs := sorted_src_outs st (baseline_input experiment_type batch) in
  match patch_type experiment_type with
  | ZERO => dict_of_items ((λ p, (p.1, zeros_like p.2)) <$> outs)
  | _ => outs
  end.

(** The output recorded for checkpoint [c] and one batch, when the model is
    in state [st] at the start of the batch: for 0 the output of the model
    as it is; for a larger [c] the output inside the patch context, with the
    first [c] of [edges] patched, zeros as current source outputs and the
    stacked baseline as patch source outputs. *)
Definition checkpoint_out (experiment_type : ExperimentType)
    (edges : list Edge) (st : PatchState) (batch : PromptPairBatch) (c : Z)
    : Tensor :=
  let x := chosen_input experiment_type batch in
  if decide (c = 0%Z) then out_slice (forward st x)
  else
    let patch_src_outs :=
      stack ((baseline_outs experiment_type st batch).*2) in
    out_slice
      (forward_patched (mask_of (take (Z.to_nat c) edges))
         (zeros_like patch_src_outs) patch_src_outs x).

(** The states in which the model is at the start of each batch: the first
    batch sees the model as it was handed in, the later ones a model that
    has left a patch context. *)
Definition batch_states (st : PatchState) (sts : list PatchState) : Prop :=
  match sts with
  | [] => True
  | st0 :: rest => st0 = st ∧ Forall (λ s, patching s = None) rest
  end.

(** The events of the loop of lines 59-66 from position [edge_idx] on. *)
Fixpoint loop_events (test_edge_counts : list Z) (x : Tensor)
    (edges : list Edge) (edge_idx : nat) : list Event :=
  match edges with
  | [] => []
  | e :: rest =>
      EvMaskSet e 1
      :: (if decide ((Z.of_nat edge_idx + 1)%Z ∈ test_edge_counts)
          then [EvForward x] else [])
      ++ loop_events test_edge_counts x rest (S edge_idx)
  end.

(** The events of one batch. *)
Definition batch_events (experiment_type : ExperimentType)
    (test_edge_counts : list Z) (edges : list Edge)
    (render_graph render_patched_edge_only : bool) (st : PatchState)
    (batch : PromptPairBatch) : list Event :=
  let x := chosen_input experiment_type batch in
  let patch_src_outs :=
    stack ((baseline_outs experiment_type st batch).*2) in
  (if decide (0%Z ∈ test_edge_counts) then [EvForward x] else [])
  ++ [EvSrcOuts (baseline_input experiment_type batch);
      EvEnter (zeros_like patch_src_outs) patch_src_outs true]
  ++ loop_events test_edge_counts x edges 0
  ++ (if render_graph then [EvDraw x render_patched_edge_only] else [])
  ++ [EvExit].

Definition is_forward (ev : Event) : bool :=
  match ev with EvForward _ => true | _ => false end.

Definition is_src_outs (ev : Event) : bool :=
  match ev with EvSrcOuts _ => true | _ => false end.

Definition is_draw (ev : Event) : bool :=
  match ev with EvDraw _ _ => true | _ => false end.

(** How many of the events satisfy [f]. *)
Definition count_events (f : Event → bool) (evs : list Event) : nat :=
  length (filter (λ ev, f ev) evs).

(** The checkpoints among [0 .. n] that are asked for, each once. *)
Definition requested (test_edge_counts : list Z) (n : nat) : list nat :=
  filter (λ c, Z.of_nat c ∈ test_edge_counts) (seq 0 (S n)).

End RunResult.

(** ** Further concrete inputs *)

(** Two layers, one block. *)
Definition short_model : AutoencoderTransformer :=
  mkAT (mkHT (mkConfig 2 2 true true true true false) [example_block 3])
    [example_sae 3].

(** A loader that gives the autoencoder of layer [layer_idx] one latent more
    than the index of the layer. *)
Definition example_Loader : Loader :=
  {| load_autoencoder := λ _ _ layer_idx _ _, example_sae (S layer_idx) |}.

(** A model without layers. *)
Definition zero_layer_model : HookedTransformer :=
  mkHT (mkConfig 0 1 true true true true false) [].

(** Sorting the indices of a row with the stable descending sort, and
    pruning that records the number of latents kept. *)
Definition example_SaeOps : SaeOps :=
  {| sort_indices_desc := λ row,
       (@sorted_desc Z_Score nat (zip (seq 0 (length row)) row)).*1;
     prune_latents := λ sae idxs,
       mkSAE
         (match idxs with
          | Idxs1D row => length row
          | Idxs2D rows => length (mjoin (take 1 rows))
          end)
         (latent_total_act sae) |}.

(** One edge whose source no baseline has an output for. *)
Definition unknown_scores : list (Edge * @Score Z_Score) :=
  [(mkEdge (src_latent_node 0 0 2 2) (dest_mlp_node 0 2 1), 1%Z)].

(** * Proofs *)

(** ** Node enumeration: the run in closed form *)

Lemma Enum_eq (s t : Enum) :
  layers s = layers t → idxs s = idxs t → nodes s = nodes t →
  order s = order t → s = t.
Proof. destruct s, t; simpl; congruence. Qed.

Lemma grow_nil s : grow s 0 [] = s.
Proof.
  apply Enum_eq; simpl; [lia | lia | set_solver | by rewrite app_nil_r].
Qed.

Lemma grow_grow s d1 n1 d2 n2 :
  grow (grow s d1 n1) d2 n2 = grow s (d1 + d2) (n1 ++ n2).
Proof.
  apply Enum_eq; simpl.
  - lia.
  - rewrite length_app; lia.
  - rewrite list_to_set_app_L. set_solver.
  - by rewrite app_assoc.
Qed.

Lemma bind_eq {A B} (m : Build A) (k : A → Build B) s :
  (m ≫= k) s = match m s with inl e => inl e | inr (x, s') => k x s' end.
Proof. reflexivity. Qed.

Lemma bind_ok {A B} (m : Build A) (k : A → Build B) s x s' :
  m s = inr (x, s') → (m ≫= k) s = k x s'.
Proof. intros E. by rewrite bind_eq, E. Qed.

Lemma next_layers_eq s : next_layers s = inr (layers s, grow s 1 []).
Proof.
  unfold next_layers. do 2 f_equal.
  apply Enum_eq; simpl; [lia | lia | set_solver | by rewrite app_nil_r].
Qed.

Lemma fresh_add_eq (f : nat → Node) s :
  (next_idxs ≫= λ i, add (f i)) s = inr (tt, grow s 0 [f (idxs s)]).
Proof.
  rewrite bind_eq. unfold next_idxs, add; simpl. do 2 f_equal.
  apply Enum_eq; simpl; [lia | lia | set_solver | done].
Qed.

Lemma fresh_layer_add_eq (f : nat → nat → Node) s :
  (next_layers ≫= λ l, next_idxs ≫= λ i, add (f l i)) s
  = inr (tt, grow s 1 [f (layers s) (idxs s)]).
Proof.
  rewrite (bind_ok _ _ _ _ _ (next_layers_eq s)), fresh_add_eq, grow_grow.
  cbn [grow idxs length app]. by rewrite !Nat.add_0_r.
Qed.

Lemma for_each_fresh (f : nat → nat → Node) a n s :
  for_each (seq a n) (λ x, next_idxs ≫= λ i, add (f x i)) s
  = inr (tt, grow s 0 ((λ k, f (a + k) (idxs s + k)) <$> seq 0 n)).
Proof.
  revert a s. induction n as [|n IH]; intros a s.
  - simpl. by rewrite grow_nil.
  - change (seq a (S n)) with (a :: seq (S a) n). cbn [for_each].
    rewrite (bind_ok _ _ _ _ _ (fresh_add_eq (f a) s)).
    rewrite IH, grow_grow. do 3 f_equal.
    cbn [seq fmap list_fmap app]. rewrite !Nat.add_0_r. f_equal.
    rewrite <- (fmap_S_seq 0 n), <- list_fmap_compose.
    apply list_fmap_ext. intros _ k _. simpl.
    f_equal; lia.
Qed.

Lemma S_mlp_layer parallel L : S (mlp_layer parallel L) = L + step parallel.
Proof. destruct parallel; simpl; lia. Qed.

Lemma block_n_latents_eq model latents b n s :
  has_latents model latents → latents !! b = Some n →
  block_n_latents model b s = inr (n, s).
Proof.
  intros Hl Hb. destruct (Hl b n Hb) as (blk & sae & E1 & E2 & E3).
  unfold block_n_latents. by rewrite E1, E2, E3.
Qed.

Ltac same_nodes :=
  cbn [src_block_nodes dest_block_nodes fst snd grow idxs layers mlp_layer
       length app];
  rewrite ?app_nil_r;
  repeat match goal with
    | |- _ ++ _ = _ ++ _ => f_equal
    | |- _ <$> _ = _ <$> _ => apply list_fmap_ext; intros _ ? _; cbn beta
    | |- [_] = [_] => f_equal
    end;
  rewrite ?length_app, ?length_fmap, ?length_seq;
  f_equal; simpl; lia.

Lemma src_block_eq model latents b n s :
  has_latents model latents → latents !! b = Some n →
  src_block model b s
  = inr (tt, grow s (step (parallel_attn_mlp (AT.cfg model)))
               (let g := src_block_nodes (parallel_attn_mlp (AT.cfg model))
                           (n_heads (AT.cfg model)) b (layers s) (idxs s) n in
                g.1 ++ g.2)).
Proof.
  intros Hl Hb. unfold src_block, range.
  rewrite (bind_ok _ _ _ _ _ (next_layers_eq s)).
  rewrite (bind_ok _ _ _ _ _ (for_each_fresh _ 0 _ _)).
  destruct (parallel_attn_mlp (AT.cfg model)) eqn:Hp.
  - rewrite (bind_ok (mret _) _ _ (layers s) _ eq_refl).
    rewrite (bind_ok _ _ _ _ _ (block_n_latents_eq _ _ _ _ _ Hl Hb)).
    rewrite for_each_fresh, !grow_grow. do 3 f_equal. same_nodes.
  - rewrite (bind_ok _ _ _ _ _ (next_layers_eq _)).
    rewrite (bind_ok _ _ _ _ _ (block_n_latents_eq _ _ _ _ _ Hl Hb)).
    rewrite for_each_fresh, !grow_grow. do 3 f_equal. same_nodes.
Qed.

Lemma dest_block_eq model b s :
  dest_block model b s
  = inr (tt, grow s (step (parallel_attn_mlp (AT.cfg model)))
               (let g := dest_block_nodes (parallel_attn_mlp (AT.cfg model))
                           (n_heads (AT.cfg model)) b (layers s) (idxs s) in
                g.1 ++ g.2)).
Proof.
  unfold dest_block, range.
  rewrite (bind_ok _ _ _ _ _ (next_layers_eq s)).
  rewrite (bind_ok _ _ _ _ _ (for_each_fresh _ 0 _ _)).
  destruct (parallel_attn_mlp (AT.cfg model)) eqn:Hp.
  - rewrite (bind_ok (mret _) _ _ (layers s) _ eq_refl).
    rewrite fresh_add_eq, !grow_grow. do 3 f_equal. same_nodes.
  - rewrite (bind_ok _ _ _ _ _ (next_layers_eq _)).
    rewrite fresh_add_eq, !grow_grow. do 3 f_equal. same_nodes.
Qed.

Lemma flatten_cons g groups : flatten (g :: groups) = (g.1 ++ g.2) ++ flatten groups.
Proof. reflexivity. Qed.

Lemma src_blocks_eq model latents lat b0 s :
  has_latents model latents →
  (∀ k n, lat !! k = Some n → latents !! (b0 + k) = Some n) →
  for_each (seq b0 (length lat)) (src_block model) s
  = inr (tt, grow s (length lat * step (parallel_attn_mlp (AT.cfg model)))
               (flatten (src_groups (parallel_attn_mlp (AT.cfg model))
                           (n_heads (AT.cfg model)) lat b0 (layers s)
                           (idxs s)))).
Proof.
  intros Hl. revert b0 s. induction lat as [|n lat IH]; intros b0 s Hlat.
  - simpl. by rewrite grow_nil.
  - cbn [length seq for_each src_groups].
    assert (latents !! b0 = Some n) as Hb.
    { rewrite <- (Nat.add_0_r b0). by apply Hlat. }
    rewrite (bind_ok _ _ _ _ _ (src_block_eq _ _ _ _ s Hl Hb)).
    rewrite IH.
    2:{ intros k m Hk. replace (S b0 + k) with (b0 + S k) by lia.
        by apply Hlat. }
    rewrite grow_grow, flatten_cons. cbn zeta.
    set (g := src_block_nodes _ _ b0 _ _ n).
    assert (length (g.1 ++ g.2) = n_heads (AT.cfg model) + n) as Hlen.
    { subst g. cbn [src_block_nodes fst snd].
      by rewrite length_app, !length_fmap, !length_seq. }
    clearbody g. cbn [grow layers idxs].
    rewrite Hlen, S_mlp_layer, Nat.add_assoc.
    reflexivity.
Qed.

Lemma dest_blocks_eq model n b0 s :
  for_each (seq b0 n) (dest_block model) s
  = inr (tt, grow s (n * step (parallel_attn_mlp (AT.cfg model)))
               (flatten (dest_groups (parallel_attn_mlp (AT.cfg model))
                           (n_heads (AT.cfg model)) n b0 (layers s)
                           (idxs s)))).
Proof.
  revert b0 s. induction n as [|n IH]; intros b0 s.
  - simpl. by rewrite grow_nil.
  - cbn [seq for_each dest_groups].
    rewrite (bind_ok _ _ _ _ _ (dest_block_eq _ _ s)).
    rewrite IH, grow_grow, flatten_cons. cbn zeta.
    set (g := dest_block_nodes _ _ b0 _ _).
    assert (length (g.1 ++ g.2) = S (n_heads (AT.cfg model))) as Hlen.
    { subst g. cbn [dest_block_nodes fst snd].
      rewrite length_app, !length_fmap, !length_seq. simpl. lia. }
    clearbody g. cbn [grow layers idxs]. rewrite Hlen, S_mlp_layer.
    replace (idxs s + S (n_heads (AT.cfg model)))
      with (S (idxs s + n_heads (AT.cfg model))) by lia.
    reflexivity.
Qed.

Lemma src_run_eq model latents :
  src_flags (AT.cfg model) = true →
  has_latents model latents → length latents = n_layers (AT.cfg model) →
  src_run model
  = inr (grow (mkEnum 0 0 ∅ [])
           (1 + n_layers (AT.cfg model)
                * step (parallel_attn_mlp (AT.cfg model)))
           (resid_start 0 0
            :: flatten (src_groups (parallel_attn_mlp (AT.cfg model))
                          (n_heads (AT.cfg model)) latents 0 1 1))).
Proof.
  unfold src_flags. intros Hf Hl Hn. unfold src_run, src_body, range.
  repeat (apply andb_prop in Hf as [Hf ?]).
  rewrite Hf, H, H0, H1. cbn [py_assert].
  do 4 rewrite (bind_ok (mret tt) _ _ tt _ eq_refl).
  rewrite (bind_ok _ _ _ _ _ (fresh_layer_add_eq _ _)).
  rewrite <- Hn, (src_blocks_eq model latents latents 0 _ Hl) by done.
  rewrite !grow_grow. reflexivity.
Qed.

Lemma dest_run_eq model :
  dest_flags (AT.cfg model) = true →
  dest_run model
  = inr (grow (mkEnum 1 0 ∅ [])
           (n_layers (AT.cfg model)
              * step (parallel_attn_mlp (AT.cfg model)) + 1)
           (flatten (dest_groups (parallel_attn_mlp (AT.cfg model))
                       (n_heads (AT.cfg model)) (n_layers (AT.cfg model))
                       0 1 0)
            ++ [resid_end (n_layers (AT.cfg model))
                  (1 + n_layers (AT.cfg model)
                       * step (parallel_attn_mlp (AT.cfg model)))
                  (length (flatten (dest_groups
                       (parallel_attn_mlp (AT.cfg model))
                       (n_heads (AT.cfg model)) (n_layers (AT.cfg model))
                       0 1 0)))])).
Proof.
  unfold dest_flags. intros Hf. unfold dest_run, dest_body, range.
  repeat (apply andb_prop in Hf as [Hf ?]).
  rewrite Hf, H, H0. cbn [py_assert].
  do 3 rewrite (bind_ok (mret tt) _ _ tt _ eq_refl).
  rewrite (bind_ok _ _ _ _ _ (dest_blocks_eq _ _ _ _)).
  rewrite fresh_layer_add_eq, !grow_grow.
  cbn [grow layers idxs length]. reflexivity.
Qed.

(** ** Node enumeration: counts, ordinal indices, layers *)

Lemma StronglySorted_same {A} (R : relation A) (l : list A) :
  (∀ x y, x ∈ l → y ∈ l → R x y) → StronglySorted R l.
Proof.
  induction l as [|x l IH]; intros HR; constructor.
  - apply IH. intros y z Hy Hz. apply HR; by apply elem_of_cons; right.
  - apply Forall_forall. intros y Hy.
    apply HR; apply elem_of_cons; [by left | by right].
Qed.

Lemma layered_lookup parallel L groups k g :
  layered parallel L groups → groups !! k = Some g →
  (∀ a, a ∈ g.1 → layer a = L + k * step parallel)
  ∧ (∀ m, m ∈ g.2 → layer m = mlp_layer parallel (L + k * step parallel)).
Proof.
  revert L k. induction groups as [|g0 groups IH]; intros L k Hg Hk; [done|].
  destruct Hg as (Ha & Hm & Hrest). destruct k as [|k]; simpl in Hk.
  - injection Hk as <-. rewrite Nat.add_0_r. by split.
  - destruct (IH _ _ Hrest Hk) as [H1 H2].
    replace (L + S k * step parallel)
      with (S (mlp_layer parallel L) + k * step parallel)
      by (rewrite S_mlp_layer; lia).
    by split.
Qed.

Lemma elem_of_flatten x groups :
  x ∈ flatten groups ↔ ∃ g, g ∈ groups ∧ (x ∈ g.1 ∨ x ∈ g.2).
Proof.
  unfold flatten. rewrite list_elem_of_join. split.
  - intros (l & Hx & Hl). apply list_elem_of_fmap in Hl as (g & -> & Hg).
    exists g. split; [done|]. by apply elem_of_app.
  - intros (g & Hg & Hx). exists (g.1 ++ g.2). split.
    + by apply elem_of_app.
    + apply list_elem_of_fmap. by exists g.
Qed.

Lemma layered_lower parallel L groups x :
  layered parallel L groups → x ∈ flatten groups → L ≤ layer x.
Proof.
  revert L. induction groups as [|g groups IH]; intros L Hg Hx.
  - by apply elem_of_nil in Hx.
  - destruct Hg as (Ha & Hm & Hrest). rewrite flatten_cons in Hx.
    apply elem_of_app in Hx as [Hx|Hx].
    + apply elem_of_app in Hx as [Hx|Hx].
      * rewrite (Ha _ Hx). lia.
      * rewrite (Hm _ Hx). destruct parallel; simpl; lia.
    + specialize (IH _ Hrest Hx). destruct parallel; simpl in *; lia.
Qed.

Lemma layered_sorted parallel L groups :
  layered parallel L groups → StronglySorted by_layer (flatten groups).
Proof.
  revert L. induction groups as [|g groups IH]; intros L Hg.
  - constructor.
  - destruct Hg as (Ha & Hm & Hrest). rewrite flatten_cons.
    apply StronglySorted_app_2; [|apply StronglySorted_app_2|by eapply IH].
    + intros x1 x2 H1 H2. unfold by_layer.
      pose proof (layered_lower _ _ _ _ Hrest H2) as Hlow.
      apply elem_of_app in H1 as [H1|H1].
      * rewrite (Ha _ H1). destruct parallel; simpl in *; lia.
      * rewrite (Hm _ H1). lia.
    + intros x1 x2 H1 H2. unfold by_layer.
      rewrite (Ha _ H1), (Hm _ H2). destruct parallel; simpl; lia.
    + apply StronglySorted_same. intros x y Hx Hy. unfold by_layer.
      by rewrite (Ha _ Hx), (Ha _ Hy).
    + apply StronglySorted_same. intros x y Hx Hy. unfold by_layer.
      by rewrite (Hm _ Hx), (Hm _ Hy).
Qed.

Lemma src_groups_layered parallel heads latents b L i :
  layered parallel L (src_groups parallel heads latents b L i).
Proof.
  revert b L i. induction latents as [|n latents IH]; intros b L i; [done|].
  cbn [src_groups layered src_block_nodes fst snd]. split_and!; [| |apply IH].
  - intros a Ha. by apply list_elem_of_fmap in Ha as (h & -> & _).
  - intros m Hm. by apply list_elem_of_fmap in Hm as (h & -> & _).
Qed.

Lemma dest_groups_layered parallel heads n b L i :
  layered parallel L (dest_groups parallel heads n b L i).
Proof.
  revert b L i. induction n as [|n IH]; intros b L i; [done|].
  cbn [dest_groups layered dest_block_nodes fst snd]. split_and!; [| |apply IH].
  - intros a Ha. by apply list_elem_of_fmap in Ha as (h & -> & _).
  - intros m Hm. by apply list_elem_of_singleton in Hm as ->.
Qed.

Lemma src_groups_length parallel heads latents b L i :
  length (src_groups parallel heads latents b L i) = length latents.
Proof.
  revert b L i. induction latents as [|n latents IH]; intros b L i; [done|].
  simpl. by rewrite IH.
Qed.

Lemma dest_groups_length parallel heads n b L i :
  length (dest_groups parallel heads n b L i) = n.
Proof.
  revert b L i. induction n as [|n IH]; intros b L i; [done|].
  simpl. by rewrite IH.
Qed.

Lemma src_groups_count parallel heads latents b L i :
  length (flatten (src_groups parallel heads latents b L i))
  = length latents * heads + sum_list latents.
Proof.
  revert b L i. induction latents as [|n latents IH]; intros b L i; [done|].
  cbn [src_groups]. rewrite flatten_cons, !length_app, IH.
  cbn [src_block_nodes fst snd]. rewrite !length_fmap, !length_seq.
  simpl. lia.
Qed.

Lemma dest_groups_count parallel heads n b L i :
  length (flatten (dest_groups parallel heads n b L i)) = n * (heads + 1).
Proof.
  revert b L i. induction n as [|n IH]; intros b L i; [done|].
  cbn [dest_groups]. rewrite flatten_cons, !length_app, IH.
  cbn [dest_block_nodes fst snd]. rewrite !length_fmap, !length_seq.
  simpl. lia.
Qed.

Lemma fmap_idx_seq (f : nat → nat → Node) i n :
  (∀ k, idx (f k (i + k)) = i + k) →
  idx <$> ((λ k, f k (i + k)) <$> seq 0 n) = seq i n.
Proof.
  intros Hf. rewrite <- list_fmap_compose.
  replace (seq i n) with (Nat.add i <$> seq 0 n)
    by (rewrite fmap_add_seq; f_equal; lia).
  apply list_fmap_ext. intros _ k _. simpl. apply Hf.
Qed.

Lemma src_groups_idx parallel heads latents b L i :
  idx <$> flatten (src_groups parallel heads latents b L i)
  = seq i (length (flatten (src_groups parallel heads latents b L i))).
Proof.
  revert b L i. induction latents as [|n latents IH]; intros b L i; [done|].
  cbn [src_groups]. rewrite flatten_cons, !fmap_app, !length_app, IH.
  cbn [src_block_nodes fst snd]. rewrite !length_fmap, !length_seq.
  rewrite (fmap_idx_seq (λ h, src_attn_node b h L)) by done.
  rewrite (fmap_idx_seq (λ k, src_latent_node b k (mlp_layer parallel L)))
    by done.
  by rewrite !seq_app, Nat.add_assoc.
Qed.

Lemma dest_groups_idx parallel heads n b L i :
  idx <$> flatten (dest_groups parallel heads n b L i)
  = seq i (length (flatten (dest_groups parallel heads n b L i))).
Proof.
  revert b L i. induction n as [|n IH]; intros b L i; [done|].
  cbn [dest_groups]. rewrite flatten_cons, !fmap_app, !length_app, IH.
  cbn [dest_block_nodes fst snd]. rewrite !length_fmap, !length_seq.
  rewrite (fmap_idx_seq (λ h, dest_attn_node b h L)) by done.
  rewrite !seq_app. simpl. rewrite <- app_assoc. simpl.
  replace (i + (heads + 1)) with (S (i + heads)) by lia.
  by rewrite <- app_assoc.
Qed.

Lemma src_groups_modules parallel heads latents b L i k g :
  src_groups parallel heads latents b L i !! k = Some g →
  (∃ n, latents !! k = Some n ∧ length g.1 = heads ∧ length g.2 = n)
  ∧ (∀ a, a ∈ g.1 →
       module_name a = "blocks." +:+ fmt (b + k) +:+ ".attn.hook_result")
  ∧ (∀ m, m ∈ g.2 →
       module_name m
       = "blocks." +:+ fmt (b + k) +:+ ".hook_mlp_out.latent_outs").
Proof.
  revert b L i k. induction latents as [|n latents IH]; intros b L i k Hk;
    [done|].
  destruct k as [|k]; cbn [src_groups] in Hk; simpl in Hk.
  - injection Hk as <-. rewrite Nat.add_0_r.
    cbn [src_block_nodes fst snd]. split_and!.
    + exists n. by rewrite !length_fmap, !length_seq.
    + intros a Ha. by apply list_elem_of_fmap in Ha as (h & -> & _).
    + intros m Hm. by apply list_elem_of_fmap in Hm as (h & -> & _).
  - replace (b + S k) with (S b + k) by lia. by eapply IH.
Qed.

Lemma dest_groups_modules parallel heads n b L i k g :
  dest_groups parallel heads n b L i !! k = Some g →
  (length g.1 = heads ∧ length g.2 = 1)
  ∧ (∀ a, a ∈ g.1 →
       module_name a = "blocks." +:+ fmt (b + k) +:+ ".hook_attn_in")
  ∧ (∀ m, m ∈ g.2 →
       module_name m = "blocks." +:+ fmt (b + k) +:+ ".hook_mlp_in").
Proof.
  revert b L i k. induction n as [|n IH]; intros b L i k Hk; [done|].
  destruct k as [|k]; cbn [dest_groups] in Hk; simpl in Hk.
  - injection Hk as <-. rewrite Nat.add_0_r.
    cbn [dest_block_nodes fst snd]. split_and!.
    + by rewrite !length_fmap, !length_seq.
    + done.
    + intros a Ha. by apply list_elem_of_fmap in Ha as (h & -> & _).
    + intros m Hm. by apply list_elem_of_singleton in Hm as ->.
  - replace (b + S k) with (S b + k) by lia. by eapply IH.
Qed.

Lemma layered_upper parallel L groups x :
  layered parallel L groups → x ∈ flatten groups →
  layer x < L + length groups * step parallel.
Proof.
  revert L. induction groups as [|g groups IH]; intros L Hg Hx.
  - by apply elem_of_nil in Hx.
  - destruct Hg as (Ha & Hm & Hrest). rewrite flatten_cons in Hx.
    apply elem_of_app in Hx as [Hx|Hx].
    + apply elem_of_app in Hx as [Hx|Hx].
      * rewrite (Ha _ Hx). destruct parallel; simpl; lia.
      * rewrite (Hm _ Hx). destruct parallel; simpl; lia.
    + specialize (IH _ Hrest Hx). rewrite S_mlp_layer in IH. simpl. lia.
Qed.

Lemma StronglySorted_lt_seq a n : StronglySorted lt (seq a n).
Proof.
  revert a. induction n as [|n IH]; intros a; constructor; [apply IH|].
  apply Forall_forall. intros k Hk. apply elem_of_seq in Hk. lia.
Qed.

Lemma nodes_of_order_size (l : list Node) n :
  idx <$> l = seq 0 n →
  size (list_to_set l ∪ (∅ : gset Node)) = n
  ∧ (list_to_set l ∪ ∅ : gset Node) = list_to_set l.
Proof.
  intros Hl. rewrite (right_id_L ∅ (∪)). split; [|done].
  rewrite size_list_to_set.
  - by rewrite <- (length_fmap idx), Hl, length_seq.
  - apply (NoDup_fmap_1 idx). rewrite Hl. apply NoDup_seq.
Qed.

Lemma src_order_idx parallel heads latents :
  idx <$> (resid_start 0 0 :: flatten (src_groups parallel heads latents 0 1 1))
  = seq 0 (1 + (length latents * heads + sum_list latents)).
Proof.
  cbn [fmap list_fmap]. fold (fmap (M:=list) idx).
  by rewrite src_groups_idx, src_groups_count.
Qed.

Lemma dest_order_idx parallel heads n L :
  idx <$> (flatten (dest_groups parallel heads n 0 1 0)
           ++ [resid_end n L
                 (length (flatten (dest_groups parallel heads n 0 1 0)))])
  = seq 0 (n * (heads + 1) + 1).
Proof.
  rewrite fmap_app, dest_groups_idx, dest_groups_count, seq_app. done.
Qed.

Lemma layered_block_layers parallel L groups k g :
  layered parallel L groups → groups !! k = Some g → block_layers parallel g.
Proof.
  intros Hg Hk a m Ha Hm.
  destruct (layered_lookup _ _ _ _ _ Hg Hk) as [H1 H2].
  rewrite (H1 _ Ha), (H2 _ Hm). destruct parallel; simpl; split; try done.
  split; [lia | done].
Qed.

Lemma src_order_sorted parallel heads latents :
  StronglySorted by_layer
    (resid_start 0 0 :: flatten (src_groups parallel heads latents 0 1 1)).
Proof.
  constructor.
  - eapply layered_sorted, src_groups_layered.
  - apply Forall_forall. intros x _. unfold by_layer. simpl. lia.
Qed.

Lemma dest_order_sorted parallel heads n i :
  StronglySorted by_layer
    (flatten (dest_groups parallel heads n 0 1 0)
     ++ [resid_end n (1 + n * step parallel) i]).
Proof.
  apply StronglySorted_app_2.
  - intros x y Hx Hy. apply list_elem_of_singleton in Hy as ->.
    pose proof (layered_upper _ _ _ _ (dest_groups_layered _ _ _ _ _ _) Hx)
      as Hu.
    rewrite dest_groups_length in Hu. unfold by_layer. simpl. lia.
  - eapply layered_sorted, dest_groups_layered.
  - repeat constructor.
Qed.

Lemma src_run_assert model :
  src_flags (AT.cfg model) = false → src_run model = inl AssertionError.
Proof.
  unfold src_flags, src_run, src_body. intros Hf.
  destruct (use_attn_result (AT.cfg model)); [|done].
  destruct (use_attn_in (AT.cfg model)); [|done].
  destruct (use_split_qkv_input (AT.cfg model)); [|done].
  destruct (use_hook_mlp_in (AT.cfg model)); [|done].
  done.
Qed.

Lemma dest_run_assert model :
  dest_flags (AT.cfg model) = false → dest_run model = inl AssertionError.
Proof.
  unfold dest_flags, dest_run, dest_body. intros Hf.
  destruct (use_attn_result (AT.cfg model)); [|done].
  destruct (use_attn_in (AT.cfg model)); [|done].
  destruct (use_hook_mlp_in (AT.cfg model)); [|done].
  done.
Qed.

Lemma src_flags_dest_flags c : src_flags c = true → dest_flags c = true.
Proof.
  unfold src_flags, dest_flags.
  destruct (use_attn_result c), (use_attn_in c), (use_split_qkv_input c),
    (use_hook_mlp_in c); done.
Qed.

Lemma example_has_latents split_qkv parallel :
  has_latents (example_model split_qkv parallel) [3; 3].
Proof.
  intros b n Hb. destruct b as [|[|b]]; simplify_eq/=.
  - by exists (example_block 3), (example_sae 3).
  - by exists (example_block 3), (example_sae 3).
Defined.

(** C1.  For a model whose four capability flags are set and whose blocks
    each hold an autoencoder with [latents_per_layer] latents,
    [factorized_src_nodes] returns a set of
    [1 + n_layers * (n_heads + latents_per_layer)] nodes and
    [factorized_dest_nodes] a set of [n_layers * (n_heads + 1) + 1] nodes;
    in each enumeration the ordinal indices are pairwise different and
    strictly increasing (they are [0, 1, 2, ...]). *)
Theorem C1_node_counts (model : AutoencoderTransformer)
    (latents_per_layer : nat) :
  src_flags (AT.cfg model) = true →
  has_latents model
    (replicate (n_layers (AT.cfg model)) latents_per_layer) →
  ∃ srcs src_order dests dest_order,
    factorized_src_nodes model = inr srcs
    ∧ src_enumeration model = inr src_order
    ∧ factorized_dest_nodes model = inr dests
    ∧ dest_enumeration model = inr dest_order
    ∧ srcs = list_to_set src_order
    ∧ dests = list_to_set dest_order
    ∧ size srcs
      = 1 + n_layers (AT.cfg model)
            * (n_heads (AT.cfg model) + latents_per_layer)
    ∧ size dests
      = n_layers (AT.cfg model) * (n_heads (AT.cfg model) + 1) + 1
    ∧ idx <$> src_order = seq 0 (size srcs)
    ∧ idx <$> dest_order = seq 0 (size dests)
    ∧ NoDup (idx <$> src_order)
    ∧ StronglySorted lt (idx <$> src_order)
    ∧ NoDup (idx <$> dest_order)
    ∧ StronglySorted lt (idx <$> dest_order).
Proof.
  intros Hf Hl.
  set (n := n_layers (AT.cfg model)) in *.
  set (h := n_heads (AT.cfg model)).
  set (p := parallel_attn_mlp (AT.cfg model)).
  pose proof (src_run_eq model _ Hf Hl (length_replicate _ _)) as Es.
  pose proof (dest_run_eq model (src_flags_dest_flags _ Hf)) as Ed.
  fold n h p in Es, Ed.
  pose proof (src_order_idx p h (replicate n latents_per_layer)) as Is.
  rewrite length_replicate, sum_list_replicate in Is.
  replace (1 + (n * h + n * latents_per_layer))
    with (1 + n * (h + latents_per_layer)) in Is by lia.
  pose proof (dest_order_idx p h n (1 + n * step p)) as Id.
  destruct (nodes_of_order_size _ _ Is) as [Ss Ls].
  destruct (nodes_of_order_size _ _ Id) as [Sd Ld].
  eexists _, _, _, _.
  unfold factorized_src_nodes, src_enumeration, factorized_dest_nodes,
    dest_enumeration.
  rewrite Es, Ed. cbn [fmap Result_fmap grow nodes order app].
  split_and!; try reflexivity.
  - exact Ls.
  - exact Ld.
  - exact Ss.
  - exact Sd.
  - by rewrite Ss.
  - by rewrite Sd.
  - rewrite Is. apply NoDup_seq.
  - rewrite Is. apply StronglySorted_lt_seq.
  - rewrite Id. apply NoDup_seq.
  - rewrite Id. apply StronglySorted_lt_seq.
Qed.

(** C1 on the example model: 2 blocks, 2 heads, 3 latents per block. *)
Lemma C1_node_counts_witness :
  ∃ srcs dests,
    factorized_src_nodes (example_model true false) = inr srcs
    ∧ factorized_dest_nodes (example_model true false) = inr dests
    ∧ size srcs = 11 ∧ size dests = 7.
Proof.
  destruct (C1_node_counts (example_model true false) 3 eq_refl
              (example_has_latents true false))
    as (srcs & so & dests & do & H1 & _ & H2 & _ & _ & _ & H3 & H4 & _).
  exists srcs, dests. by split_and!.
Defined.

(** C5 as stated fails: with split Q/K/V input disabled and the three other
    flags set, [factorized_dest_nodes] returns its nodes; the assertion on
    that flag is commented out at line 223. *)
Lemma C5_counterexample :
  use_split_qkv_input (AT.cfg (example_model false true)) = false
  ∧ dest_enumeration (example_model false true)
    = inr [dest_attn_node 0 0 1 0; dest_attn_node 0 1 1 1;
           dest_mlp_node 0 1 2;
           dest_attn_node 1 0 2 3; dest_attn_node 1 1 2 4;
           dest_mlp_node 1 2 5;
           resid_end 2 3 6]
  ∧ factorized_dest_nodes (example_model false true)
    = inr (list_to_set
             [dest_attn_node 0 0 1 0; dest_attn_node 0 1 1 1;
              dest_mlp_node 0 1 2;
              dest_attn_node 1 0 2 3; dest_attn_node 1 1 2 4;
              dest_mlp_node 1 2 5;
              resid_end 2 3 6]).
Proof.
  split; [reflexivity|].
  unfold dest_enumeration, factorized_dest_nodes.
  rewrite (dest_run_eq (example_model false true) eq_refl).
  cbn [fmap Result_fmap grow nodes order app].
  split; [reflexivity|]. by rewrite (right_id_L ∅ (∪)).
Qed.

(** C5, amended.  [factorized_src_nodes] raises [AssertionError] when one of
    the four flags is unset; [factorized_dest_nodes] raises it when one of
    the three flags [use_attn_result], [use_attn_in], [use_hook_mlp_in] is
    unset, and returns a set when these three are set, whatever
    [use_split_qkv_input] is. *)
Theorem C5_flag_assertions (model : AutoencoderTransformer) :
  (src_flags (AT.cfg model) = false →
     factorized_src_nodes model = inl AssertionError)
  ∧ (dest_flags (AT.cfg model) = false →
       factorized_dest_nodes model = inl AssertionError)
  ∧ (dest_flags (AT.cfg model) = true →
       ∃ dests, factorized_dest_nodes model = inr dests).
Proof.
  unfold factorized_src_nodes, factorized_dest_nodes. split_and!.
  - intros Hf. by rewrite (src_run_assert _ Hf).
  - intros Hf. by rewrite (dest_run_assert _ Hf).
  - intros Hf. rewrite (dest_run_eq _ Hf). by eexists.
Qed.

(** C5, amended, on the example model without split Q/K/V input. *)
Lemma C5_flag_assertions_witness :
  factorized_src_nodes (example_model false true) = inl AssertionError
  ∧ ∃ dests, factorized_dest_nodes (example_model false true) = inr dests.
Proof.
  destruct (C5_flag_assertions (example_model false true)) as (H1 & _ & H3).
  split; [apply H1; reflexivity | apply H3; reflexivity].
Defined.

(** C6.  In both enumerations the layer indices never decrease.  The source
    enumeration is the start node followed by one group per block, the
    destination enumeration one group per block followed by the end node; in
    the group of a block the MLP nodes have the layer of the attention nodes
    if and only if [parallel_attn_mlp] is set, and the next layer
    otherwise. *)
Theorem C6_layers (model : AutoencoderTransformer) (latents : list nat) :
  src_flags (AT.cfg model) = true →
  has_latents model latents →
  length latents = n_layers (AT.cfg model) →
  ∃ src_order dest_order sgroups dgroups l_end i_end,
    src_enumeration model = inr src_order
    ∧ dest_enumeration model = inr dest_order
    ∧ StronglySorted by_layer src_order
    ∧ StronglySorted by_layer dest_order
    ∧ src_order = resid_start 0 0 :: flatten sgroups
    ∧ dest_order
      = flatten dgroups ++ [resid_end (n_layers (AT.cfg model)) l_end i_end]
    ∧ length sgroups = n_layers (AT.cfg model)
    ∧ length dgroups = n_layers (AT.cfg model)
    ∧ (∀ b g, sgroups !! b = Some g →
         (∃ n, latents !! b = Some n
            ∧ length g.1 = n_heads (AT.cfg model) ∧ length g.2 = n)
         ∧ (∀ a, a ∈ g.1 →
              module_name a = "blocks." +:+ fmt b +:+ ".attn.hook_result")
         ∧ (∀ m, m ∈ g.2 →
              module_name m
              = "blocks." +:+ fmt b +:+ ".hook_mlp_out.latent_outs")
         ∧ block_layers (parallel_attn_mlp (AT.cfg model)) g)
    ∧ (∀ b g, dgroups !! b = Some g →
         (length g.1 = n_heads (AT.cfg model) ∧ length g.2 = 1)
         ∧ (∀ a, a ∈ g.1 →
              module_name a = "blocks." +:+ fmt b +:+ ".hook_attn_in")
         ∧ (∀ m, m ∈ g.2 →
              module_name m = "blocks." +:+ fmt b +:+ ".hook_mlp_in")
         ∧ block_layers (parallel_attn_mlp (AT.cfg model)) g).
Proof.
  intros Hf Hl Hn.
  pose proof (src_run_eq model _ Hf Hl Hn) as Es.
  pose proof (dest_run_eq model (src_flags_dest_flags _ Hf)) as Ed.
  eexists _, _, _, _, _, _.
  unfold src_enumeration, dest_enumeration. rewrite Es, Ed.
  cbn [fmap Result_fmap grow nodes order app].
  split_and!; try reflexivity.
  - apply src_order_sorted.
  - apply dest_order_sorted.
  - by rewrite src_groups_length.
  - by rewrite dest_groups_length.
  - intros b g Hg.
    destruct (src_groups_modules _ _ _ _ _ _ _ _ Hg) as (H1 & H2 & H3).
    refine (conj H1 (conj H2 (conj H3 _))).
    eapply layered_block_layers; [apply src_groups_layered | exact Hg].
  - intros b g Hg.
    destruct (dest_groups_modules _ _ _ _ _ _ _ _ Hg) as (H1 & H2 & H3).
    refine (conj H1 (conj H2 (conj H3 _))).
    eapply layered_block_layers; [apply dest_groups_layered | exact Hg].
Qed.

(** C6 on the example model with sequential attention and MLP. *)
Lemma C6_layers_witness :
  ∃ src_order dest_order,
    src_enumeration (example_model true false) = inr src_order
    ∧ dest_enumeration (example_model true false) = inr dest_order
    ∧ StronglySorted by_layer src_order
    ∧ StronglySorted by_layer dest_order.
Proof.
  destruct (C6_layers (example_model true false) [3; 3] eq_refl
              (example_has_latents true false) eq_refl)
    as (so & do & sg & dg & l & i & H1 & H2 & H3 & H4 & _).
  exists so, do. by split_and!.
Defined.

(** ** Dictionaries kept as item lists *)

Section Dict.
Context {K V : Type} `{EqDecision K}.

Lemma dict_set_fresh (k : K) (v : V) d :
  k ∉ d.*1 → dict_set k v d = d ++ [(k, v)].
Proof.
  induction d as [|[k' v'] d IH]; intros Hk; [done|].
  simpl in *. apply not_elem_of_cons in Hk as [Hne Hk].
  rewrite decide_False by done. by rewrite IH.
Qed.

Lemma dict_set_keys (k k0 : K) (v : V) d :
  k0 ∈ (dict_set k v d).*1 ↔ k0 = k ∨ k0 ∈ d.*1.
Proof.
  induction d as [|[k' v'] d IH]; simpl.
  - rewrite list_elem_of_singleton. set_solver.
  - destruct (decide (k = k')) as [->|Hne]; simpl.
    + rewrite !elem_of_cons. naive_solver.
    + rewrite !elem_of_cons, IH. naive_solver.
Qed.

Lemma dict_set_length (k : K) (v : V) d :
  length (dict_set k v d) ≤ S (length d).
Proof.
  induction d as [|[k' v'] d IH]; simpl; [lia|].
  destruct (decide (k = k')); simpl; lia.
Qed.

Lemma foldl_dict_set_fresh (items acc : list (K * V)) :
  NoDup ((acc ++ items).*1) →
  foldl (λ d kv, dict_set kv.1 kv.2 d) acc items = acc ++ items.
Proof.
  revert acc. induction items as [|[k v] items IH]; intros acc Hnd; simpl.
  - by rewrite app_nil_r.
  - rewrite dict_set_fresh.
    + rewrite IH; rewrite <- app_assoc; done.
    + rewrite fmap_app in Hnd. apply NoDup_app in Hnd as (_ & Hd & _).
      intros Hk. apply (Hd _ Hk). simpl. apply elem_of_cons. by left.
Qed.

(** A dict built from items with pairwise different keys has these items,
    in their order. *)
Lemma dict_of_items_NoDup (items : list (K * V)) :
  NoDup (items.*1) → dict_of_items items = items.
Proof. intros Hnd. by apply (foldl_dict_set_fresh items []). Qed.

Lemma foldl_dict_set_length (items acc : list (K * V)) :
  length (foldl (λ d kv, dict_set kv.1 kv.2 d) acc items)
  ≤ length acc + length items.
Proof.
  revert acc. induction items as [|[k v] items IH]; intros acc; simpl; [lia|].
  specialize (IH (dict_set k v acc)).
  pose proof (dict_set_length k v acc). lia.
Qed.

Lemma dict_of_items_length (items : list (K * V)) :
  length (dict_of_items items) ≤ length items.
Proof. apply (foldl_dict_set_length items []). Qed.

Lemma foldl_dict_set_keys (items acc : list (K * V)) k :
  k ∈ (foldl (λ d kv, dict_set kv.1 kv.2 d) acc items).*1
  ↔ k ∈ acc.*1 ∨ k ∈ items.*1.
Proof.
  revert acc. induction items as [|[k' v] items IH]; intros acc; simpl.
  - rewrite elem_of_nil. naive_solver.
  - rewrite IH, dict_set_keys, elem_of_cons. naive_solver.
Qed.

Lemma dict_of_items_keys (items : list (K * V)) k :
  k ∈ (dict_of_items items).*1 ↔ k ∈ items.*1.
Proof.
  unfold dict_of_items. rewrite foldl_dict_set_keys. simpl.
  rewrite elem_of_nil. naive_solver.
Qed.

Lemma dict_get_is_Some (k : K) (d : list (K * V)) :
  k ∈ d.*1 → is_Some (dict_get k d).
Proof.
  induction d as [|[k' v] d IH]; simpl; intros Hk.
  - by apply elem_of_nil in Hk.
  - destruct (decide (k = k')); [by eexists|].
    apply elem_of_cons in Hk as [?|Hk]; [done|]. by apply IH.
Qed.

End Dict.

(** ** The stable descending sort *)

Section SortingFacts.
Context `{ScoreOrder} {K : Type}.

Lemma score_lt_asym x y : score_lt x y = true → score_lt y x = false.
Proof.
  intros Hxy. destruct (score_lt y x) eqn:Hyx; [|done].
  by rewrite <- (score_lt_irrefl x), (score_lt_trans x y x).
Qed.

Lemma insert_desc_perm (x : K * Score) l : insert_desc x l ≡ₚ x :: l.
Proof.
  induction l as [|y l IH]; simpl; [done|].
  destruct (score_lt x.2 y.2); [|done].
  rewrite IH. apply Permutation_swap.
Qed.

Lemma sorted_desc_perm (l : list (K * Score)) : sorted_desc l ≡ₚ l.
Proof.
  induction l as [|x l IH]; simpl; [done|].
  by rewrite insert_desc_perm, IH.
Qed.

Lemma sorted_desc_length (l : list (K * Score)) :
  length (sorted_desc l) = length l.
Proof. by rewrite sorted_desc_perm. Qed.

Lemma insert_desc_sorted (x : K * Score) l :
  StronglySorted not_below l → StronglySorted not_below (insert_desc x l).
Proof.
  induction l as [|y l IH]; intros Hl; simpl.
  - repeat constructor.
  - apply StronglySorted_cons in Hl as [Hy Hl].
    destruct (score_lt x.2 y.2) eqn:Hxy.
    + constructor; [by apply IH|].
      rewrite insert_desc_perm. constructor; [|done].
      by apply score_lt_asym.
    + constructor; [by constructor|]. constructor; [done|].
      eapply Forall_impl; [exact Hy|]. intros z Hz. unfold not_below in *.
      by apply (score_lt_incomp _ y.2).
Qed.

Lemma sorted_desc_sorted (l : list (K * Score)) :
  StronglySorted not_below (sorted_desc l).
Proof.
  induction l as [|x l IH]; simpl; [constructor|].
  by apply insert_desc_sorted.
Qed.

Lemma insert_desc_stable v (x : K * Score) l :
  filter (tied v) (insert_desc x l) = filter (tied v) (x :: l).
Proof.
  induction l as [|y l IH]; simpl; [done|].
  destruct (score_lt x.2 y.2) eqn:Hxy; [|done].
  rewrite !filter_cons, IH, !filter_cons.
  destruct (decide (tied v y)) as [[Hy1 Hy2]|Hy];
    destruct (decide (tied v x)) as [[Hx1 Hx2]|Hx]; try done.
  by rewrite (score_lt_incomp _ v _ Hx1 Hy2) in Hxy.
Qed.

Lemma sorted_desc_stable v (l : list (K * Score)) :
  filter (tied v) (sorted_desc l) = filter (tied v) l.
Proof.
  induction l as [|x l IH]; simpl; [done|].
  by rewrite insert_desc_stable, !filter_cons, IH.
Qed.

End SortingFacts.

(** ** The evaluator *)

Section Wp.
Context `{Torch}.

Lemma wp_bind {A B} (m : Run A) (k : A → Run B) w Q :
  wp m w (λ a w1, wp (k a) w1 Q) → wp (m ≫= k) w Q.
Proof.
  unfold wp, mbind, Run_bind. by destruct (m w) as [e|[a w1]].
Qed.

Lemma wp_ret {A} (a : A) w (Q : A → World → Prop) : Q a w → wp (mret a) w Q.
Proof. done. Qed.

Lemma wp_mono {A} (m : Run A) w (Q Q' : A → World → Prop) :
  wp m w Q → (∀ a w', Q a w' → Q' a w') → wp m w Q'.
Proof. unfold wp. destruct (m w) as [e|[a w1]]; [done|]. auto. Qed.

Lemma wp_elim {A} (m : Run A) w (Q : A → World → Prop) :
  wp m w Q → ∃ a w', m w = inr (a, w') ∧ Q a w'.
Proof. unfold wp. destruct (m w) as [e|[a w1]]; [done|]. eauto. Qed.

Lemma wp_wlp {A} (m : Run A) w (Q : A → World → Prop) :
  wp m w Q → wlp m w Q.
Proof. unfold wp, wlp. by destruct (m w) as [e|[a w1]]. Qed.

Lemma wlp_bind {A B} (m : Run A) (k : A → Run B) w Q :
  wlp m w (λ a w1, wlp (k a) w1 Q) → wlp (m ≫= k) w Q.
Proof.
  unfold wlp, mbind, Run_bind. by destruct (m w) as [e|[a w1]].
Qed.

Lemma wlp_bind_any {A B} (m : Run A) (k : A → Run B) w Q :
  (∀ a w1, wlp (k a) w1 Q) → wlp (m ≫= k) w Q.
Proof.
  intros Hk. apply wlp_bind. unfold wlp at 1.
  destruct (m w) as [e|[a w1]]; [done|]. apply Hk.
Qed.

Lemma wlp_mono {A} (m : Run A) w (Q Q' : A → World → Prop) :
  wlp m w Q → (∀ a w', Q a w' → Q' a w') → wlp m w Q'.
Proof. unfold wlp. destruct (m w) as [e|[a w1]]; [done|]. auto. Qed.

Lemma wlp_elim {A} (m : Run A) w (Q : A → World → Prop) a w' :
  wlp m w Q → m w = inr (a, w') → Q a w'.
Proof. unfold wlp. intros HQ Hm. by rewrite Hm in HQ. Qed.

Lemma mask_writes_app evs1 evs2 :
  mask_writes (evs1 ++ evs2) = mask_writes evs1 ++ mask_writes evs2.
Proof. apply omap_app. Qed.

End Wp.

Section RunPrunedFacts.
Context `{Torch} `{!ModelOps} `{ScoreType}.

Lemma forward_unpatched st x : patching st = None → forward st x = forward_plain x.
Proof. unfold forward. by intros ->. Qed.

Lemma append_out_lookup {V} (k c : Z) (v : V) d :
  append_out k v d !! c
  = if decide (k = c) then Some (default [] (d !! k) ++ [v]) else d !! c.
Proof. unfold append_out. apply lookup_insert. Qed.

Lemma edge_loop_wp test_edge_counts x edges k outs w :
  wp (edge_loop test_edge_counts x edges k outs) w (λ outs' w',
    patching (model_state w') = patching (model_state w)
    ∧ patch_mask (model_state w')
      = foldl (λ m e, <[e := 1%Z]> m) (patch_mask (model_state w)) edges
    ∧ (∀ c, ¬ ((Z.of_nat k < c ≤ Z.of_nat (k + length edges))%Z
               ∧ c ∈ test_edge_counts) →
         outs' !! c = outs !! c)
    ∧ ∃ body, events w' = events w ++ body
        ∧ mask_writes body = (λ e, (e, 1%Z)) <$> edges
        ∧ Forall loop_event body).
Proof.
  revert k outs w. induction edges as [|e edges IH]; intros k outs w.
  - apply wp_ret. split_and!; try done.
    exists []. by rewrite app_nil_r.
  - cbn [edge_loop]. apply wp_bind. unfold wp at 1. cbn [set_patch_mask].
    apply wp_bind.
    destruct (decide ((Z.of_nat k + 1)%Z ∈ test_edge_counts)) as [Hin|Hin].
    + apply wp_bind. unfold wp at 1. cbn [model_call]. apply wp_ret.
      eapply wp_mono; [apply IH|]. cbn beta.
      intros outs' w' (Hp & Hm & Ho & body & Hev & Hw & Hb).
      cbn [model_state events patching patch_mask] in *.
      split_and!; try done.
      * intros c Hc. rewrite Ho, append_out_lookup.
        -- rewrite decide_False; [done|]. intros <-.
           apply Hc. split; [|done]. cbn [length]. lia.
        -- intros [Hr Hcin]. apply Hc. split; [|done]. cbn [length]. lia.
      * eexists. rewrite Hev, <- !app_assoc. split; [reflexivity|].
        split; [|by repeat constructor].
        simpl. by rewrite Hw.
    + apply wp_ret.
      eapply wp_mono; [apply IH|]. cbn beta.
      intros outs' w' (Hp & Hm & Ho & body & Hev & Hw & Hb).
      cbn [model_state events patching patch_mask] in *.
      split_and!; try done.
      * intros c Hc. rewrite Ho; [done|].
        intros [Hr Hcin]. destruct (decide (c = (Z.of_nat k + 1)%Z)) as [->|];
          [done|].
        apply Hc. split; [|done]. cbn [length]. lia.
      * eexists. rewrite Hev, <- !app_assoc. split; [reflexivity|].
        split; [|by repeat constructor].
        simpl. by rewrite Hw.
Qed.

Lemma edge_labels_wp patch_outs edges w :
  (∀ e, e ∈ edges → src e ∈ patch_outs.*1) →
  wp (edge_labels patch_outs edges) w (λ _ w', w' = w).
Proof.
  induction edges as [|e edges IH]; intros He; [done|].
  cbn [edge_labels].
  destruct (dict_get_is_Some (src e) patch_outs) as [out ->].
  { apply He, elem_of_cons. by left. }
  apply wp_bind. eapply wp_mono.
  - apply IH. intros e' He'. apply He, elem_of_cons. by right.
  - intros labels w' ->. by apply wp_ret.
Qed.

Lemma select_input_wp experiment_type batch w :
  valid_input experiment_type →
  wp (select_input experiment_type batch) w (λ x w',
    x = chosen_input experiment_type batch ∧ w' = w).
Proof.
  unfold select_input, chosen_input. by intros [-> | ->].
Qed.

Lemma record_unpatched_wp test_edge_counts x outs w :
  wp (record_unpatched test_edge_counts x outs) w (λ outs' w',
    model_state w' = model_state w
    ∧ events w'
      = events w
        ++ (if decide (0%Z ∈ test_edge_counts) then [EvForward x] else [])
    ∧ outs' !! 0%Z
      = (if decide (0%Z ∈ test_edge_counts)
         then Some (default [] (outs !! 0%Z)
                    ++ [out_slice (forward (model_state w) x)])
         else outs !! 0%Z)
    ∧ ∀ c, c ≠ 0%Z → outs' !! c = outs !! c).
Proof.
  unfold record_unpatched.
  destruct (decide (0%Z ∈ test_edge_counts)).
  - apply wp_bind. unfold wp at 1. cbn [model_call]. apply wp_ret.
    cbn [model_state events].
    split_and!; try done.
    + by rewrite append_out_lookup, decide_True.
    + intros c Hc. by rewrite append_out_lookup, decide_False.
  - apply wp_ret. by rewrite app_nil_r.
Qed.

Lemma patch_baseline_wp experiment_type batch w :
  valid_patch experiment_type →
  wp (patch_baseline experiment_type batch) w (λ patch_outs w',
    model_state w' = model_state w
    ∧ (∃ p, events w' = events w ++ [EvSrcOuts p]
         ∧ ∀ k, k ∈ (sorted_src_outs (model_state w) p).*1 →
                k ∈ patch_outs.*1)).
Proof.
  unfold patch_baseline. intros [-> | [-> | ->]].
  - unfold wp. cbn [get_sorted_src_outs model_state events].
    split; [done|]. by eexists.
  - unfold wp. cbn [get_sorted_src_outs model_state events].
    split; [done|]. by eexists.
  - rewrite decide_True by done. apply wp_bind, wp_ret, wp_bind.
    unfold wp at 1. cbn [get_sorted_src_outs]. apply wp_ret.
    cbn [model_state events]. split; [done|]. eexists. split; [done|].
    intros k Hk. apply dict_of_items_keys.
    rewrite <- list_fmap_compose.
    by replace (fst ∘ (λ p : Node * Tensor, (p.1, zeros_like p.2)))
      with (fst : Node * Tensor → Node) by done.
Qed.

Lemma run_batch_wp experiment_type test_edge_counts
    (prune_scores : list (Edge * Score)) render_graph r batch outs w :
  valid_input experiment_type → valid_patch experiment_type →
  labels_available render_graph (prune_scores.*1) →
  wp (run_batch experiment_type test_edge_counts prune_scores render_graph r
        batch outs) w (λ outs' w',
    patching (model_state w') = None
    ∧ outs' !! 0%Z
      = (if decide (0%Z ∈ test_edge_counts)
         then Some (default [] (outs !! 0%Z)
                    ++ [out_slice
                          (forward (model_state w)
                             (chosen_input experiment_type batch))])
         else outs !! 0%Z)
    ∧ (∀ c, c ≠ 0%Z →
         ¬ ((0 < c ≤ Z.of_nat (length prune_scores))%Z
            ∧ c ∈ test_edge_counts) →
         outs' !! c = outs !! c)
    ∧ ∃ seg, events w' = events w ++ seg
        ∧ batch_segment test_edge_counts (prune_scores.*1)
            (chosen_input experiment_type batch) seg).
Proof.
  intros Hvi Hvp Hlab. unfold run_batch.
  apply wp_bind. eapply wp_mono; [by apply select_input_wp|].
  intros x w1 [-> ->].
  apply wp_bind. eapply wp_mono; [by apply record_unpatched_wp|].
  intros outs1 w1 (Hst1 & Hev1 & Ho1 & Hoc1).
  apply wp_bind. eapply wp_mono; [by apply patch_baseline_wp|].
  intros patch_outs w2 (Hst2 & p & Hev2 & Hkeys).
  unfold with_patch_mode.
  apply wp_bind. unfold wp at 1. cbn [patch_enter].
  apply wp_bind, wp_bind. eapply wp_mono; [apply edge_loop_wp|].
  intros outs2 w3 (Hp3 & Hm3 & Ho3 & body & Hev3 & Hw3 & Hb3).
  cbn [model_state events patching patch_mask] in *.
  apply wp_bind.
  assert (∀ c, ¬ ((0 < c ≤ Z.of_nat (length prune_scores))%Z
                  ∧ c ∈ test_edge_counts) → outs2 !! c = outs1 !! c) as Ho3'.
  { intros c Hc. apply Ho3. rewrite length_fmap. simpl. exact Hc. }
  assert (outs2 !! 0%Z
          = (if decide (0%Z ∈ test_edge_counts)
             then Some (default [] (outs !! 0%Z)
                        ++ [out_slice
                              (forward (model_state w)
                                 (chosen_input experiment_type batch))])
             else outs !! 0%Z)) as Hzero.
  { rewrite Ho3', Ho1; [done|lia]. }
  assert (∀ c, c ≠ 0%Z →
            ¬ ((0 < c ≤ Z.of_nat (length prune_scores))%Z
               ∧ c ∈ test_edge_counts) → outs2 !! c = outs !! c) as Hrest.
  { intros c Hc0 Hc. by rewrite Ho3', Hoc1. }
  destruct render_graph.
  - apply wp_bind. eapply wp_mono.
    + apply edge_labels_wp. intros e He. apply Hkeys. by apply Hlab.
    + intros labels w4 ->. unfold wp at 1. cbn [draw_seq_graph].
      apply wp_ret, wp_bind. unfold wp at 1. cbn [patch_exit].
      apply wp_ret. cbn [model_state events patching].
      split_and!; try done.
      eexists. rewrite Hev3. cbn [events]. rewrite Hev2, Hev1.
      rewrite <- !app_assoc. split; [reflexivity|].
      eexists p, _, _, body, [EvDraw (chosen_input experiment_type batch) r].
      split_and!; try done. right. by eexists.
  - apply wp_ret, wp_ret, wp_bind. unfold wp at 1. cbn [patch_exit].
    apply wp_ret. cbn [model_state events patching].
    split_and!; try done.
    eexists. rewrite Hev3. cbn [events]. rewrite Hev2, Hev1.
    rewrite <- !app_assoc. split; [reflexivity|].
    eexists p, _, _, body, []. split_and!; try done. by left.
Qed.

Lemma unpatched_outs_plain experiment_type st data_loader :
  patching st = None →
  unpatched_outs experiment_type st data_loader
  = (λ b, out_slice (forward_plain (chosen_input experiment_type b)))
      <$> data_loader.
Proof.
  intros Hp. destruct data_loader as [|b rest]; [done|]. simpl.
  by rewrite (forward_unpatched _ _ Hp).
Qed.

Lemma batch_loop_wp experiment_type test_edge_counts
    (prune_scores : list (Edge * Score)) render_graph r data_loader outs w :
  valid_input experiment_type → valid_patch experiment_type →
  labels_available render_graph (prune_scores.*1) →
  wp (batch_loop experiment_type test_edge_counts prune_scores render_graph r
        data_loader outs) w (λ outs' w',
    match data_loader with
    | [] => model_state w' = model_state w
    | _ => patching (model_state w') = None
    end
    ∧ (0%Z ∈ test_edge_counts →
         outs' !! 0%Z
         = match data_loader with
           | [] => outs !! 0%Z
           | _ => Some (default [] (outs !! 0%Z)
                        ++ unpatched_outs experiment_type (model_state w)
                             data_loader)
           end)
    ∧ (∀ c, ¬ ((0 ≤ c ≤ Z.of_nat (length prune_scores))%Z
               ∧ c ∈ test_edge_counts) →
         outs' !! c = outs !! c)
    ∧ ∃ segs, events w' = events w ++ mjoin segs
        ∧ Forall2
            (λ batch seg,
               batch_segment test_edge_counts (prune_scores.*1)
                 (chosen_input experiment_type batch) seg)
            data_loader segs).
Proof.
  intros Hvi Hvp Hlab. revert outs w.
  induction data_loader as [|batch rest IH]; intros outs w.
  - apply wp_ret. split_and!; try done.
    exists []. simpl. by rewrite app_nil_r.
  - cbn [batch_loop]. apply wp_bind.
    eapply wp_mono; [by apply run_batch_wp|].
    intros outs1 w1 (Hp1 & Hz1 & Hc1 & seg & Hev1 & Hseg).
    eapply wp_mono; [apply IH|].
    intros outs2 w2 (Hp2 & Hz2 & Hc2 & segs & Hev2 & Hsegs).
    split_and!.
    + destruct rest; [by rewrite Hp2 | done].
    + intros Hin. rewrite decide_True in Hz1 by done.
      rewrite (Hz2 Hin). destruct rest as [|b' rest']; [by rewrite Hz1|].
      rewrite Hz1. cbn [default unpatched_outs fmap list_fmap].
      unfold id. rewrite <- app_assoc, (forward_unpatched _ _ Hp1).
      reflexivity.
    + intros c Hc. rewrite Hc2 by done.
      destruct (decide (c = 0%Z)) as [->|Hc0].
      * rewrite Hz1. rewrite decide_False; [done|]. intros Hin. apply Hc.
        split; [lia|done].
      * apply Hc1; [done|]. intros [Hr Hin]. apply Hc. split; [lia|done].
    + exists (seg :: segs). cbn [mjoin list_join].
      rewrite Hev2, Hev1, <- app_assoc. split; [done|]. by constructor.
Qed.

Lemma Run_bind_congr {A B} (m1 m2 : Run A) (k1 k2 : A → Run B) w :
  m1 w = m2 w → (∀ a w', k1 a w' = k2 a w') →
  (m1 ≫= k1) w = (m2 ≫= k2) w.
Proof.
  intros Hm Hk. unfold mbind, Run_bind. rewrite Hm.
  destruct (m2 w) as [e|[a w']]; [done|]. apply Hk.
Qed.

(** Two lists of checkpoints that agree on the counts [0 .. n] give the
    same run when there are at most [n] edges. *)
Lemma edge_loop_counts_ext c1 c2 x edges k outs w :
  (∀ n, (Z.of_nat k < n ≤ Z.of_nat (k + length edges))%Z →
        n ∈ c1 ↔ n ∈ c2) →
  edge_loop c1 x edges k outs w = edge_loop c2 x edges k outs w.
Proof.
  revert k outs w. induction edges as [|e edges IH]; intros k outs w Hc;
    [done|].
  cbn [edge_loop]. apply Run_bind_congr; [done|]. intros _ w1.
  apply Run_bind_congr.
  - assert ((Z.of_nat k + 1)%Z ∈ c1 ↔ (Z.of_nat k + 1)%Z ∈ c2) as Hk.
    { apply Hc. cbn [length]. lia. }
    destruct (decide ((Z.of_nat k + 1)%Z ∈ c1)),
      (decide ((Z.of_nat k + 1)%Z ∈ c2)); naive_solver.
  - intros outs1 w2. apply IH. intros n Hn. apply Hc. cbn [length]. lia.
Qed.

Lemma run_batch_counts_ext c1 c2 experiment_type
    (prune_scores : list (Edge * Score)) render_graph r batch outs w :
  (∀ n, (0 ≤ n ≤ Z.of_nat (length prune_scores))%Z → n ∈ c1 ↔ n ∈ c2) →
  run_batch experiment_type c1 prune_scores render_graph r batch outs w
  = run_batch experiment_type c2 prune_scores render_graph r batch outs w.
Proof.
  intros Hc. unfold run_batch.
  apply Run_bind_congr; [done|]. intros x w1.
  apply Run_bind_congr.
  - unfold record_unpatched.
    assert (0%Z ∈ c1 ↔ 0%Z ∈ c2) as Hz by (apply Hc; lia).
    destruct (decide (0%Z ∈ c1)), (decide (0%Z ∈ c2)); naive_solver.
  - intros outs1 w2. apply Run_bind_congr; [done|]. intros patch_outs w3.
    unfold with_patch_mode. apply Run_bind_congr; [done|]. intros _ w4.
    apply Run_bind_congr; [|done].
    apply Run_bind_congr; [|done].
    apply edge_loop_counts_ext. intros n Hn. apply Hc.
    rewrite length_fmap in Hn. lia.
Qed.

Lemma batch_loop_counts_ext c1 c2 experiment_type
    (prune_scores : list (Edge * Score)) render_graph r data_loader outs w :
  (∀ n, (0 ≤ n ≤ Z.of_nat (length prune_scores))%Z → n ∈ c1 ↔ n ∈ c2) →
  batch_loop experiment_type c1 prune_scores render_graph r data_loader outs w
  = batch_loop experiment_type c2 prune_scores render_graph r data_loader
      outs w.
Proof.
  intros Hc. revert outs w.
  induction data_loader as [|batch rest IH]; intros outs w; [done|].
  cbn [batch_loop]. apply Run_bind_congr.
  - by apply run_batch_counts_ext.
  - intros outs1 w1. apply IH.
Qed.

(** Whenever a batch is processed to its end, only keys that are requested
    counts between 0 and the number of edges were touched. *)
Lemma run_batch_keys experiment_type test_edge_counts
    (prune_scores : list (Edge * Score)) render_graph r batch outs w :
  wlp (run_batch experiment_type test_edge_counts prune_scores render_graph r
         batch outs) w (λ outs' _,
    ∀ c, ¬ ((0 ≤ c ≤ Z.of_nat (length prune_scores))%Z
            ∧ c ∈ test_edge_counts) →
      outs' !! c = outs !! c).
Proof.
  unfold run_batch. apply wlp_bind_any. intros x w1.
  apply wlp_bind. eapply wlp_mono; [apply wp_wlp, record_unpatched_wp|].
  intros outs1 w2 (_ & _ & Hz & Hnz).
  apply wlp_bind_any. intros patch_outs w3. unfold with_patch_mode.
  apply wlp_bind_any. intros _ w4. apply wlp_bind, wlp_bind.
  eapply wlp_mono; [apply wp_wlp, edge_loop_wp|].
  intros outs2 w5 (_ & _ & Ho & _).
  apply wlp_bind_any. intros _ w6. unfold wlp at 1. cbn [mret Run_ret].
  apply wlp_bind_any. intros _ w7. unfold wlp. cbn [mret Run_ret].
  intros c Hc. rewrite Ho.
  - destruct (decide (c = 0%Z)) as [->|Hc0]; [|by apply Hnz].
    rewrite Hz, decide_False; [done|]. intros Hin. apply Hc. split; [lia|done].
  - intros [Hr Hin]. apply Hc. split; [|done].
    rewrite length_fmap in Hr. lia.
Qed.

Lemma batch_loop_keys experiment_type test_edge_counts
    (prune_scores : list (Edge * Score)) render_graph r data_loader outs w :
  wlp (batch_loop experiment_type test_edge_counts prune_scores render_graph
         r data_loader outs) w (λ outs' _,
    ∀ c, ¬ ((0 ≤ c ≤ Z.of_nat (length prune_scores))%Z
            ∧ c ∈ test_edge_counts) →
      outs' !! c = outs !! c).
Proof.
  revert outs w. induction data_loader as [|batch rest IH]; intros outs w;
    [done|].
  cbn [batch_loop]. apply wlp_bind.
  eapply wlp_mono; [apply run_batch_keys|]. intros outs1 w1 Hk1.
  eapply wlp_mono; [apply IH|]. intros outs2 w2 Hk2 c Hc.
  by rewrite Hk2, Hk1.
Qed.

Lemma edge_order_length (prune_scores : list (Edge * Score)) :
  length (dict_of_items (sorted_desc prune_scores)) ≤ length prune_scores.
Proof.
  etrans; [apply dict_of_items_length|]. by rewrite sorted_desc_length.
Qed.

Lemma edge_order_elem (prune_scores : list (Edge * Score)) e :
  e ∈ edge_order prune_scores → e ∈ prune_scores.*1.
Proof.
  unfold edge_order. rewrite dict_of_items_keys.
  by rewrite (sorted_desc_perm prune_scores).
Qed.

Lemma labels_available_order render_graph (prune_scores : list (Edge * Score)) :
  labels_available render_graph (prune_scores.*1) →
  labels_available render_graph (edge_order prune_scores).
Proof.
  intros Hl Hr st x e He. apply (Hl Hr). by apply edge_order_elem.
Qed.

Lemma run_pruned_wp data_loader experiment_type test_edge_counts
    (prune_scores : list (Edge * Score)) render_graph r w :
  valid_input experiment_type → valid_patch experiment_type →
  labels_available render_graph (prune_scores.*1) →
  wp (run_pruned data_loader experiment_type test_edge_counts prune_scores
        render_graph r) w (λ outs w',
    match data_loader with
    | [] => model_state w' = model_state w
    | _ => patching (model_state w') = None
    end
    ∧ (0%Z ∈ test_edge_counts →
         outs !! 0%Z
         = match data_loader with
           | [] => None
           | _ => Some (unpatched_outs experiment_type (model_state w)
                          data_loader)
           end)
    ∧ (∀ c, ¬ ((0 ≤ c ≤ Z.of_nat (length prune_scores))%Z
               ∧ c ∈ test_edge_counts) →
         outs !! c = None)
    ∧ ∃ segs, events w' = events w ++ mjoin segs
        ∧ Forall2
            (λ batch seg,
               batch_segment test_edge_counts (edge_order prune_scores)
                 (chosen_input experiment_type batch) seg)
            data_loader segs).
Proof.
  intros Hvi Hvp Hlab. unfold run_pruned. cbn zeta.
  eapply wp_mono.
  - apply batch_loop_wp; [done|done|]. by apply labels_available_order.
  - intros outs w' (Hp & Hz & Hc & Hsegs).
    split; [exact Hp|]. split; [|split; [|exact Hsegs]].
    + intros Hin. rewrite (Hz Hin). destruct data_loader; [done|].
      by rewrite lookup_empty.
    + intros c Hcc. rewrite Hc; [done|]. intros [Hr Hin]. apply Hcc.
      split; [|done]. pose proof (edge_order_length prune_scores). lia.
Qed.

Lemma batch_segment_mask_writes test_edge_counts edges x seg :
  batch_segment test_edge_counts edges x seg →
  mask_writes seg = (λ e, (e, 1%Z)) <$> edges.
Proof.
  intros (p & c & b & body & draw & -> & Hw & _ & Hd).
  rewrite !mask_writes_app, Hw.
  destruct (decide (0%Z ∈ test_edge_counts)), Hd as [->|[r' ->]]; simpl;
    by rewrite app_nil_r.
Qed.

Lemma batch_segment_start test_edge_counts edges x seg :
  0%Z ∈ test_edge_counts →
  batch_segment test_edge_counts edges x seg →
  ∃ p curr_src_outs patch_src_outs rest,
    seg = EvForward x :: EvSrcOuts p
          :: EvEnter curr_src_outs patch_src_outs true :: rest.
Proof.
  intros Hin (p & c & b & body & draw & -> & _).
  rewrite decide_True by done. by eexists _, _, _, _.
Qed.

(** C4.  With checkpoint 0 among the requested counts, supported input and
    patch types and a model that is not inside a patch context, the list
    recorded under key 0 has, batch by batch, the unmodified output of the
    model on the chosen batch input; and in the events of every batch this
    call comes first, before the baseline is computed and before the patch
    context is entered. *)
Theorem C4_checkpoint_zero (data_loader : list PromptPairBatch)
    (experiment_type : ExperimentType) (test_edge_counts : list Z)
    (prune_scores : list (Edge * Score)) (render_graph r : bool) (w : World) :
  0%Z ∈ test_edge_counts →
  valid_input experiment_type → valid_patch experiment_type →
  labels_available render_graph (prune_scores.*1) →
  patching (model_state w) = None →
  ∃ outs w' segs,
    run_pruned data_loader experiment_type test_edge_counts prune_scores
      render_graph r w = inr (outs, w')
    ∧ default [] (outs !! 0%Z)
      = (λ batch,
           out_slice (forward_plain (chosen_input experiment_type batch)))
          <$> data_loader
    ∧ (data_loader ≠ [] → is_Some (outs !! 0%Z))
    ∧ events w' = events w ++ mjoin segs
    ∧ Forall2
        (λ batch seg,
           ∃ p curr_src_outs patch_src_outs rest,
             seg = EvForward (chosen_input experiment_type batch)
                   :: EvSrcOuts p
                   :: EvEnter curr_src_outs patch_src_outs true :: rest)
        data_loader segs.
Proof.
  intros Hin Hvi Hvp Hlab Hp.
  destruct (wp_elim _ _ _
              (run_pruned_wp data_loader experiment_type test_edge_counts
                 prune_scores render_graph r w Hvi Hvp Hlab))
    as (outs & w' & Hrun & _ & Hz & _ & segs & Hev & Hsegs).
  exists outs, w', segs. split_and!; try done.
  - rewrite (Hz Hin), <- (unpatched_outs_plain _ _ _ Hp).
    by destruct data_loader.
  - intros Hne. rewrite (Hz Hin). by destruct data_loader.
  - eapply Forall2_impl; [exact Hsegs|]. intros batch seg Hseg.
    exact (batch_segment_start _ _ _ _ Hin Hseg).
Qed.

(** C8.  A requested checkpoint larger than the number of edges changes
    nothing: the run is the run without it in the list; and when the run
    returns, which it does for supported input and patch types, the result
    has no entry for it. *)
Theorem C8_oversized_checkpoint (data_loader : list PromptPairBatch)
    (experiment_type : ExperimentType) (test_edge_counts : list Z)
    (prune_scores : list (Edge * Score)) (render_graph r : bool) (w : World)
    (c : Z) :
  (Z.of_nat (length prune_scores) < c)%Z →
  run_pruned data_loader experiment_type test_edge_counts prune_scores
    render_graph r w
  = run_pruned data_loader experiment_type
      (filter (λ n, n ≠ c) test_edge_counts) prune_scores render_graph r w
  ∧ (∀ outs w',
       run_pruned data_loader experiment_type test_edge_counts prune_scores
         render_graph r w = inr (outs, w') →
       outs !! c = None)
  ∧ (valid_input experiment_type → valid_patch experiment_type →
     labels_available render_graph (prune_scores.*1) →
     ∃ outs w',
       run_pruned data_loader experiment_type test_edge_counts prune_scores
         render_graph r w = inr (outs, w')).
Proof.
  intros Hc. split_and!.
  - unfold run_pruned. cbn zeta. apply batch_loop_counts_ext.
    intros n Hn. rewrite list_elem_of_filter.
    pose proof (edge_order_length prune_scores). split; [|naive_solver].
    intros Hin. split; [lia|done].
  - intros outs w' Hrun. unfold run_pruned in Hrun. cbn zeta in Hrun.
    rewrite (wlp_elim _ _ _ _ _ (batch_loop_keys _ _ _ _ _ _ _ _) Hrun c);
      [apply lookup_empty|].
    intros [Hr _]. pose proof (edge_order_length prune_scores). lia.
  - intros Hvi Hvp Hlab.
    destruct (wp_elim _ _ _
                (run_pruned_wp data_loader experiment_type test_edge_counts
                   prune_scores render_graph r w Hvi Hvp Hlab))
      as (outs & w' & Hrun & _).
    by exists outs, w'.
Qed.

Lemma valid_input_dec experiment_type :
  valid_input experiment_type ∨ ¬ valid_input experiment_type.
Proof.
  unfold valid_input. destruct (input_type experiment_type);
    first [by left; left | by left; right | right; by intros [|]].
Qed.

(** C9, amended.  When the data loader yields at least one batch, an input
    type other than clean and corrupt makes [run_pruned] raise
    [NotImplementedError], and with a supported input type a patch type
    other than clean, corrupt and zero makes it raise [AssertionError]: with
    either one the call ends in an exception, which is all the caller
    gets. *)
Theorem C9_unsupported_types (batch : PromptPairBatch)
    (rest : list PromptPairBatch) (experiment_type : ExperimentType)
    (test_edge_counts : list Z) (prune_scores : list (Edge * Score))
    (render_graph r : bool) (w : World) :
  (¬ valid_input experiment_type →
     run_pruned (batch :: rest) experiment_type test_edge_counts prune_scores
       render_graph r w = inl NotImplementedError)
  ∧ (valid_input experiment_type → ¬ valid_patch experiment_type →
       run_pruned (batch :: rest) experiment_type test_edge_counts
         prune_scores render_graph r w = inl AssertionError)
  ∧ (¬ valid_input experiment_type ∨ ¬ valid_patch experiment_type →
       ∃ e, run_pruned (batch :: rest) experiment_type test_edge_counts
              prune_scores render_graph r w = inl e).
Proof.
  assert (¬ valid_input experiment_type →
          run_pruned (batch :: rest) experiment_type test_edge_counts
            prune_scores render_graph r w = inl NotImplementedError) as Hinput.
  { unfold valid_input, run_pruned. cbn zeta. cbn [batch_loop].
    unfold run_batch, select_input.
    destruct experiment_type as [it pt]. cbn [input_type patch_type].
    intros Hi. destruct it; try done; exfalso; apply Hi; auto. }
  assert (valid_input experiment_type → ¬ valid_patch experiment_type →
          run_pruned (batch :: rest) experiment_type test_edge_counts
            prune_scores render_graph r w = inl AssertionError) as Hpatch.
  { unfold valid_input, valid_patch, run_pruned. cbn zeta. cbn [batch_loop].
    unfold run_batch, select_input, patch_baseline, record_unpatched.
    destruct experiment_type as [it pt]. cbn [input_type patch_type].
    intros Hi Hp.
    destruct pt as [| | |tag]; try (exfalso; apply Hp; by auto).
    destruct Hi as [-> | ->];
      destruct (decide (0%Z ∈ test_edge_counts)); reflexivity. }
  split; [exact Hinput|]. split; [exact Hpatch|].
  intros Hbad. destruct (valid_input_dec experiment_type) as [Hi|Hi].
  - destruct Hbad as [Hni|Hnp]; [done|]. eexists. by apply Hpatch.
  - eexists. by apply Hinput.
Qed.

End RunPrunedFacts.

(** ** The wrapper, [autoencoder_model] and the latent pruning *)

(** C10.  Built from a [PatchableModel], the wrapper stores the model inside
    it, and every delegated operation is the operation of that inner model;
    built from any other model, it stores the model as given. *)
Theorem C10_constructor_unwraps `{TransformerOps}
    (saes : list SparseAutoencoder) (args : Args) :
  (∀ inner,
     let self := AT.__init__ (PatchableModel inner) saes in
     wrapped_model self = inner
     ∧ AT.forward self args = call inner args
     ∧ AT.run_with_cache self args = ht_run_with_cache inner args
     ∧ AT.add_hook self args = ht_add_hook inner args
     ∧ AT.cfg self = cfg inner
     ∧ AT.blocks self = blocks inner
     ∧ AT.tokenizer self = ht_tokenizer inner
     ∧ AT.input_to_embed self = ht_input_to_embed inner
     ∧ AT.to_tokens self args = ht_to_tokens inner args
     ∧ AT.to_str_tokens self args = ht_to_str_tokens inner args
     ∧ AT.to_string self args = ht_to_string inner args
     ∧ AT.__str__ self = ht_str inner
     ∧ AT.__repr__ self = ht_repr inner)
  ∧ (∀ m, wrapped_model (AT.__init__ (Plain m) saes) = m)
  ∧ (∀ m, sparse_autoencoders (AT.__init__ m saes) = saes).
Proof.
  split_and!.
  - intros inner. cbn zeta. by split_and!.
  - done.
  - by intros [].
Qed.

(** C7 fails on the code for ["mlp_post_act"]: line 152 passes the string
    [sae_input] to [setattr], not the autoencoder that line 151 loaded.
    [hook_post] holds a registered submodule, so the assignment is refused:
    the call raises [TypeError] in the first layer, no autoencoder is
    installed and no wrapper is returned.  For ["resid_delta_mlp"] line 157
    passes the autoencoder, and it is installed. *)
Theorem C7_mlp_post_act_raises `{Loader} :
  let loaded sae_input hook_point :=
    load_autoencoder hook_point one_layer_model 0 sae_input None in
  (∀ model blk pythia_size new_instance,
     0 < n_layers (cfg model) →
     blocks model !! 0 = Some blk →
     is_module (hook_post (mlp blk)) = true →
     autoencoder_model model "mlp_post_act" pythia_size new_instance
     = inl TypeError)
  ∧ autoencoder_model one_layer_model "mlp_post_act" None true
    = inl TypeError
  ∧ autoencoder_model one_layer_model "resid_delta_mlp" None true
    = inr (mkAT
             (mkHT (cfg one_layer_model)
                [mkBlock (mkMLP (HookPoint "blocks.0.mlp.hook_post"))
                   (Autoencoder
                      (loaded "resid_delta_mlp"
                         (HookPoint "blocks.0.hook_mlp_out")))])
             [loaded "resid_delta_mlp" (HookPoint "blocks.0.hook_mlp_out")]).
Proof.
  cbn zeta. split; [|split; reflexivity].
  intros model blk pythia_size new_instance Hpos Hblk Hmod.
  unfold autoencoder_model, range.
  destruct (n_layers (cfg model)) as [|n]; [lia|].
  cbn [seq autoencoder_loop]. rewrite decide_True by done.
  rewrite Hblk. cbn zeta. unfold module_setattr. rewrite Hmod. reflexivity.
Qed.

(** C3 fails on the code: line 71 assigns the parameter [max_latents], so
    the cap that defaulted to the first autoencoder's activated count is the
    cap of the ones after it.  Here the second autoencoder has two activated
    latents and keeps one. *)
Theorem C3_cap_carried_over `{SaeOps} (model : HookedTransformer) :
  ∃ log,
    _prune_latents_with_dataset (mkAT model two_saes) None = inr log
    ∧ activated_latent_counts log = [ActInt 1; ActInt 2]
    ∧ latent_counts log = [1; 1]%Z.
Proof. eexists. split; [reflexivity|]. split; reflexivity. Qed.

(** ** The evaluator on a small instance *)

Lemma Z_ScoreOrder : @ScoreOrder Z_Score.
Proof.
  split; simpl.
  - intros x. apply Z.ltb_irrefl.
  - intros x y z Hxy Hyz. apply Z.ltb_lt. apply Z.ltb_lt in Hxy, Hyz. lia.
  - intros x y z Hxy Hyz. apply Z.ltb_ge. apply Z.ltb_ge in Hxy, Hyz. lia.
Qed.

Section Examples.
#[local] Existing Instances Z_Torch Z_Model Z_Score Z_ScoreOrder.

Lemma example_scores_NoDup : NoDup (example_scores.*1).
Proof. apply (bool_decide_unpack (NoDup (example_scores.*1))). by vm_compute. Defined.

Lemma example_labels render_graph :
  labels_available render_graph (example_scores.*1).
Proof.
  intros _ st x e He. simpl in *.
  repeat (apply elem_of_cons in He as [->|He];
          [simpl; repeat first [apply list_elem_of_here
                               | apply list_elem_of_further]|]).
  by apply elem_of_nil in He.
Defined.

(** C4 on two batches with corrupt inputs 2 and 4. *)
Lemma C4_checkpoint_zero_witness :
  ∃ outs w',
    run_pruned example_loader (mkExperimentType CORRUPT CLEAN) [0; 2]%Z
      example_scores false false example_world = inr (outs, w')
    ∧ default [] (outs !! 0%Z) = [20; 40]%Z.
Proof.
  destruct (C4_checkpoint_zero example_loader (mkExperimentType CORRUPT CLEAN)
              [0; 2]%Z example_scores false false example_world
              (list_elem_of_here _ _) (or_intror eq_refl) (or_introl eq_refl)
              (example_labels false) eq_refl)
    as (outs & w' & segs & Hrun & Hz & _).
  exists outs, w'. split; [exact Hrun | exact Hz].
Defined.

(** C8 with checkpoint 7 and three edges. *)
Lemma C8_oversized_checkpoint_witness :
  ∃ outs w',
    run_pruned example_loader (mkExperimentType CLEAN CLEAN) [0; 2; 7]%Z
      example_scores false false example_world = inr (outs, w')
    ∧ outs !! 7%Z = None.
Proof.
  destruct (C8_oversized_checkpoint example_loader
              (mkExperimentType CLEAN CLEAN) [0; 2; 7]%Z example_scores
              false false example_world 7%Z ltac:(simpl; lia))
    as (_ & Hnone & Hok).
  destruct (Hok (or_introl eq_refl) (or_introl eq_refl) (example_labels false))
    as (outs & w' & Hrun).
  exists outs, w'. split; [exact Hrun | exact (Hnone _ _ Hrun)].
Defined.

(** C9 as stated fails for a data loader without batches: the loop body,
    which holds both checks, is never entered, and the empty mapping is
    returned. *)
Lemma C9_counterexample :
  run_pruned [] (mkExperimentType ZERO (OTHER 0)) [0; 2]%Z example_scores
    false false example_world
  = inr (∅, example_world).
Proof. reflexivity. Qed.

(** C9, amended, on two batches. *)
Lemma C9_unsupported_types_witness :
  run_pruned example_loader (mkExperimentType ZERO CLEAN) [0; 2]%Z
    example_scores false false example_world = inl NotImplementedError
  ∧ run_pruned example_loader (mkExperimentType CLEAN (OTHER 0)) [0; 2]%Z
      example_scores false false example_world = inl AssertionError.
Proof.
  split.
  - apply (C9_unsupported_types (@mkBatch Z_Torch 1%Z 2%Z)
             [@mkBatch Z_Torch 3%Z 4%Z] (mkExperimentType ZERO CLEAN)).
    intros [Hv|Hv]; discriminate Hv.
  - apply (C9_unsupported_types (@mkBatch Z_Torch 1%Z 2%Z)
             [@mkBatch Z_Torch 3%Z 4%Z] (mkExperimentType CLEAN (OTHER 0))).
    + by left.
    + intros [Hv|[Hv|Hv]]; discriminate Hv.
Defined.

End Examples.

(** ** Node enumeration: every node in closed form *)

Lemma src_groups_lookup parallel heads latents b0 L i k n :
  latents !! k = Some n →
  src_groups parallel heads latents b0 L i !! k
  = Some (src_block_nodes parallel heads (b0 + k) (L + k * step parallel)
            (i + k * heads + sum_list (take k latents)) n).
Proof.
  revert b0 L i k. induction latents as [|n0 latents IH]; intros b0 L i k Hk;
    [done|].
  destruct k as [|k]; simpl in Hk.
  - injection Hk as ->. cbn [src_groups lookup list_lookup take sum_list
      sum_list_with]. by rewrite !Nat.mul_0_l, !Nat.add_0_r.
  - cbn [src_groups]. change ((?x :: ?l) !! S k) with (l !! k).
    rewrite (IH _ _ _ _ Hk), S_mlp_layer. cbn [take sum_list sum_list_with].
    f_equal. f_equal; unfold id; lia.
Qed.

Lemma dest_groups_lookup parallel heads n b0 L i k :
  k < n →
  dest_groups parallel heads n b0 L i !! k
  = Some (dest_block_nodes parallel heads (b0 + k) (L + k * step parallel)
            (i + k * (heads + 1))).
Proof.
  revert b0 L i k. induction n as [|n IH]; intros b0 L i k Hk; [lia|].
  destruct k as [|k].
  - cbn [dest_groups lookup list_lookup].
    by rewrite !Nat.mul_0_l, !Nat.add_0_r.
  - cbn [dest_groups]. change ((?x :: ?l) !! S k) with (l !! k).
    rewrite IH, S_mlp_layer by lia. f_equal. f_equal; lia.
Qed.

(** X1.  For any latent counts per block, the source enumeration is the
    start node at layer 0 and index 0 followed, block by block, by the
    attention nodes and the latent nodes of the block: block [b] starts at
    index [1 + b * n_heads + (latents of the blocks before)] and at layer
    [1 + b * step]; the set has [1 + n_layers * n_heads + (all latents)]
    elements, and the index of a node is its position in the enumeration. *)
Theorem X1_src_closed_form (model : AutoencoderTransformer)
    (latents : list nat) :
  src_flags (AT.cfg model) = true →
  has_latents model latents →
  length latents = n_layers (AT.cfg model) →
  ∃ srcs src_order groups,
    factorized_src_nodes model = inr srcs
    ∧ src_enumeration model = inr src_order
    ∧ srcs = list_to_set src_order
    ∧ src_order = resid_start 0 0 :: flatten groups
    ∧ length groups = n_layers (AT.cfg model)
    ∧ (∀ b n, latents !! b = Some n →
         let L := 1 + b * step (parallel_attn_mlp (AT.cfg model)) in
         let i := 1 + b * n_heads (AT.cfg model)
                  + sum_list (take b latents) in
         groups !! b
         = Some ((λ h, src_attn_node b h L (i + h))
                   <$> seq 0 (n_heads (AT.cfg model)),
                 (λ k, src_latent_node b k
                         (mlp_layer (parallel_attn_mlp (AT.cfg model)) L)
                         (i + n_heads (AT.cfg model) + k))
                   <$> seq 0 n))
    ∧ size srcs
      = 1 + n_layers (AT.cfg model) * n_heads (AT.cfg model)
        + sum_list latents
    ∧ (∀ p n, src_order !! p = Some n → idx n = p).
Proof.
  intros Hf Hl Hn.
  pose proof (src_run_eq model _ Hf Hl Hn) as Es.
  set (h := n_heads (AT.cfg model)) in *.
  set (par := parallel_attn_mlp (AT.cfg model)) in *.
  pose proof (src_order_idx par h latents) as Is.
  destruct (nodes_of_order_size _ _ Is) as [Ss Ls].
  eexists _, _, (src_groups par h latents 0 1 1).
  unfold factorized_src_nodes, src_enumeration. rewrite Es.
  cbn [fmap Result_fmap grow nodes order app].
  split_and!; try reflexivity.
  - exact Ls.
  - by rewrite src_groups_length.
  - intros b n Hb. cbn zeta. rewrite (src_groups_lookup _ _ _ _ _ _ _ _ Hb).
    reflexivity.
  - rewrite Ss, Hn. lia.
  - intros p n Hp.
    assert ((idx <$> (resid_start 0 0 :: flatten (src_groups par h latents 0 1 1)))
            !! p = Some (idx n)) as Hi.
    { by rewrite list_lookup_fmap, Hp. }
    rewrite Is in Hi. apply lookup_seq in Hi. lia.
Qed.

(** X2.  The destination enumeration reads the configuration only.  With the
    three flags set it is, block by block, the attention inputs
    [A{b}.{h}] at layer [1 + b * step] and index [b * (n_heads + 1) + h]
    and the MLP input of the block, followed by the end node at layer
    [1 + n_layers * step] and index [n_layers * (n_heads + 1)]; the set has
    [n_layers * (n_heads + 1) + 1] elements, whatever the blocks and
    [use_split_qkv_input] are. *)
Theorem X2_dest_closed_form (model : AutoencoderTransformer) :
  dest_flags (AT.cfg model) = true →
  let n := n_layers (AT.cfg model) in
  let heads := n_heads (AT.cfg model) in
  let parallel := parallel_attn_mlp (AT.cfg model) in
  ∃ dests dest_order groups,
    factorized_dest_nodes model = inr dests
    ∧ dest_enumeration model = inr dest_order
    ∧ dests = list_to_set dest_order
    ∧ dest_order
      = flatten groups
        ++ [resid_end n (1 + n * step parallel) (n * (heads + 1))]
    ∧ length groups = n
    ∧ (∀ b, b < n →
         let L := 1 + b * step parallel in
         let i := b * (heads + 1) in
         groups !! b
         = Some ((λ h, dest_attn_node b h L (i + h)) <$> seq 0 heads,
                 [dest_mlp_node b (mlp_layer parallel L) (i + heads)]))
    ∧ size dests = n * (heads + 1) + 1
    ∧ (∀ p d, dest_order !! p = Some d → idx d = p).
Proof.
  intros Hf n heads parallel.
  pose proof (dest_run_eq model Hf) as Ed. fold n heads parallel in Ed.
  rewrite dest_groups_count in Ed.
  pose proof (dest_order_idx parallel heads n (1 + n * step parallel)) as Id.
  rewrite dest_groups_count in Id.
  destruct (nodes_of_order_size _ _ Id) as [Sd Ld].
  eexists _, _, (dest_groups parallel heads n 0 1 0).
  unfold factorized_dest_nodes, dest_enumeration. rewrite Ed.
  cbn [fmap Result_fmap grow nodes order app].
  split_and!; try reflexivity.
  - exact Ld.
  - by rewrite dest_groups_length.
  - intros b Hb. cbn zeta. rewrite dest_groups_lookup by done.
    reflexivity.
  - exact Sd.
  - intros p d Hp.
    assert ((idx <$> (flatten (dest_groups parallel heads n 0 1 0)
                      ++ [resid_end n (1 + n * step parallel)
                            (n * (heads + 1))])) !! p = Some (idx d)) as Hi.
    { by rewrite list_lookup_fmap, Hp. }
    rewrite Id in Hi. apply lookup_seq in Hi. lia.
Qed.

Lemma for_each_app {A} (l1 l2 : list A) (body : A → Build unit) s :
  for_each (l1 ++ l2) body s
  = match for_each l1 body s with
    | inl e => inl e
    | inr (_, s') => for_each l2 body s'
    end.
Proof.
  revert s. induction l1 as [|x l1 IH]; intros s; [done|].
  cbn [app for_each]. rewrite !bind_eq.
  destruct (body x s) as [e|[[] s1]]; [done|]. apply IH.
Qed.

Lemma src_block_fails model b s e :
  (∀ s', block_n_latents model b s' = inl e) →
  src_block model b s = inl e.
Proof.
  intros He. unfold src_block, range.
  rewrite (bind_ok _ _ _ _ _ (next_layers_eq s)).
  rewrite (bind_ok _ _ _ _ _ (for_each_fresh _ 0 _ _)).
  destruct (parallel_attn_mlp (AT.cfg model)).
  - rewrite (bind_ok (mret _) _ _ (layers s) _ eq_refl).
    by rewrite bind_eq, He.
  - rewrite (bind_ok _ _ _ _ _ (next_layers_eq _)).
    by rewrite bind_eq, He.
Qed.

Lemma src_run_fails model latents e :
  src_flags (AT.cfg model) = true →
  has_latents model latents →
  length latents < n_layers (AT.cfg model) →
  (∀ s, block_n_latents model (length latents) s = inl e) →
  src_run model = inl e.
Proof.
  unfold src_flags. intros Hf Hl Hk He. unfold src_run, src_body, range.
  repeat (apply andb_prop in Hf as [Hf ?]).
  rewrite Hf, H, H0, H1. cbn [py_assert].
  do 4 rewrite (bind_ok (mret tt) _ _ tt _ eq_refl).
  rewrite (bind_ok _ _ _ _ _ (fresh_layer_add_eq _ _)).
  replace (n_layers (AT.cfg model))
    with (length latents + S (n_layers (AT.cfg model) - S (length latents)))
    by lia.
  rewrite seq_app, for_each_app.
  rewrite (src_blocks_eq model latents latents 0 _ Hl) by done.
  cbn [seq for_each Nat.add]. rewrite bind_eq.
  by rewrite (src_block_fails _ _ _ e He).
Qed.

(** X3.  When the flags are set and the first [k] blocks hold autoencoders
    but the model has no block [k < n_layers], [factorized_src_nodes] raises
    [IndexError]; when block [k] is there and its [hook_mlp_out] is not an
    autoencoder (it has no [n_latents]), the call raises [AttributeError].
    No set is returned in either case. *)
Theorem X3_src_block_errors (model : AutoencoderTransformer)
    (latents : list nat) :
  src_flags (AT.cfg model) = true →
  has_latents model latents →
  length latents < n_layers (AT.cfg model) →
  (AT.blocks model !! length latents = None →
     factorized_src_nodes model = inl IndexError)
  ∧ (∀ blk, AT.blocks model !! length latents = Some blk →
       (∀ sae, hook_mlp_out blk ≠ Autoencoder sae) →
       factorized_src_nodes model = inl AttributeError).
Proof.
  intros Hf Hl Hk. unfold factorized_src_nodes. split.
  - intros Hb. rewrite (src_run_fails model latents IndexError); try done.
    intros s. unfold block_n_latents. by rewrite Hb.
  - intros blk Hb Hno.
    rewrite (src_run_fails model latents AttributeError); try done.
    intros s. unfold block_n_latents. rewrite Hb.
    destruct (hook_mlp_out blk) as [| sae |] eqn:Hh; try done.
    by destruct (Hno sae).
Qed.

Lemma short_model_latents : has_latents short_model [3].
Proof.
  intros b n Hb. destruct b as [|b]; simplify_eq/=.
  by exists (example_block 3), (example_sae 3).
Defined.

Lemma no_latents model : has_latents model [].
Proof. by intros b n Hb. Defined.

(** X3 on a model with two layers and one block, and on a model whose block
    still has its hook points. *)
Lemma X3_src_block_errors_witness :
  factorized_src_nodes short_model = inl IndexError
  ∧ factorized_src_nodes (AT.__init__ (Plain one_layer_model) [])
    = inl AttributeError.
Proof.
  split.
  - apply (X3_src_block_errors short_model [3] eq_refl short_model_latents);
      [simpl; lia | reflexivity].
  - apply (X3_src_block_errors (AT.__init__ (Plain one_layer_model) []) []
             eq_refl (no_latents _) ltac:(simpl; lia)) with
      (blk := mkBlock (mkMLP (HookPoint "blocks.0.mlp.hook_post"))
                (HookPoint "blocks.0.hook_mlp_out")); [reflexivity|].
    intros sae. discriminate.
Defined.

(** X1 on the example model. *)
Lemma X1_src_closed_form_witness :
  ∃ srcs, factorized_src_nodes (example_model true false) = inr srcs
    ∧ size srcs = 11.
Proof.
  destruct (X1_src_closed_form (example_model true false) [3; 3] eq_refl
              (example_has_latents true false) eq_refl)
    as (srcs & so & gs & H1 & _ & _ & _ & _ & _ & H2 & _).
  exists srcs. by split.
Defined.

(** X2 on the example model without split Q/K/V input. *)
Lemma X2_dest_closed_form_witness :
  ∃ dests, factorized_dest_nodes (example_model false true) = inr dests
    ∧ size dests = 7.
Proof.
  destruct (X2_dest_closed_form (example_model false true) eq_refl)
    as (dests & do & gs & H1 & _ & _ & _ & _ & _ & H2 & _).
  exists dests. by split.
Defined.

(** ** Node names *)

Lemma app_sep_inj c s s' u u' :
  lacks c s → lacks c s' →
  s +:+ String c u = s' +:+ String c u' → s = s' ∧ u = u'.
Proof.
  revert s'. induction s as [|a s IH]; intros [|a' s'] Hs Hs' Heq;
    simpl in *.
  - by injection Heq as ->.
  - injection Heq as <- _. by destruct Hs' as [[] _].
  - injection Heq as -> _. by destruct Hs as [[] _].
  - injection Heq as -> Heq. destruct Hs as [_ Hs], Hs' as [_ Hs'].
    destruct (IH _ Hs Hs' Heq) as [-> ->]. done.
Qed.

Lemma pretty_N_go_lacks c x s :
  (∀ d, pretty_N_char d ≠ c) → lacks c s → lacks c (pretty_N_go x s).
Proof.
  intros Hc. revert s. induction (N.lt_wf_0 x) as [x _ IH]; intros s Hs.
  destruct (decide (x = 0)%N) as [->|Hx].
  - by rewrite pretty_N_go_0.
  - rewrite pretty_N_go_step by lia. apply IH.
    + apply N.div_lt; lia.
    + split; [apply Hc | done].
Qed.

Lemma fmt_lacks c n : (∀ d, pretty_N_char d ≠ c) → lacks c (fmt n).
Proof.
  intros Hc. unfold fmt, pretty, pretty_nat, pretty, pretty_N.
  destruct (decide (N.of_nat n = 0)%N).
  - split; [apply (Hc 0%N) | done].
  - by apply pretty_N_go_lacks.
Qed.

Lemma digit_not_dot d : pretty_N_char d ≠ "."%char.
Proof. unfold pretty_N_char. by repeat case_match. Qed.

Lemma digit_not_space d : pretty_N_char d ≠ " "%char.
Proof. unfold pretty_N_char. by repeat case_match. Qed.

Lemma fmt_inj m n : fmt m = fmt n → m = n.
Proof. apply (inj pretty). Qed.

Lemma attn_name_inj b h b' h' :
  "A" +:+ fmt b +:+ "." +:+ fmt h = "A" +:+ fmt b' +:+ "." +:+ fmt h' →
  b = b' ∧ h = h'.
Proof.
  intros Heq. injection Heq as Heq.
  apply (app_sep_inj "."%char) in Heq as [Hb Hh];
    try (apply fmt_lacks, digit_not_dot).
  split; by apply fmt_inj.
Qed.

Lemma latent_name_inj b k b' k' :
  "MLP " +:+ fmt b +:+ " Latent " +:+ fmt k
  = "MLP " +:+ fmt b' +:+ " Latent " +:+ fmt k' →
  b = b' ∧ k = k'.
Proof.
  intros Heq. injection Heq as Heq.
  apply (app_sep_inj " "%char) in Heq as [Hb Hk];
    try (apply fmt_lacks, digit_not_space).
  injection Hk as Hk. split; by apply fmt_inj.
Qed.

Lemma src_tag_name_inj t t' : src_tag_name t = src_tag_name t' → t = t'.
Proof.
  destruct t, t'; simpl; intros Heq; try done; try discriminate Heq.
  - by apply attn_name_inj in Heq as [-> ->].
  - by apply latent_name_inj in Heq as [-> ->].
Qed.

Lemma dest_tag_name_inj t t' : dest_tag_name t = dest_tag_name t' → t = t'.
Proof.
  destruct t, t'; simpl; intros Heq; try done; try discriminate Heq.
  - by apply attn_name_inj in Heq as [-> ->].
  - injection Heq as Heq. by apply fmt_inj in Heq as ->.
Qed.

Lemma NoDup_fmap_inj {A B} (f : A → B) (l : list A) :
  (∀ x y, f x = f y → x = y) → NoDup l → NoDup (f <$> l).
Proof. intros Hf. apply (@NoDup_fmap_2 _ _ f Hf). Qed.

Lemma src_groups_names parallel heads latents b L i :
  name <$> flatten (src_groups parallel heads latents b L i)
  = src_tag_name <$> src_tags heads latents b.
Proof.
  revert b L i. induction latents as [|n latents IH]; intros b L i; [done|].
  cbn [src_groups src_tags]. rewrite flatten_cons, !fmap_app, IH.
  cbn [src_block_nodes fst snd]. rewrite <- !list_fmap_compose, <- app_assoc.
  reflexivity.
Qed.

Lemma dest_groups_names parallel heads n b L i :
  name <$> flatten (dest_groups parallel heads n b L i)
  = dest_tag_name <$> dest_tags heads n b.
Proof.
  revert b L i. induction n as [|n IH]; intros b L i; [done|].
  cbn [dest_groups dest_tags]. rewrite flatten_cons, !fmap_app, IH.
  cbn [dest_block_nodes fst snd]. rewrite <- !list_fmap_compose, <- app_assoc.
  reflexivity.
Qed.

Lemma src_tags_block heads latents b t :
  t ∈ src_tags heads latents b → t ≠ TStart ∧ b ≤ src_tag_block t.
Proof.
  revert b. induction latents as [|n latents IH]; intros b Ht;
    [by apply elem_of_nil in Ht|].
  cbn [src_tags] in Ht. rewrite !elem_of_app in Ht.
  destruct Ht as [Ht|[Ht|Ht]].
  - by apply list_elem_of_fmap in Ht as (h & -> & _).
  - by apply list_elem_of_fmap in Ht as (h & -> & _).
  - destruct (IH _ Ht). split; [done|lia].
Qed.

Lemma src_tags_NoDup heads latents b : NoDup (src_tags heads latents b).
Proof.
  revert b. induction latents as [|n latents IH]; intros b; [constructor|].
  cbn [src_tags]. apply NoDup_app. split_and!.
  - apply NoDup_fmap_inj; [by intros ?? [=] | apply NoDup_seq].
  - intros t Ht Ht'. apply list_elem_of_fmap in Ht as (h & -> & _).
    apply elem_of_app in Ht' as [Ht'|Ht'].
    + by apply list_elem_of_fmap in Ht' as (k & ? & _).
    + apply src_tags_block in Ht' as [_ Hb]. simpl in Hb. lia.
  - apply NoDup_app. split_and!.
    + apply NoDup_fmap_inj; [by intros ?? [=] | apply NoDup_seq].
    + intros t Ht Ht'. apply list_elem_of_fmap in Ht as (k & -> & _).
      apply src_tags_block in Ht' as [_ Hb]. simpl in Hb. lia.
    + apply IH.
Qed.

Lemma dest_tags_block heads n b t :
  t ∈ dest_tags heads n b → t ≠ DEnd ∧ b ≤ dest_tag_block t.
Proof.
  revert b. induction n as [|n IH]; intros b Ht;
    [by apply elem_of_nil in Ht|].
  cbn [dest_tags] in Ht. rewrite !elem_of_app in Ht.
  destruct Ht as [Ht|[Ht|Ht]].
  - by apply list_elem_of_fmap in Ht as (h & -> & _).
  - by apply list_elem_of_singleton in Ht as ->.
  - destruct (IH _ Ht). split; [done|lia].
Qed.

Lemma dest_tags_NoDup heads n b : NoDup (dest_tags heads n b).
Proof.
  revert b. induction n as [|n IH]; intros b; [constructor|].
  cbn [dest_tags]. apply NoDup_app. split_and!.
  - apply NoDup_fmap_inj; [by intros ?? [=] | apply NoDup_seq].
  - intros t Ht Ht'. apply list_elem_of_fmap in Ht as (h & -> & _).
    apply elem_of_app in Ht' as [Ht'|Ht'].
    + by apply list_elem_of_singleton in Ht'.
    + apply dest_tags_block in Ht' as [_ Hb]. simpl in Hb. lia.
  - apply NoDup_app. split_and!.
    + apply NoDup_singleton.
    + intros t Ht Ht'. apply list_elem_of_singleton in Ht as ->.
      apply dest_tags_block in Ht' as [_ Hb]. simpl in Hb. lia.
    + apply IH.
Qed.

(** X4.  The names of the source nodes are pairwise different, and so are
    the names of the destination nodes: a name determines the kind of node,
    the block and the head or latent. *)
Theorem X4_names_distinct (model : AutoencoderTransformer)
    (latents : list nat) :
  src_flags (AT.cfg model) = true →
  has_latents model latents →
  length latents = n_layers (AT.cfg model) →
  ∃ src_order dest_order,
    src_enumeration model = inr src_order
    ∧ dest_enumeration model = inr dest_order
    ∧ NoDup (name <$> src_order)
    ∧ NoDup (name <$> dest_order).
Proof.
  intros Hf Hl Hn.
  pose proof (src_run_eq model _ Hf Hl Hn) as Es.
  pose proof (dest_run_eq model (src_flags_dest_flags _ Hf)) as Ed.
  eexists _, _. unfold src_enumeration, dest_enumeration. rewrite Es, Ed.
  cbn [fmap Result_fmap grow nodes order app].
  split_and!; try reflexivity.
  - rewrite fmap_cons, src_groups_names.
    change (name (resid_start 0 0)) with (src_tag_name TStart).
    rewrite <- fmap_cons.
    apply NoDup_fmap_inj; [apply src_tag_name_inj|].
    constructor; [|apply src_tags_NoDup].
    intros Ht. by apply src_tags_block in Ht as [[] _].
  - rewrite fmap_app, dest_groups_names.
    change (name <$> [resid_end ?n ?l ?i]) with (dest_tag_name <$> [DEnd]).
    rewrite <- fmap_app.
    apply NoDup_fmap_inj; [apply dest_tag_name_inj|].
    apply NoDup_app. split_and!.
    + apply dest_tags_NoDup.
    + intros t Ht Ht'. apply list_elem_of_singleton in Ht' as ->.
      by apply dest_tags_block in Ht as [[] _].
    + apply NoDup_singleton.
Qed.

(** X4 on the example model. *)
Lemma X4_names_distinct_witness :
  ∃ src_order dest_order,
    src_enumeration (example_model true false) = inr src_order
    ∧ dest_enumeration (example_model true false) = inr dest_order
    ∧ NoDup (name <$> src_order)
    ∧ NoDup (name <$> dest_order).
Proof.
  exact (X4_names_distinct (example_model true false) [3; 3] eq_refl
           (example_has_latents true false) eq_refl).
Defined.

(** ** [autoencoder_model] *)

Section AutoencoderModelFacts.
Context `{Loader}.

Lemma module_setattr_module old v :
  is_module v = true → module_setattr old v = inr v.
Proof. unfold module_setattr. intros ->. by rewrite andb_false_r. Qed.

(** What the loop over the layers [k .. k + m - 1] leaves behind for
    ["resid_delta_mlp"]. *)
Lemma resid_loop_spec pythia_size m k model acc :
  k + m ≤ length (blocks model) →
  ∃ model' new,
    autoencoder_loop (seq k m) "resid_delta_mlp" pythia_size model acc
    = inr (model', acc ++ new)
    ∧ cfg model' = cfg model
    ∧ length (blocks model') = length (blocks model)
    ∧ length new = m
    ∧ (∀ b, b < k ∨ k + m ≤ b → blocks model' !! b = blocks model !! b)
    ∧ (∀ j, j < m →
         ∃ blk sae m0,
           blocks model !! (k + j) = Some blk
           ∧ new !! j = Some sae
           ∧ blocks model' !! (k + j)
             = Some (mkBlock (mlp blk) (Autoencoder sae))
           ∧ sae = load_autoencoder (hook_mlp_out blk) m0 (k + j)
                     "resid_delta_mlp" pythia_size
           ∧ cfg m0 = cfg model
           ∧ (∀ b, k + j ≤ b → blocks m0 !! b = blocks model !! b)).
Proof.
  revert k model acc. induction m as [|m IH]; intros k model acc Hlen.
  - exists model, []. rewrite app_nil_r. split_and!; try done. lia.
  - cbn [seq autoencoder_loop].
    destruct (lookup_lt_is_Some_2 (blocks model) k) as [blk Hblk]; [lia|].
    rewrite decide_False by done. rewrite decide_True by done.
    rewrite Hblk. cbn zeta. rewrite module_setattr_module by done.
    set (sae := load_autoencoder (hook_mlp_out blk) model k
                  "resid_delta_mlp" pythia_size).
    set (model1 := setattr_hook_mlp_out model k (Autoencoder sae)).
    assert (length (blocks model1) = length (blocks model)) as Hlen1.
    { subst model1. unfold setattr_hook_mlp_out. cbn [blocks].
      apply length_alter. }
    assert (∀ b, b ≠ k → blocks model1 !! b = blocks model !! b) as Hne.
    { intros b Hb. subst model1. unfold setattr_hook_mlp_out. cbn [blocks].
      apply list_lookup_alter_ne. by intros ->. }
    assert (blocks model1 !! k = Some (mkBlock (mlp blk) (Autoencoder sae)))
      as Heq.
    { subst model1. unfold setattr_hook_mlp_out. cbn [blocks].
      by rewrite list_lookup_alter_eq, Hblk. }
    destruct (IH (S k) model1 (acc ++ [sae])) as
      (model' & new & Hrun & Hcfg & Hl & Hn & Hout & Hin); [lia|].
    exists model', (sae :: new). rewrite Hrun, <- app_assoc.
    split_and!; try done.
    + lia.
    + simpl. lia.
    + intros b Hb. rewrite Hout by lia. apply Hne. lia.
    + intros [|j] Hj.
      * exists blk, sae, model. rewrite Nat.add_0_r.
        split_and!; try done. rewrite Hout by lia. exact Heq.
      * destruct (Hin j) as (blk' & sae' & m0 & H1 & H2 & H3 & H4 & H5 & H6);
          [lia|].
        replace (k + S j) with (S k + j) by lia.
        exists blk', sae', m0. split_and!; try done.
        -- rewrite <- H1. symmetry. apply Hne. lia.
        -- intros b Hb. rewrite H6 by done. apply Hne. lia.
Qed.

Lemma autoencoder_loop_app l1 l2 sae_input pythia_size model acc :
  autoencoder_loop (l1 ++ l2) sae_input pythia_size model acc
  = match autoencoder_loop l1 sae_input pythia_size model acc with
    | inl e => inl e
    | inr (model', acc') =>
        autoencoder_loop l2 sae_input pythia_size model' acc'
    end.
Proof.
  revert model acc. induction l1 as [|b l1 IH]; intros model acc; [done|].
  cbn [app autoencoder_loop].
  repeat case_decide; try done; destruct (blocks model !! b); try done;
    cbn zeta; destruct (module_setattr _ _); try done; apply IH.
Qed.

Lemma resid_delta_returns model pythia_size new_instance :
  n_layers (cfg model) ≤ length (blocks model) →
  ∃ wrapped,
    autoencoder_model model "resid_delta_mlp" pythia_size new_instance
    = inr wrapped.
Proof.
  intros Hlen. unfold autoencoder_model, range.
  destruct (resid_loop_spec pythia_size (n_layers (cfg model)) 0 model [])
    as (model' & new & Hrun & _); [lia|].
  rewrite Hrun. by eexists.
Qed.

(** X5.  For ["resid_delta_mlp"] on a model with a block for every layer,
    [autoencoder_model] returns a wrapper with the same configuration and
    one autoencoder per layer; block [b] of a layer holds autoencoder [b] of
    the list in [hook_mlp_out], loaded from the hook point that was there,
    and keeps its [mlp]; blocks beyond the layers are untouched. *)
Theorem X5_resid_delta_installs (model : HookedTransformer)
    (pythia_size : option string) (new_instance : bool) :
  n_layers (cfg model) ≤ length (blocks model) →
  ∃ wrapped,
    autoencoder_model model "resid_delta_mlp" pythia_size new_instance
    = inr wrapped
    ∧ AT.cfg wrapped = cfg model
    ∧ length (sparse_autoencoders wrapped) = n_layers (cfg model)
    ∧ length (AT.blocks wrapped) = length (blocks model)
    ∧ (∀ b, n_layers (cfg model) ≤ b →
         AT.blocks wrapped !! b = blocks model !! b)
    ∧ (∀ b, b < n_layers (cfg model) →
         ∃ blk sae m0,
           blocks model !! b = Some blk
           ∧ sparse_autoencoders wrapped !! b = Some sae
           ∧ AT.blocks wrapped !! b
             = Some (mkBlock (mlp blk) (Autoencoder sae))
           ∧ sae = load_autoencoder (hook_mlp_out blk) m0 b
                     "resid_delta_mlp" pythia_size
           ∧ cfg m0 = cfg model).
Proof.
  intros Hlen. unfold autoencoder_model, range.
  destruct (resid_loop_spec pythia_size (n_layers (cfg model)) 0 model [])
    as (model' & new & Hrun & Hcfg & Hl & Hn & Hout & Hin); [lia|].
  rewrite Hrun. cbn [app]. eexists. split; [reflexivity|].
  unfold AT.cfg, AT.blocks. cbn [AT.__init__ wrapped_model sparse_autoencoders].
  split_and!; try done.
  - intros b Hb. apply Hout. lia.
  - intros b Hb.
    destruct (Hin b Hb) as (blk & sae & m0 & H1 & H2 & H3 & H4 & H5 & _).
    exists blk, sae, m0. by split_and!.
Qed.

Lemma resid_delta_has_latents model pythia_size new_instance wrapped :
  n_layers (cfg model) ≤ length (blocks model) →
  autoencoder_model model "resid_delta_mlp" pythia_size new_instance
  = inr wrapped →
  has_latents wrapped (n_latents <$> sparse_autoencoders wrapped)
  ∧ length (n_latents <$> sparse_autoencoders wrapped)
    = n_layers (AT.cfg wrapped)
  ∧ AT.cfg wrapped = cfg model.
Proof.
  intros Hlen Hrun. unfold autoencoder_model, range in Hrun.
  destruct (resid_loop_spec pythia_size (n_layers (cfg model)) 0 model [])
    as (model' & new & Hloop & Hcfg & Hl & Hn & Hout & Hin); [lia|].
  rewrite Hloop in Hrun. injection Hrun as <-.
  unfold AT.cfg, AT.blocks. cbn [AT.__init__ wrapped_model sparse_autoencoders app].
  split_and!.
  - intros b n Hb. rewrite list_lookup_fmap in Hb.
    destruct (new !! b) as [sae|] eqn:Hsae; [|done].
    injection Hb as <-.
    assert (b < n_layers (cfg model)) as Hlt.
    { rewrite <- Hn. by eapply lookup_lt_Some. }
    destruct (Hin b Hlt) as (blk & sae' & m0 & H1 & H2 & H3 & _).
    simpl in *. rewrite Hsae in H2. injection H2 as <-.
    by exists (mkBlock (mlp blk) (Autoencoder sae)), sae.
  - by rewrite length_fmap, Hn, Hcfg.
  - done.
Qed.

(** X6.  The wrapper that [autoencoder_model] builds for
    ["resid_delta_mlp"] can be enumerated: with the four flags set,
    [factorized_src_nodes] returns one node for the start, one per head and
    one per latent of the loaded autoencoders, and [factorized_dest_nodes]
    returns its [n_layers * (n_heads + 1) + 1] nodes. *)
Theorem X6_built_model_enumerates (model : HookedTransformer)
    (pythia_size : option string) (new_instance : bool) :
  n_layers (cfg model) ≤ length (blocks model) →
  src_flags (cfg model) = true →
  ∃ wrapped srcs dests,
    autoencoder_model model "resid_delta_mlp" pythia_size new_instance
    = inr wrapped
    ∧ factorized_src_nodes wrapped = inr srcs
    ∧ factorized_dest_nodes wrapped = inr dests
    ∧ size srcs
      = 1 + n_layers (cfg model) * n_heads (cfg model)
        + sum_list (n_latents <$> sparse_autoencoders wrapped)
    ∧ size dests = n_layers (cfg model) * (n_heads (cfg model) + 1) + 1.
Proof.
  intros Hlen Hf.
  destruct (resid_delta_returns model pythia_size new_instance Hlen)
    as (wrapped & Hrun).
  destruct (resid_delta_has_latents _ _ _ _ Hlen Hrun) as (Hl & Hn & Hcfg).
  rewrite <- Hcfg in Hf |- *.
  pose proof (src_run_eq wrapped _ Hf Hl Hn) as Es.
  pose proof (dest_run_eq wrapped (src_flags_dest_flags _ Hf)) as Ed.
  pose proof (src_order_idx (parallel_attn_mlp (AT.cfg wrapped))
                (n_heads (AT.cfg wrapped))
                (n_latents <$> sparse_autoencoders wrapped)) as Is.
  pose proof (dest_order_idx (parallel_attn_mlp (AT.cfg wrapped))
                (n_heads (AT.cfg wrapped)) (n_layers (AT.cfg wrapped))
                (1 + n_layers (AT.cfg wrapped)
                     * step (parallel_attn_mlp (AT.cfg wrapped)))) as Id.
  destruct (nodes_of_order_size _ _ Is) as [Ss _].
  destruct (nodes_of_order_size _ _ Id) as [Sd _].
  eexists wrapped, _, _. split; [exact Hrun|].
  unfold factorized_src_nodes, factorized_dest_nodes. rewrite Es, Ed.
  cbn [fmap Result_fmap grow nodes order app].
  split_and!; try reflexivity.
  - rewrite Ss, Hn. lia.
  - exact Sd.
Qed.

(** X7.  Error and edge behaviour of [autoencoder_model]: a model without
    layers is wrapped as it is, whatever [sae_input] is; with a layer and a
    first block, an [sae_input] other than the two capture points raises
    [AssertionError]; for ["resid_delta_mlp"] with fewer blocks than layers,
    the first missing block raises [IndexError]. *)
Theorem X7_autoencoder_model_errors (model : HookedTransformer)
    (sae_input : string) (pythia_size : option string) (new_instance : bool) :
  (n_layers (cfg model) = 0 →
     autoencoder_model model sae_input pythia_size new_instance
     = inr (mkAT model []))
  ∧ (0 < n_layers (cfg model) → blocks model ≠ [] →
     sae_input ≠ "mlp_post_act" → sae_input ≠ "resid_delta_mlp" →
     autoencoder_model model sae_input pythia_size new_instance
     = inl AssertionError)
  ∧ (length (blocks model) < n_layers (cfg model) →
     sae_input = "resid_delta_mlp" →
     autoencoder_model model sae_input pythia_size new_instance
     = inl IndexError).
Proof.
  unfold autoencoder_model, range. split_and!.
  - intros ->. reflexivity.
  - intros Hpos Hne H1 H2.
    destruct (n_layers (cfg model)) as [|n]; [lia|].
    destruct (blocks model) as [|blk bs] eqn:Hb; [done|].
    cbn [seq autoencoder_loop]. by rewrite !decide_False.
  - intros Hlt ->.
    replace (n_layers (cfg model))
      with (length (blocks model)
            + S (n_layers (cfg model) - S (length (blocks model)))) by lia.
    rewrite seq_app, autoencoder_loop_app.
    destruct (resid_loop_spec pythia_size (length (blocks model)) 0
                model []) as (model' & new & Hrun & _ & Hl & _); [lia|].
    rewrite Hrun. cbn [seq autoencoder_loop Nat.add].
    rewrite decide_False by done. rewrite decide_True by done.
    rewrite (lookup_ge_None_2 (blocks model')); [done|]. by rewrite Hl.
Qed.

End AutoencoderModelFacts.

(** ** [_prune_latents_with_dataset]: the retained counts *)

Section PruneFacts.
Context `{SaeOps}.

Lemma prune_loop_spec saes counts max_latents log :
  Forall2 (λ sae c, own_count sae = inr c) saes counts →
  ∃ cap,
    prune_loop saes max_latents log
    = inr (cap,
           mkPruneLog
             (activated_latent_counts log
              ++ ((λ sae, activated_of (latent_total_act sae)) <$> saes))
             (latent_counts log ++ retained max_latents counts)
             (pruned log
              ++ zip_with
                   (λ sae max_idx,
                      prune_latents sae
                        (idxs_to_keep_of (latent_total_act sae) max_idx))
                   saes (retained max_latents counts))).
Proof.
  intros Hc. revert max_latents log.
  induction Hc as [|sae c saes counts Hsae Hc IH]; intros max_latents log.
  - exists max_latents. destruct log. simpl. by rewrite !app_nil_r.
  - cbn [prune_loop]. unfold own_count in Hsae. rewrite Hsae.
    cbn zeta.
    destruct (IH (Some (py_or max_latents c))
                (mkPruneLog
                   (activated_latent_counts log
                    ++ [activated_of (latent_total_act sae)])
                   (latent_counts log ++ [Z.min (py_or max_latents c) c])
                   (pruned log
                    ++ [prune_latents sae
                          (idxs_to_keep_of (latent_total_act sae)
                             (Z.min (py_or max_latents c) c))])))
      as [cap ->].
    exists cap. cbn [activated_latent_counts latent_counts pruned].
    by rewrite <- !app_assoc.
Qed.

Lemma retained_length max_latents counts :
  length (retained max_latents counts) = length counts.
Proof.
  revert max_latents. induction counts as [|c counts IH]; intros m; [done|].
  simpl. by rewrite IH.
Qed.

Lemma retained_cap n counts :
  n ≠ 0%Z → retained (Some n) counts = Z.min n <$> counts.
Proof.
  intros Hn. induction counts as [|c counts IH]; [done|].
  cbn [retained py_or fmap list_fmap]. rewrite decide_False by done.
  by rewrite IH.
Qed.

Lemma retained_le max_latents counts k r c :
  retained max_latents counts !! k = Some r → counts !! k = Some c →
  (r ≤ c)%Z.
Proof.
  revert max_latents k. induction counts as [|c0 counts IH]; intros m k;
    [done|].
  destruct k as [|k]; simpl.
  - intros [= <-] [= <-]. lia.
  - apply IH.
Qed.

Lemma retained_zero_cap counts :
  retained (Some 0%Z) counts = retained None counts.
Proof. by destruct counts. Qed.

Lemma first_nonzero_snoc counts c :
  first_nonzero (counts ++ [c])
  = if decide (first_nonzero counts = 0%Z) then c else first_nonzero counts.
Proof.
  unfold first_nonzero. rewrite filter_app.
  destruct (filter (λ c0, c0 ≠ 0%Z) counts) as [|d l] eqn:Hf.
  - simpl. rewrite filter_cons, filter_nil.
    destruct (decide (c ≠ 0%Z)) as [Hc|Hc]; simpl; [done|].
    destruct (decide (c = 0%Z)); [by subst | done].
  - simpl. rewrite decide_False; [done|].
    assert (d ∈ filter (λ c0, c0 ≠ 0%Z) counts) as Hd.
    { rewrite Hf. apply list_elem_of_here. }
    by apply list_elem_of_filter in Hd as [Hd _].
Qed.

Lemma retained_default_from prefix counts k c :
  prefix ≠ [] → counts !! k = Some c →
  retained (Some (first_nonzero prefix)) counts !! k
  = Some (Z.min (first_nonzero (prefix ++ take (S k) counts)) c).
Proof.
  revert prefix k. induction counts as [|c0 counts IH]; intros prefix k Hp Hk;
    [done|].
  assert (py_or (Some (first_nonzero prefix)) c0
          = first_nonzero (prefix ++ [c0])) as Hor.
  { rewrite first_nonzero_snoc. unfold py_or. by repeat case_decide. }
  destruct k as [|k]; simpl in Hk.
  - injection Hk as ->. cbn [retained lookup list_lookup take].
    by rewrite Hor.
  - cbn [retained take]. change ((?x :: ?l) !! S k) with (l !! k).
    rewrite Hor.
    rewrite (IH (prefix ++ [c0]) k); [|by destruct prefix|done].
    by rewrite <- app_assoc.
Qed.

Lemma retained_default counts k c :
  counts !! k = Some c →
  retained None counts !! k
  = Some (Z.min (first_nonzero (take (S k) counts)) c).
Proof.
  destruct counts as [|c0 counts]; [done|]. intros Hk.
  assert (py_or None c0 = first_nonzero [c0]) as Hor.
  { unfold first_nonzero. rewrite filter_cons, filter_nil.
    destruct (decide (c0 ≠ 0%Z)) as [Hc|Hc]; simpl; [done|].
    destruct (decide (c0 = 0%Z)); [by subst | done]. }
  destruct k as [|k]; simpl in Hk.
  - injection Hk as ->. cbn [retained lookup list_lookup take]. by rewrite Hor.
  - cbn [retained take]. change ((?x :: ?l) !! S k) with (l !! k).
    rewrite Hor. by rewrite (retained_default_from [c0] counts k c).
Qed.

Lemma own_count_cases sae :
  (latent_total_act sae = Act2D [] ∧ own_count sae = inl ValueError)
  ∨ (latent_total_act sae ≠ Act2D [] ∧ ∃ c, own_count sae = inr c).
Proof.
  unfold own_count. destruct (latent_total_act sae) as [row|[|r rows]]; simpl.
  - right. split; [done|]. by eexists.
  - by left.
  - right. split; [done|]. by eexists.
Qed.

Lemma prune_loop_result saes max_latents log :
  (Exists (λ sae, latent_total_act sae = Act2D []) saes
   ∧ prune_loop saes max_latents log = inl ValueError)
  ∨ (Forall (λ sae, latent_total_act sae ≠ Act2D []) saes
     ∧ ∃ r, prune_loop saes max_latents log = inr r).
Proof.
  revert max_latents log. induction saes as [|sae saes IH]; intros m log.
  - right. split; [constructor|]. by eexists.
  - cbn [prune_loop].
    destruct (own_count_cases sae) as [[Hs Hc]|[Hs [c Hc]]];
      unfold own_count in Hc; rewrite Hc.
    + left. split; [by apply Exists_cons; left|done].
    + cbn zeta. match goal with |- context [prune_loop saes ?m' ?l'] =>
        destruct (IH m' l') as [[Hex Hr]|[Hall Hr]] end.
      * left. split; [by apply Exists_cons; right|done].
      * right. split; [by constructor|done].
Qed.

Lemma prune_zero_cap saes log :
  snd <$> prune_loop saes (Some 0%Z) log = snd <$> prune_loop saes None log.
Proof.
  destruct saes as [|sae rest]; [done|]. cbn [prune_loop].
  destruct (activated_count_of _) as [e|c]; [done|].
  cbn zeta. unfold py_or. by rewrite decide_True.
Qed.

(** X8. With an explicit cap [max_latents] that is not zero, every
    autoencoder is pruned on its own: the k-th entry of [latent_counts] is
    the minimum of the cap and that autoencoder's activated count,
    [activated_latent_counts] lists the activated counts in the order of
    [sparse_autoencoders], and each autoencoder is pruned once, to the
    slice of the indices of its sort that ends at [min(cap, count)]. *)
Theorem X8_explicit_cap (self : AutoencoderTransformer) (n : Z)
    (counts : list Z) :
  n ≠ 0%Z →
  Forall2 (λ sae c, own_count sae = inr c) (sparse_autoencoders self) counts →
  ∃ log,
    _prune_latents_with_dataset self (Some n) = inr log
    ∧ latent_counts log = Z.min n <$> counts
    ∧ activated_latent_counts log
      = (λ sae, activated_of (latent_total_act sae))
          <$> sparse_autoencoders self
    ∧ pruned log
      = zip_with
          (λ sae c,
             prune_latents sae
               (idxs_to_keep_of (latent_total_act sae) (Z.min n c)))
          (sparse_autoencoders self) counts.
Proof.
  intros Hn Hc. unfold _prune_latents_with_dataset.
  destruct (prune_loop_spec _ _ (Some n) (mkPruneLog [] [] []) Hc)
    as [cap ->].
  eexists. split; [reflexivity|]. cbn [snd latent_counts
    activated_latent_counts pruned app].
  rewrite retained_cap by done. split; [done|]. split; [done|].
  clear -Hc. induction Hc as [|sae c saes counts _ _ IH]; [done|].
  cbn [fmap list_fmap zip_with]. by rewrite IH.
Qed.

(** X9. With no cap ([max_latents] is [None], or [0], which [or] treats
    alike) the k-th autoencoder keeps the minimum of its own activated count
    and the first activated count that is not zero among the autoencoders
    up to and including it; no autoencoder keeps more latents than it
    activated. *)
Theorem X9_default_cap (self : AutoencoderTransformer)
    (max_latents : option Z) (counts : list Z) :
  max_latents = None ∨ max_latents = Some 0%Z →
  Forall2 (λ sae c, own_count sae = inr c) (sparse_autoencoders self) counts →
  ∃ log,
    _prune_latents_with_dataset self max_latents = inr log
    ∧ length (latent_counts log) = length (sparse_autoencoders self)
    ∧ ∀ k c, counts !! k = Some c →
        latent_counts log !! k
        = Some (Z.min (first_nonzero (take (S k) counts)) c).
Proof.
  intros Hm Hc. unfold _prune_latents_with_dataset.
  assert (snd <$> prune_loop (sparse_autoencoders self) max_latents
                    (mkPruneLog [] [] [])
          = snd <$> prune_loop (sparse_autoencoders self) None
                      (mkPruneLog [] [] []))
    as ->.
  { destruct Hm as [->| ->]; [done|]. apply prune_zero_cap. }
  destruct (prune_loop_spec _ _ None (mkPruneLog [] [] []) Hc) as [cap ->].
  eexists. split; [reflexivity|]. cbn [snd latent_counts app].
  split.
  - rewrite retained_length. symmetry. by eapply Forall2_length.
  - intros k c Hk. by apply retained_default.
Qed.

(** X10. Lines 66-75 fail exactly when some autoencoder's
    [latent_total_act] is a two-dimensional tensor with no rows: [max] of
    the empty list raises [ValueError]. In every other case a log is
    returned, whatever the cap. *)
Theorem X10_prune_fails_iff (self : AutoencoderTransformer)
    (max_latents : option Z) :
  (_prune_latents_with_dataset self max_latents = inl ValueError
   ↔ ∃ sae, sae ∈ sparse_autoencoders self ∧ latent_total_act sae = Act2D [])
  ∧ (_prune_latents_with_dataset self max_latents ≠ inl ValueError
     → ∃ log, _prune_latents_with_dataset self max_latents = inr log).
Proof.
  unfold _prune_latents_with_dataset.
  destruct (prune_loop_result (sparse_autoencoders self) max_latents
              (mkPruneLog [] [] [])) as [[Hex ->]|[Hall [r ->]]]; simpl.
  - split; [|done]. split; [|done]. intros _.
    apply Exists_exists in Hex as (sae & Hin & Hs). by exists sae.
  - split; [|by eexists]. split; [done|].
    intros (sae & Hin & Hs). rewrite Forall_forall in Hall.
    by destruct (Hall sae Hin).
Qed.

End PruneFacts.

(** ** What [run_pruned] returns and does *)

Section RunResultFacts.
Context `{Torch} `{!ModelOps} `{ScoreType}.

Lemma dict_get_Some_key {K V} `{EqDecision K} (k : K) (d : list (K * V)) v :
  dict_get k d = Some v → k ∈ d.*1.
Proof.
  induction d as [|[k' v'] d IH]; [done|]. simpl.
  destruct (decide (k = k')) as [->|Hk].
  - intros _. apply elem_of_cons. by left.
  - intros Hd. apply elem_of_cons. right. by apply IH.
Qed.

Lemma edge_labels_fails patch_outs edges w :
  (∃ e, e ∈ edges ∧ src e ∉ patch_outs.*1) →
  edge_labels patch_outs edges w = inl KeyError.
Proof.
  induction edges as [|e edges IH]; intros (e' & He' & Hsrc).
  - by apply elem_of_nil in He'.
  - cbn [edge_labels].
    destruct (dict_get (src e) patch_outs) as [out|] eqn:Hget; [|done].
    apply elem_of_cons in He' as [->|He'].
    + by apply dict_get_Some_key in Hget.
    + unfold mbind, Run_bind. rewrite IH; [done|]. by exists e'.
Qed.

Lemma baseline_outs_keys experiment_type st batch k :
  k ∈ (baseline_outs experiment_type st batch).*1
  ↔ k ∈ (sorted_src_outs st (baseline_input experiment_type batch)).*1.
Proof.
  unfold baseline_outs. destruct (patch_type experiment_type); try done.
  rewrite dict_of_items_keys, <- list_fmap_compose.
  by replace (fst ∘ (λ p : Node * Tensor, (p.1, zeros_like p.2)))
    with (fst : Node * Tensor → Node) by done.
Qed.

Lemma patch_baseline_exact experiment_type batch w :
  valid_patch experiment_type →
  wp (patch_baseline experiment_type batch) w (λ patch_outs w',
    patch_outs = baseline_outs experiment_type (model_state w) batch
    ∧ model_state w' = model_state w
    ∧ events w'
      = events w ++ [EvSrcOuts (baseline_input experiment_type batch)]).
Proof.
  unfold patch_baseline, baseline_outs, baseline_input.
  by intros [-> | [-> | ->]].
Qed.

Lemma mask_step (X : gset Edge) e l :
  X ∪ list_to_set (e :: l) = {[e]} ∪ X ∪ list_to_set l.
Proof. set_solver. Qed.

Lemma edge_loop_exact test_edge_counts x edges k outs w curr patch X :
  model_state w = mkPatchState (Some (curr, patch)) (gset_to_gmap 1%Z X) →
  wp (edge_loop test_edge_counts x edges k outs) w (λ outs' w',
    model_state w'
    = mkPatchState (Some (curr, patch))
        (gset_to_gmap 1%Z (X ∪ list_to_set edges))
    ∧ events w' = events w ++ loop_events test_edge_counts x edges k
    ∧ ∀ c, outs' !! c
           = if decide (c ∈ test_edge_counts
                        ∧ (Z.of_nat k < c ≤ Z.of_nat (k + length edges))%Z)
             then Some (default [] (outs !! c)
                        ++ [out_slice
                              (forward_patched
                                 (gset_to_gmap 1%Z
                                    (X ∪ list_to_set
                                           (take (Z.to_nat c - k) edges)))
                                 curr patch x)])
             else outs !! c).
Proof.
  revert k outs w X. induction edges as [|e edges IH]; intros k outs w X Hst.
  - apply wp_ret. split_and!.
    + by rewrite Hst, list_to_set_nil, (right_id_L ∅ (∪)).
    + by rewrite app_nil_r.
    + intros c. rewrite decide_False; [done|]. simpl. lia.
  - cbn [edge_loop]. apply wp_bind. unfold wp at 1. cbn [set_patch_mask].
    rewrite Hst. cbn [patching patch_mask].
    rewrite <- gset_to_gmap_union_singleton.
    apply wp_bind.
    destruct (decide ((Z.of_nat k + 1)%Z ∈ test_edge_counts)) as [Hin|Hin].
    + apply wp_bind. unfold wp at 1. cbn [model_call]. apply wp_ret.
      cbn [model_state]. unfold forward at 1. cbn [patching patch_mask].
      eapply wp_mono; [by apply (IH (S k) _ _ ({[e]} ∪ X))|]. cbn beta.
      intros outs' w' (Hst' & Hev & Ho).
      cbn [model_state events] in *.
      split_and!.
      * by rewrite Hst', mask_step.
      * rewrite Hev, <- !app_assoc. cbn [loop_events].
        by rewrite decide_True.
      * intros c. rewrite Ho. unfold clone, detach.
        destruct (decide (c = (Z.of_nat k + 1)%Z)) as [->|Hc].
        -- rewrite (decide_False (P := _ ∧ (Z.of_nat (S k) < _ ≤ _)%Z))
             by (intros [_ ?]; lia).
           rewrite append_out_lookup.
           destruct (decide ((Z.of_nat k + 1)%Z = (Z.of_nat k + 1)%Z))
             as [_|?]; [|done].
           rewrite decide_True by (split; [done|cbn [length]; lia]).
           replace (Z.to_nat (Z.of_nat k + 1) - k) with 1 by lia.
           cbn [take]. rewrite mask_step, take_0, list_to_set_nil.
           by rewrite (right_id_L ∅ (∪)).
        -- rewrite !append_out_lookup.
           destruct (decide ((Z.of_nat k + 1)%Z = c)) as [?|_]; [done|].
           destruct (decide (c ∈ test_edge_counts
                             ∧ (Z.of_nat (S k) < c
                                ≤ Z.of_nat (S k + length edges))%Z))
             as [[Hc1 Hc2]|Hn].
           ++ rewrite decide_True by (split; [done|cbn [length]; lia]).
              replace (Z.to_nat c - k) with (S (Z.to_nat c - S k)) by lia.
              cbn [take]. by rewrite mask_step.
           ++ rewrite decide_False; [done|]. intros [Hc1 Hc2]. apply Hn.
              split; [done|]. cbn [length] in Hc2. lia.
    + apply wp_ret.
      eapply wp_mono; [by apply (IH (S k) _ _ ({[e]} ∪ X))|]. cbn beta.
      intros outs' w' (Hst' & Hev & Ho).
      cbn [model_state events] in *.
      split_and!.
      * by rewrite Hst', mask_step.
      * rewrite Hev, <- !app_assoc. cbn [loop_events].
        by rewrite decide_False.
      * intros c. rewrite Ho.
        destruct (decide (c ∈ test_edge_counts
                          ∧ (Z.of_nat (S k) < c
                             ≤ Z.of_nat (S k + length edges))%Z))
          as [[Hc1 Hc2]|Hn].
        -- rewrite decide_True by (split; [done|cbn [length]; lia]).
           replace (Z.to_nat c - k) with (S (Z.to_nat c - S k)) by lia.
           cbn [take]. by rewrite mask_step.
        -- rewrite decide_False; [done|]. intros [Hc1 Hc2]. apply Hn.
           split; [done|]. cbn [length] in Hc2.
           destruct (decide (c = (Z.of_nat k + 1)%Z)) as [->|]; [done|lia].
Qed.

Lemma run_batch_exact experiment_type test_edge_counts
    (prune_scores : list (Edge * Score)) render_graph r batch outs w :
  valid_input experiment_type → valid_patch experiment_type →
  labels_available render_graph (prune_scores.*1) →
  wp (run_batch experiment_type test_edge_counts prune_scores render_graph r
        batch outs) w (λ outs' w',
    model_state w' = mkPatchState None (mask_of (prune_scores.*1))
    ∧ events w'
      = events w
        ++ batch_events experiment_type test_edge_counts (prune_scores.*1)
             render_graph r (model_state w) batch
    ∧ ∀ c, outs' !! c
           = if decide (c ∈ test_edge_counts
                        ∧ (0 ≤ c ≤ Z.of_nat (length prune_scores))%Z)
             then Some (default [] (outs !! c)
                        ++ [checkpoint_out experiment_type (prune_scores.*1)
                              (model_state w) batch c])
             else outs !! c).
Proof.
  intros Hvi Hvp Hlab. unfold run_batch.
  apply wp_bind. eapply wp_mono; [by apply select_input_wp|].
  intros x w1 [-> ->].
  apply wp_bind. eapply wp_mono; [by apply record_unpatched_wp|].
  intros outs1 w1 (Hst1 & Hev1 & Ho1 & Hoc1).
  apply wp_bind. eapply wp_mono; [by apply patch_baseline_exact|].
  intros patch_outs w2 (-> & Hst2 & Hev2).
  unfold with_patch_mode, detach.
  apply wp_bind. unfold wp at 1. cbn [patch_enter].
  apply wp_bind, wp_bind.
  eapply wp_mono.
  { eapply (edge_loop_exact _ _ _ _ _ _ _ _ ∅). cbn [model_state].
    by rewrite gset_to_gmap_empty. }
  intros outs2 w3 (Hst3 & Hev3 & Ho3).
  cbn [model_state events] in *.
  rewrite (left_id_L ∅ (∪)) in Hst3.
  assert (∀ c, outs2 !! c
            = if decide (c ∈ test_edge_counts
                         ∧ (0 ≤ c ≤ Z.of_nat (length prune_scores))%Z)
              then Some (default [] (outs !! c)
                         ++ [checkpoint_out experiment_type (prune_scores.*1)
                               (model_state w) batch c])
              else outs !! c) as Houts.
  { intros c. rewrite Ho3. unfold checkpoint_out. cbn zeta.
    rewrite length_fmap, Nat.add_0_l, Nat.sub_0_r, ?Hst2, ?Hst1.
    destruct (decide (c = 0%Z)) as [->|Hc0].
    - rewrite decide_False by (intros [_ ?]; lia). rewrite Ho1.
      destruct (decide (0%Z ∈ test_edge_counts)) as [Hin|Hin].
      + by rewrite decide_True by (split; [done|lia]).
      + by rewrite decide_False by (by intros [? _]).
    - rewrite (Hoc1 c Hc0).
      destruct (decide (c ∈ test_edge_counts
                        ∧ (Z.of_nat 0 < c
                           ≤ Z.of_nat (length prune_scores))%Z))
        as [[Hc1 Hc2]|Hn].
      + rewrite decide_True by (split; [done|lia]).
        by rewrite (left_id_L ∅ (∪)).
      + rewrite decide_False; [done|]. intros [Hc1 Hc2]. apply Hn.
        split; [done|lia]. }
  apply wp_bind.
  destruct render_graph.
  - apply wp_bind. eapply wp_mono.
    + apply edge_labels_wp. intros e He. apply baseline_outs_keys.
      rewrite Hst1. by apply Hlab.
    + intros labels w4 ->. unfold wp at 1. cbn [draw_seq_graph].
      apply wp_ret, wp_bind. unfold wp at 1. cbn [patch_exit].
      apply wp_ret. cbn [model_state events patching].
      rewrite Hst3. cbn [patch_mask]. split; [done|]. split; [|done].
      rewrite Hev3. cbn [events]. rewrite Hev2, Hev1, ?Hst2, ?Hst1.
      unfold batch_events. cbn zeta. by rewrite <- !app_assoc.
  - apply wp_ret, wp_ret, wp_bind. unfold wp at 1. cbn [patch_exit].
    apply wp_ret. cbn [model_state events patching].
    rewrite Hst3. cbn [patch_mask]. split; [done|]. split; [|done].
    rewrite Hev3. cbn [events]. rewrite Hev2, Hev1, ?Hst2, ?Hst1.
    unfold batch_events. cbn zeta. by rewrite <- !app_assoc.
Qed.

Lemma batch_states_cons st st1 sts :
  patching st1 = None → batch_states st1 sts → batch_states st (st :: sts).
Proof.
  intros Hp Hs. split; [done|]. destruct sts as [|st0 rest]; [done|].
  destruct Hs as [-> Hrest]. by constructor.
Qed.

Lemma batch_loop_exact experiment_type test_edge_counts
    (prune_scores : list (Edge * Score)) render_graph r data_loader outs w :
  valid_input experiment_type → valid_patch experiment_type →
  labels_available render_graph (prune_scores.*1) →
  wp (batch_loop experiment_type test_edge_counts prune_scores render_graph r
        data_loader outs) w (λ outs' w',
    ∃ sts,
      length sts = length data_loader
      ∧ batch_states (model_state w) sts
      ∧ match data_loader with
        | [] => model_state w' = model_state w
        | _ => patching (model_state w') = None
        end
      ∧ events w'
        = events w
          ++ mjoin (zip_with
                      (batch_events experiment_type test_edge_counts
                         (prune_scores.*1) render_graph r)
                      sts data_loader)
      ∧ ∀ c, outs' !! c
             = if decide (c ∈ test_edge_counts
                          ∧ (0 ≤ c ≤ Z.of_nat (length prune_scores))%Z
                          ∧ data_loader ≠ [])
               then Some (default [] (outs !! c)
                          ++ zip_with
                               (λ st batch,
                                  checkpoint_out experiment_type
                                    (prune_scores.*1) st batch c)
                               sts data_loader)
               else outs !! c).
Proof.
  intros Hvi Hvp Hlab. revert outs w.
  induction data_loader as [|batch rest IH]; intros outs w.
  - apply wp_ret. exists []. split_and!; try done.
    + by rewrite app_nil_r.
    + intros c. rewrite decide_False; [done|]. by intros (_ & _ & ?).
  - cbn [batch_loop]. apply wp_bind.
    eapply wp_mono; [by apply run_batch_exact|].
    intros outs1 w1 (Hst1 & Hev1 & Ho1).
    eapply wp_mono; [apply IH|].
    intros outs2 w2 (sts & Hlen & Hsts & Hp2 & Hev2 & Ho2).
    exists (model_state w :: sts). split_and!.
    + cbn [length]. by rewrite Hlen.
    + apply (batch_states_cons _ (model_state w1)); [by rewrite Hst1|done].
    + destruct rest as [|b' rest']; [|done]. by rewrite Hp2, Hst1.
    + rewrite Hev2, Hev1. cbn [zip_with mjoin list_join].
      by rewrite <- app_assoc.
    + intros c. rewrite Ho2, Ho1. cbn [zip_with].
      destruct (decide (c ∈ test_edge_counts
                        ∧ (0 ≤ c ≤ Z.of_nat (length prune_scores))%Z))
        as [[Hc1 Hc2]|Hn].
      * destruct (decide (c ∈ test_edge_counts
                          ∧ (0 ≤ c ≤ Z.of_nat (length prune_scores))%Z
                          ∧ batch :: rest ≠ [])) as [_|Hn'];
          [|by destruct Hn'].
        destruct rest as [|b' rest'].
        -- destruct sts; [|done].
           by rewrite decide_False by (by intros (_ & _ & ?)).
        -- rewrite decide_True by done.
           cbn [from_option]. unfold id. by rewrite <- app_assoc.
      * rewrite !decide_False; [done| |].
        -- intros (? & ? & _). by apply Hn.
        -- intros (? & ? & _). by apply Hn.
Qed.

Lemma run_pruned_exact data_loader experiment_type test_edge_counts
    (prune_scores : list (Edge * Score)) render_graph r w :
  valid_input experiment_type → valid_patch experiment_type →
  labels_available render_graph (prune_scores.*1) →
  ∃ outs w' sts,
    run_pruned data_loader experiment_type test_edge_counts prune_scores
      render_graph r w = inr (outs, w')
    ∧ length sts = length data_loader
    ∧ batch_states (model_state w) sts
    ∧ match data_loader with
      | [] => model_state w' = model_state w
      | _ => patching (model_state w') = None
      end
    ∧ events w'
      = events w
        ++ mjoin (zip_with
                    (batch_events experiment_type test_edge_counts
                       (edge_order prune_scores) render_graph r)
                    sts data_loader)
    ∧ ∀ c, outs !! c
           = if decide (c ∈ test_edge_counts
                        ∧ (0 ≤ c
                           ≤ Z.of_nat (length (edge_order prune_scores)))%Z
                        ∧ data_loader ≠ [])
             then Some (zip_with
                          (λ st batch,
                             checkpoint_out experiment_type
                               (edge_order prune_scores) st batch c)
                          sts data_loader)
             else None.
Proof.
  intros Hvi Hvp Hlab. unfold run_pruned. cbn zeta.
  destruct (wp_elim _ _ _
              (batch_loop_exact experiment_type test_edge_counts
                 (dict_of_items (sorted_desc prune_scores)) render_graph r
                 data_loader ∅ w Hvi Hvp
                 (labels_available_order _ _ Hlab)))
    as (outs & w' & Hrun & sts & Hlen & Hsts & Hp & Hev & Ho).
  exists outs, w', sts. split_and!; try done.
  intros c. rewrite Ho. unfold edge_order. rewrite length_fmap.
  rewrite lookup_empty. reflexivity.
Qed.

Lemma count_events_app f (evs1 evs2 : list Event) :
  count_events f (evs1 ++ evs2) = count_events f evs1 + count_events f evs2.
Proof. unfold count_events. by rewrite filter_app, length_app. Qed.

Lemma count_events_cons f ev (evs : list Event) :
  count_events f (ev :: evs)
  = (if f ev then 1 else 0) + count_events f evs.
Proof.
  unfold count_events. rewrite filter_cons. by destruct (f ev).
Qed.

Lemma loop_events_forward test_edge_counts x edges k :
  count_events is_forward (loop_events test_edge_counts x edges k)
  = length (filter (λ c, Z.of_nat c ∈ test_edge_counts)
              (seq (S k) (length edges))).
Proof.
  revert k. induction edges as [|e edges IH]; intros k; [done|].
  cbn [loop_events length seq]. rewrite count_events_cons, count_events_app.
  rewrite IH, filter_cons. cbn [is_forward].
  replace (Z.of_nat k + 1)%Z with (Z.of_nat (S k)) by lia.
  by destruct (decide (Z.of_nat (S k) ∈ test_edge_counts)).
Qed.

Lemma loop_events_other f test_edge_counts x edges k :
  (∀ y, f (EvForward y) = false) → (∀ e v, f (EvMaskSet e v) = false) →
  count_events f (loop_events test_edge_counts x edges k) = 0.
Proof.
  intros Hf Hm. revert k. induction edges as [|e edges IH]; intros k; [done|].
  cbn [loop_events]. rewrite count_events_cons, count_events_app, IH, Hm.
  destruct (decide _); [|done]. by rewrite count_events_cons, Hf.
Qed.

Lemma batch_events_forward experiment_type test_edge_counts edges
    render_graph r st batch :
  count_events is_forward
    (batch_events experiment_type test_edge_counts edges render_graph r st
       batch)
  = length (requested test_edge_counts (length edges)).
Proof.
  unfold batch_events, requested. cbn zeta.
  rewrite !count_events_app, loop_events_forward.
  cbn [seq]. rewrite filter_cons.
  change (Z.of_nat 0) with 0%Z.
  destruct (decide (0%Z ∈ test_edge_counts)), render_graph;
    cbn [length]; rewrite ?count_events_cons; cbn [is_forward];
    unfold count_events; cbn [filter list_filter length]; lia.
Qed.

Lemma batch_events_src_outs experiment_type test_edge_counts edges
    render_graph r st batch :
  count_events is_src_outs
    (batch_events experiment_type test_edge_counts edges render_graph r st
       batch)
  = 1.
Proof.
  unfold batch_events. cbn zeta.
  rewrite !count_events_app, loop_events_other by done.
  by destruct (decide (0%Z ∈ test_edge_counts)), render_graph.
Qed.

Lemma batch_events_draw experiment_type test_edge_counts edges
    render_graph r st batch :
  count_events is_draw
    (batch_events experiment_type test_edge_counts edges render_graph r st
       batch)
  = if render_graph then 1 else 0.
Proof.
  unfold batch_events. cbn zeta.
  rewrite !count_events_app, loop_events_other by done.
  by destruct (decide (0%Z ∈ test_edge_counts)), render_graph.
Qed.

Lemma count_events_batches f (F : PatchState → PromptPairBatch → list Event)
    n sts data_loader :
  length sts = length data_loader →
  (∀ st batch, count_events f (F st batch) = n) →
  count_events f (mjoin (zip_with F sts data_loader))
  = length data_loader * n.
Proof.
  intros Hlen HF. revert sts Hlen.
  induction data_loader as [|b rest IH]; intros [|st sts] Hlen;
    simplify_eq/=; [done|].
  rewrite count_events_app, HF, IH by done. lia.
Qed.

Lemma Run_bind_inr {A B} (m : Run A) (k : A → Run B) w a w1 :
  m w = inr (a, w1) → (m ≫= k) w = k a w1.
Proof. unfold mbind, Run_bind. by intros ->. Qed.

Lemma Run_bind_inl {A B} (m : Run A) (k : A → Run B) w e :
  m w = inl e → (m ≫= k) w = inl e.
Proof. unfold mbind, Run_bind. by intros ->. Qed.

Lemma edge_order_elem_2 (prune_scores : list (Edge * Score)) e :
  e ∈ prune_scores.*1 → e ∈ edge_order prune_scores.
Proof.
  unfold edge_order. rewrite dict_of_items_keys.
  by rewrite (sorted_desc_perm prune_scores).
Qed.



(** X11.  What [run_pruned] returns, for supported input and patch types:
    the keys are the requested counts between 0 and the number of edges
    (none when the loader is empty), and under each there is one output per
    batch, in the order of the batches.  The output for count [c] and a
    batch is the model's output on the batch input with exactly the first
    [c] edges of the descending order patched, zeros as current and the
    stacked baseline as patch source outputs; for 0 it is the output of the
    model as it is. *)
Theorem X11_checkpoint_values (data_loader : list PromptPairBatch)
    (experiment_type : ExperimentType) (test_edge_counts : list Z)
    (prune_scores : list (Edge * Score)) (render_graph r : bool) (w : World) :
  valid_input experiment_type → valid_patch experiment_type →
  labels_available render_graph (prune_scores.*1) →
  ∃ outs w' sts,
    run_pruned data_loader experiment_type test_edge_counts prune_scores
      render_graph r w = inr (outs, w')
    ∧ length sts = length data_loader
    ∧ batch_states (model_state w) sts
    ∧ ∀ c, outs !! c
           = if decide (c ∈ test_edge_counts
                        ∧ (0 ≤ c
                           ≤ Z.of_nat (length (edge_order prune_scores)))%Z
                        ∧ data_loader ≠ [])
             then Some (zip_with
                          (λ st batch,
                             checkpoint_out experiment_type
                               (edge_order prune_scores) st batch c)
                          sts data_loader)
             else None.
Proof.
  intros Hvi Hvp Hlab.
  destruct (run_pruned_exact data_loader experiment_type test_edge_counts
              prune_scores render_graph r w Hvi Hvp Hlab)
    as (outs & w' & sts & Hrun & Hlen & Hsts & _ & _ & Ho).
  by exists outs, w', sts.
Qed.

(** X12.  What [run_pruned] does to the model, for supported input and
    patch types: batch by batch, the unpatched call if 0 is requested, one
    call of [get_sorted_src_outs] (on the corrupt input for [CORRUPT], on
    the clean input otherwise), the entry into the patch context with
    zeros, the stacked baseline and [reset_mask], then for every edge in
    descending order the write of 1 to its mask entry followed by a call
    of the model when the count is requested, then the drawing when
    [render_graph], and the exit.  Afterwards the model is outside the
    patch context; with no batches it is not touched. *)
Theorem X12_event_trace (data_loader : list PromptPairBatch)
    (experiment_type : ExperimentType) (test_edge_counts : list Z)
    (prune_scores : list (Edge * Score)) (render_graph r : bool) (w : World) :
  valid_input experiment_type → valid_patch experiment_type →
  labels_available render_graph (prune_scores.*1) →
  ∃ outs w' sts,
    run_pruned data_loader experiment_type test_edge_counts prune_scores
      render_graph r w = inr (outs, w')
    ∧ length sts = length data_loader
    ∧ batch_states (model_state w) sts
    ∧ events w'
      = events w
        ++ mjoin (zip_with
                    (batch_events experiment_type test_edge_counts
                       (edge_order prune_scores) render_graph r)
                    sts data_loader)
    ∧ match data_loader with
      | [] => model_state w' = model_state w
      | _ => patching (model_state w') = None
      end.
Proof.
  intros Hvi Hvp Hlab.
  destruct (run_pruned_exact data_loader experiment_type test_edge_counts
              prune_scores render_graph r w Hvi Hvp Hlab)
    as (outs & w' & sts & Hrun & Hlen & Hsts & Hp & Hev & _).
  by exists outs, w', sts.
Qed.

(** X13.  How often [run_pruned] uses the model, for supported input and
    patch types: the model is called once per batch for every distinct
    requested count between 0 and the number of edges, and never
    otherwise; [get_sorted_src_outs] is called once per batch;
    [draw_seq_graph] once per batch when [render_graph], never
    otherwise. *)
Theorem X13_call_counts (data_loader : list PromptPairBatch)
    (experiment_type : ExperimentType) (test_edge_counts : list Z)
    (prune_scores : list (Edge * Score)) (render_graph r : bool) (w : World) :
  valid_input experiment_type → valid_patch experiment_type →
  labels_available render_graph (prune_scores.*1) →
  ∃ outs w' evs,
    run_pruned data_loader experiment_type test_edge_counts prune_scores
      render_graph r w = inr (outs, w')
    ∧ events w' = events w ++ evs
    ∧ count_events is_forward evs
      = length data_loader
        * length (requested test_edge_counts
                    (length (edge_order prune_scores)))
    ∧ count_events is_src_outs evs = length data_loader
    ∧ count_events is_draw evs
      = if render_graph then length data_loader else 0.
Proof.
  intros Hvi Hvp Hlab.
  destruct (run_pruned_exact data_loader experiment_type test_edge_counts
              prune_scores render_graph r w Hvi Hvp Hlab)
    as (outs & w' & sts & Hrun & Hlen & Hsts & _ & Hev & _).
  eexists outs, w', _. split; [exact Hrun|]. split; [exact Hev|].
  split_and!.
  - apply count_events_batches; [done|]. intros st batch.
    apply batch_events_forward.
  - rewrite (count_events_batches _ _ 1); [lia|done|]. intros st batch.
    apply batch_events_src_outs.
  - rewrite (count_events_batches _ _ (if render_graph then 1 else 0));
      [destruct render_graph; lia|done|].
    intros st batch. apply batch_events_draw.
Qed.

(** X14.  [test_edge_counts] is only asked whether it contains a count
    between 0 and the number of edges: two lists that contain the same of
    these counts give the same run, exception or result, whatever their
    order, their duplicates and their other entries. *)
Theorem X14_counts_as_set (data_loader : list PromptPairBatch)
    (experiment_type : ExperimentType) (counts1 counts2 : list Z)
    (prune_scores : list (Edge * Score)) (render_graph r : bool) (w : World) :
  (∀ n, (0 ≤ n ≤ Z.of_nat (length (edge_order prune_scores)))%Z →
        n ∈ counts1 ↔ n ∈ counts2) →
  run_pruned data_loader experiment_type counts1 prune_scores render_graph r
    w
  = run_pruned data_loader experiment_type counts2 prune_scores render_graph
      r w.
Proof.
  intros Hc. unfold run_pruned. cbn zeta. apply batch_loop_counts_ext.
  intros n Hn. apply Hc. unfold edge_order. by rewrite length_fmap.
Qed.

(** X15.  With [render_graph], supported types and at least one batch, an
    edge whose source is not among the nodes of [get_sorted_src_outs] makes
    line 68 raise [KeyError]: nothing is drawn and nothing is returned. *)
Theorem X15_missing_label (batch : PromptPairBatch)
    (rest : list PromptPairBatch) (experiment_type : ExperimentType)
    (test_edge_counts : list Z) (prune_scores : list (Edge * Score))
    (r : bool) (w : World) (e : Edge) :
  valid_input experiment_type → valid_patch experiment_type →
  e ∈ prune_scores.*1 →
  (∀ st x, src e ∉ (sorted_src_outs st x).*1) →
  run_pruned (batch :: rest) experiment_type test_edge_counts prune_scores
    true r w
  = inl KeyError.
Proof.
  intros Hvi Hvp He Hsrc. unfold run_pruned. cbn zeta. cbn [batch_loop].
  apply Run_bind_inl. unfold run_batch.
  destruct (wp_elim _ _ _ (select_input_wp experiment_type batch w Hvi))
    as (x & w1 & E1 & -> & ->).
  rewrite (Run_bind_inr _ _ _ _ _ E1).
  destruct (wp_elim _ _ _
              (record_unpatched_wp test_edge_counts
                 (chosen_input experiment_type batch) ∅ w))
    as (outs1 & w1 & E2 & Hst1 & _).
  rewrite (Run_bind_inr _ _ _ _ _ E2).
  destruct (wp_elim _ _ _ (patch_baseline_exact experiment_type batch w1 Hvp))
    as (patch_outs & w2 & E3 & -> & Hst2 & _).
  rewrite (Run_bind_inr _ _ _ _ _ E3).
  unfold with_patch_mode.
  rewrite (Run_bind_inr _ _ _ _ _ eq_refl).
  apply Run_bind_inl.
  match goal with |- context [edge_loop ?c ?x ?es ?k ?o] =>
    destruct (wp_elim _ _ _
                (edge_loop_wp c x es k o
                   (mkWorld
                      (mkPatchState
                         (Some (zeros_like
                                  (detach
                                     (stack
                                        ((baseline_outs experiment_type
                                            (model_state w1) batch).*2))),
                                detach
                                  (stack
                                     ((baseline_outs experiment_type
                                         (model_state w1) batch).*2))))
                         ∅)
                      (events w2
                       ++ [EvEnter
                             (zeros_like
                                (detach
                                   (stack
                                      ((baseline_outs experiment_type
                                          (model_state w1) batch).*2))))
                             (detach
                                (stack
                                   ((baseline_outs experiment_type
                                       (model_state w1) batch).*2)))
                             true]))))
      as (outs2 & w3 & E4 & _)
  end.
  rewrite (Run_bind_inr _ _ _ _ _ E4).
  apply Run_bind_inl, Run_bind_inl, edge_labels_fails.
  exists e. split; [by apply edge_order_elem_2|].
  rewrite baseline_outs_keys. apply Hsrc.
Qed.


End RunResultFacts.

(** ** Further small instances *)

Section MoreExamples.
#[local] Existing Instances Z_Torch Z_Model Z_Score Z_ScoreOrder.

(** X5 on the model with one layer. *)
Lemma X5_resid_delta_installs_witness :
  ∃ wrapped,
    @autoencoder_model example_Loader one_layer_model "resid_delta_mlp" None
      true = inr wrapped
    ∧ length (sparse_autoencoders wrapped) = 1.
Proof.
  destruct (@X5_resid_delta_installs example_Loader one_layer_model None true
              ltac:(simpl; lia))
    as (wrapped & H1 & _ & H2 & _).
  exists wrapped. split; [exact H1 | exact H2].
Defined.

(** X6 on the model with one layer and one head. *)
Lemma X6_built_model_enumerates_witness :
  ∃ wrapped srcs dests,
    @autoencoder_model example_Loader one_layer_model "resid_delta_mlp" None
      true = inr wrapped
    ∧ factorized_src_nodes wrapped = inr srcs
    ∧ factorized_dest_nodes wrapped = inr dests
    ∧ size dests = 3.
Proof.
  destruct (@X6_built_model_enumerates example_Loader one_layer_model None
              true ltac:(simpl; lia) eq_refl)
    as (wrapped & srcs & dests & H1 & H2 & H3 & _ & H4).
  exists wrapped, srcs, dests. split_and!; [exact H1|exact H2|exact H3|exact H4].
Defined.

(** X7 on a model without layers, with an unknown capture point, and on a
    model with two layers and one block. *)
Lemma X7_autoencoder_model_errors_witness :
  @autoencoder_model example_Loader zero_layer_model "resid_pre" None true
  = inr (mkAT zero_layer_model [])
  ∧ @autoencoder_model example_Loader one_layer_model "resid_pre" None true
    = inl AssertionError
  ∧ @autoencoder_model example_Loader (wrapped_model short_model)
      "resid_delta_mlp" None true
    = inl IndexError.
Proof.
  split; [|split].
  - apply (@X7_autoencoder_model_errors example_Loader zero_layer_model
             "resid_pre" None true). reflexivity.
  - apply (@X7_autoencoder_model_errors example_Loader one_layer_model
             "resid_pre" None true); [simpl; lia|discriminate..].
  - apply (@X7_autoencoder_model_errors example_Loader
             (wrapped_model short_model) "resid_delta_mlp" None true);
      [simpl; lia|reflexivity].
Defined.

Lemma two_saes_counts :
  Forall2 (λ sae c, own_count sae = inr c) two_saes [1; 2]%Z.
Proof. repeat constructor. Defined.

(** X8 with cap 1 on autoencoders with one and two activated latents. *)
Lemma X8_explicit_cap_witness :
  ∃ log,
    @_prune_latents_with_dataset example_SaeOps
      (mkAT one_layer_model two_saes) (Some 1%Z) = inr log
    ∧ latent_counts log = [1; 1]%Z.
Proof.
  destruct (@X8_explicit_cap example_SaeOps (mkAT one_layer_model two_saes)
              1%Z [1; 2]%Z ltac:(lia) two_saes_counts)
    as (log & H1 & H2 & _).
  exists log. split; [exact H1 | exact H2].
Defined.

(** X9 without a cap on the same autoencoders: the second keeps one latent,
    the first count that is not zero. *)
Lemma X9_default_cap_witness :
  ∃ log,
    @_prune_latents_with_dataset example_SaeOps
      (mkAT one_layer_model two_saes) None = inr log
    ∧ latent_counts log !! 1 = Some 1%Z.
Proof.
  destruct (@X9_default_cap example_SaeOps (mkAT one_layer_model two_saes)
              None [1; 2]%Z (or_introl eq_refl) two_saes_counts)
    as (log & H1 & _ & H2).
  exists log. split; [exact H1 | exact (H2 1 2%Z eq_refl)].
Defined.

(** X11 on two batches, three edges and the counts 0 and 2. *)
Lemma X11_checkpoint_values_witness :
  ∃ outs w' sts,
    run_pruned example_loader (mkExperimentType CLEAN ZERO) [0; 2]%Z
      example_scores true false example_world = inr (outs, w')
    ∧ length sts = 2
    ∧ outs !! 2%Z
      = Some (zip_with
                (λ st batch,
                   checkpoint_out (mkExperimentType CLEAN ZERO)
                     (edge_order example_scores) st batch 2%Z)
                sts example_loader)
    ∧ outs !! 1%Z = None.
Proof.
  destruct (X11_checkpoint_values example_loader (mkExperimentType CLEAN ZERO)
              [0; 2]%Z example_scores true false example_world
              (or_introl eq_refl) (or_intror (or_intror eq_refl))
              (example_labels true))
    as (outs & w' & sts & Hrun & Hlen & _ & Ho).
  exists outs, w', sts. split; [exact Hrun|]. split; [exact Hlen|].
  split.
  - exact (Ho 2%Z).
  - exact (Ho 1%Z).
Defined.

(** X12 on the same run. *)
Lemma X12_event_trace_witness :
  ∃ outs w',
    run_pruned example_loader (mkExperimentType CLEAN ZERO) [0; 2]%Z
      example_scores true false example_world = inr (outs, w')
    ∧ patching (model_state w') = None.
Proof.
  destruct (X12_event_trace example_loader (mkExperimentType CLEAN ZERO)
              [0; 2]%Z example_scores true false example_world
              (or_introl eq_refl) (or_intror (or_intror eq_refl))
              (example_labels true))
    as (outs & w' & sts & Hrun & _ & _ & _ & Hp).
  exists outs, w'. split; [exact Hrun | exact Hp].
Defined.

(** X13 on the same run with the counts 2, 0, 2 and 9: two calls of the
    model per batch. *)
Lemma X13_call_counts_witness :
  ∃ outs w' evs,
    run_pruned example_loader (mkExperimentType CLEAN ZERO) [2; 0; 2; 9]%Z
      example_scores true false example_world = inr (outs, w')
    ∧ events w' = evs
    ∧ count_events is_forward evs = 4
    ∧ count_events is_draw evs = 2.
Proof.
  destruct (X13_call_counts example_loader (mkExperimentType CLEAN ZERO)
              [2; 0; 2; 9]%Z example_scores true false example_world
              (or_introl eq_refl) (or_intror (or_intror eq_refl))
              (example_labels true))
    as (outs & w' & evs & Hrun & Hev & Hf & _ & Hd).
  exists outs, w', evs. split; [exact Hrun|]. split; [exact Hev|].
  split; [exact Hf | exact Hd].
Defined.

Lemma example_counts_agree n :
  (0 ≤ n ≤ Z.of_nat (length (edge_order example_scores)))%Z →
  n ∈ [2; 0; 2; 9]%Z ↔ n ∈ [0; 2]%Z.
Proof.
  change (length (edge_order example_scores)) with 3. intros Hn.
  rewrite !elem_of_cons, !elem_of_nil. lia.
Defined.

(** X14 on the counts 2, 0, 2, 9 and 0, 2 with three edges. *)
Lemma X14_counts_as_set_witness :
  run_pruned example_loader (mkExperimentType CLEAN ZERO) [2; 0; 2; 9]%Z
    example_scores true false example_world
  = run_pruned example_loader (mkExperimentType CLEAN ZERO) [0; 2]%Z
      example_scores true false example_world.
Proof.
  apply (X14_counts_as_set example_loader (mkExperimentType CLEAN ZERO)
           [2; 0; 2; 9]%Z [0; 2]%Z example_scores true false example_world
           example_counts_agree).
Defined.

Lemma unknown_source (st : @PatchState Z_Torch) (x : Z) :
  src_latent_node 0 0 2 2 ∉ (@sorted_src_outs Z_Torch Z_Model st x).*1.
Proof.
  intros Hin. simpl in Hin.
  repeat (apply elem_of_cons in Hin as [Hin|Hin]; [discriminate Hin|]).
  by apply elem_of_nil in Hin.
Defined.

(** X15 on an edge from a latent node, which the example model has no
    output for. *)
Lemma X15_missing_label_witness :
  run_pruned example_loader (mkExperimentType CLEAN ZERO) [0; 1]%Z
    unknown_scores true false example_world
  = inl KeyError.
Proof.
  apply (X15_missing_label (@mkBatch Z_Torch 1%Z 2%Z)
           [@mkBatch Z_Torch 3%Z 4%Z] (mkExperimentType CLEAN ZERO)
           [0; 1]%Z unknown_scores false example_world
           (mkEdge (src_latent_node 0 0 2 2) (dest_mlp_node 0 2 1))
           (or_introl eq_refl) (or_intror (or_intror eq_refl))
           (list_elem_of_here _ _) unknown_source).
Defined.


End MoreExamples.

(** ** The order of the edges and the masks *)

Section MaskFacts.
Context `{Torch} `{!ModelOps} `{ScoreType}.

Lemma mask_at_insert (m : gmap Edge Z) e e' :
  mask_at (<[e' := 1%Z]> m) e = if decide (e = e') then 1%Z else mask_at m e.
Proof.
  unfold mask_at. destruct (decide (e = e')) as [->|Hne].
  - by rewrite lookup_insert_eq.
  - by rewrite lookup_insert_ne.
Qed.

Lemma mask_at_foldl (m : gmap Edge Z) edges e :
  mask_at (foldl (λ m e, <[e := 1%Z]> m) m edges) e
  = if decide (e ∈ edges) then 1%Z else mask_at m e.
Proof.
  revert m. induction edges as [|e' edges IH]; intros m.
  - rewrite decide_False; [done|]. apply not_elem_of_nil.
  - cbn [foldl]. rewrite IH, mask_at_insert.
    destruct (decide (e ∈ edges)) as [Hin|Hin].
    + rewrite decide_True; [done|]. apply elem_of_cons. by right.
    + destruct (decide (e = e')) as [->|Hne].
      * rewrite decide_True; [done|]. apply elem_of_cons. by left.
      * rewrite decide_False; [done|]. rewrite elem_of_cons. naive_solver.
Qed.

Lemma mask_at_mask_of edges e :
  mask_at (mask_of edges) e = if decide (e ∈ edges) then 1%Z else 0%Z.
Proof.
  unfold mask_at, mask_of. rewrite lookup_gset_to_gmap.
  destruct (decide (e ∈ edges)) as [Hin|Hin].
  - rewrite option_guard_True; [done|]. by apply elem_of_list_to_set.
  - rewrite option_guard_False; [done|]. by rewrite elem_of_list_to_set.
Qed.

Lemma edge_loop_app test_edge_counts x edges1 edges2 k outs w :
  edge_loop test_edge_counts x (edges1 ++ edges2) k outs w
  = match edge_loop test_edge_counts x edges1 k outs w with
    | inl e => inl e
    | inr (outs', w') =>
        edge_loop test_edge_counts x edges2 (k + length edges1) outs' w'
    end.
Proof.
  revert k outs w. induction edges1 as [|e edges1 IH]; intros k outs w.
  - cbn [app edge_loop length]. by rewrite Nat.add_0_r.
  - cbn [app edge_loop length]. unfold mbind, Run_bind.
    cbn [set_patch_mask].
    destruct (decide ((Z.of_nat k + 1)%Z ∈ test_edge_counts)).
    + cbn [model_call mret Run_ret]. rewrite IH.
      by replace (S k + length edges1) with (k + S (length edges1)) by lia.
    + cbn [mret Run_ret]. rewrite IH.
      by replace (S k + length edges1) with (k + S (length edges1)) by lia.
Qed.

(** The loop of lines 59-66 after its first [k] iterations. *)
Lemma edge_loop_prefix test_edge_counts x edges outs w k :
  ∃ outs_k w_k,
    edge_loop test_edge_counts x (take k edges) 0 outs w = inr (outs_k, w_k)
    ∧ edge_loop test_edge_counts x edges 0 outs w
      = edge_loop test_edge_counts x (drop k edges) (length (take k edges))
          outs_k w_k
    ∧ ∀ e, mask_at (patch_mask (model_state w_k)) e
           = if decide (e ∈ take k edges) then 1%Z
             else mask_at (patch_mask (model_state w)) e.
Proof.
  destruct (wp_elim _ _ _
              (edge_loop_wp test_edge_counts x (take k edges) 0 outs w))
    as (outs_k & w_k & Hrun & _ & Hm & _).
  exists outs_k, w_k. split; [exact Hrun|]. split.
  - rewrite <- (take_drop k edges) at 1. by rewrite edge_loop_app, Hrun.
  - intros e. rewrite Hm. apply mask_at_foldl.
Qed.

Lemma batch_loop_final experiment_type test_edge_counts
    (prune_scores : list (Edge * Score)) render_graph r data_loader outs w :
  valid_input experiment_type → valid_patch experiment_type →
  labels_available render_graph (prune_scores.*1) →
  wp (batch_loop experiment_type test_edge_counts prune_scores render_graph r
        data_loader outs) w (λ _ w',
    model_state w'
    = match data_loader with
      | [] => model_state w
      | _ => mkPatchState None (mask_of (prune_scores.*1))
      end).
Proof.
  intros Hvi Hvp Hlab. revert outs w.
  induction data_loader as [|batch rest IH]; intros outs w; [done|].
  cbn [batch_loop]. apply wp_bind.
  eapply wp_mono; [by apply run_batch_exact|].
  intros outs1 w1 (Hst1 & _). eapply wp_mono; [apply IH|].
  intros outs2 w2 Hst2. rewrite Hst2. by destruct rest.
Qed.

End MaskFacts.

Section OrderFacts.
Context `{Torch} `{!ModelOps} `{ScoreOrder}.

(** C2.  The edges are put in one order before the first batch: the stable
    descending sort of the scores (a permutation of the items, no item below
    a later one, items with tied scores in their original order); the run is
    the loop over the batches on that one list.  Every batch writes the
    masks in exactly that order: one write per edge, each of the value 1,
    between the entry into the patch context and the exit from it.  The
    masks themselves follow: after the first [k] iterations of the loop over
    the edges the entries of the first [k] edges are 1 and every other entry
    is what it was, so an entry that is 1 stays 1; after a batch, whatever
    the masks were before it, the entry of every edge is 1 and every other
    entry is 0; and so it is after the run. *)
Theorem C2_order_and_masks (data_loader : list PromptPairBatch)
    (experiment_type : ExperimentType) (test_edge_counts : list Z)
    (prune_scores : list (Edge * Score)) (render_graph r : bool) (w : World) :
  NoDup (prune_scores.*1) →
  valid_input experiment_type → valid_patch experiment_type →
  labels_available render_graph (prune_scores.*1) →
  let sorted := sorted_desc prune_scores in
  edge_order prune_scores = sorted.*1
  ∧ sorted ≡ₚ prune_scores
  ∧ StronglySorted not_below sorted
  ∧ (∀ v, filter (tied v) sorted = filter (tied v) prune_scores)
  ∧ NoDup (sorted.*1)
  ∧ run_pruned data_loader experiment_type test_edge_counts prune_scores
      render_graph r w
    = batch_loop experiment_type test_edge_counts (dict_of_items sorted)
        render_graph r data_loader ∅ w
  ∧ (∃ outs w' segs,
       run_pruned data_loader experiment_type test_edge_counts prune_scores
         render_graph r w = inr (outs, w')
       ∧ events w' = events w ++ mjoin segs
       ∧ Forall2
           (λ batch seg,
              batch_segment test_edge_counts (sorted.*1)
                (chosen_input experiment_type batch) seg
              ∧ mask_writes seg = (λ e, (e, 1%Z)) <$> sorted.*1)
           data_loader segs
       ∧ (data_loader ≠ [] →
          ∀ e, mask_at (patch_mask (model_state w')) e
               = if decide (e ∈ sorted.*1) then 1%Z else 0%Z))
  ∧ (∀ batch outs0 w0,
       ∃ outs1 w1,
         run_batch experiment_type test_edge_counts (dict_of_items sorted)
           render_graph r batch outs0 w0 = inr (outs1, w1)
         ∧ ∀ e, mask_at (patch_mask (model_state w1)) e
                = if decide (e ∈ sorted.*1) then 1%Z else 0%Z)
  ∧ (∀ x outs0 w0 k,
       ∃ outs_k w_k,
         edge_loop test_edge_counts x (take k (sorted.*1)) 0 outs0 w0
         = inr (outs_k, w_k)
         ∧ edge_loop test_edge_counts x (sorted.*1) 0 outs0 w0
           = edge_loop test_edge_counts x (drop k (sorted.*1))
               (length (take k (sorted.*1))) outs_k w_k
         ∧ ∀ e, mask_at (patch_mask (model_state w_k)) e
                = if decide (e ∈ take k (sorted.*1)) then 1%Z
                  else mask_at (patch_mask (model_state w0)) e).
Proof.
  intros Hnd Hvi Hvp Hlab sorted.
  assert (NoDup (sorted.*1)) as Hnd'.
  { subst sorted.
    pose proof (fmap_Permutation fst _ _ (sorted_desc_perm prune_scores))
      as Hperm.
    by rewrite Hperm. }
  assert (edge_order prune_scores = sorted.*1) as Hord.
  { unfold edge_order. fold sorted. by rewrite dict_of_items_NoDup. }
  assert ((dict_of_items sorted).*1 = sorted.*1) as Hkeys.
  { by rewrite dict_of_items_NoDup. }
  assert (labels_available render_graph ((dict_of_items sorted).*1)) as Hlab'.
  { by apply labels_available_order. }
  split_and!.
  - exact Hord.
  - apply sorted_desc_perm.
  - apply sorted_desc_sorted.
  - intros v. apply sorted_desc_stable.
  - exact Hnd'.
  - reflexivity.
  - destruct (wp_elim _ _ _
                (run_pruned_wp data_loader experiment_type test_edge_counts
                   prune_scores render_graph r w Hvi Hvp Hlab))
      as (outs & w' & Hrun & _ & _ & _ & segs & Hev & Hsegs).
    exists outs, w', segs. split; [exact Hrun|]. split; [exact Hev|].
    rewrite Hord in Hsegs. split.
    + eapply Forall2_impl; [exact Hsegs|]. intros batch seg Hseg.
      split; [exact Hseg|]. exact (batch_segment_mask_writes _ _ _ _ Hseg).
    + intros Hne e.
      pose proof (batch_loop_final experiment_type test_edge_counts
                    (dict_of_items sorted) render_graph r data_loader ∅ w
                    Hvi Hvp Hlab') as Hfin.
      unfold wp in Hfin. unfold run_pruned in Hrun. cbn zeta in Hrun.
      fold sorted in Hrun. rewrite Hrun in Hfin. rewrite Hfin.
      destruct data_loader; [done|]. cbn [patch_mask].
      rewrite Hkeys. apply mask_at_mask_of.
  - intros batch outs0 w0.
    destruct (wp_elim _ _ _
                (run_batch_exact experiment_type test_edge_counts
                   (dict_of_items sorted) render_graph r batch outs0 w0
                   Hvi Hvp Hlab'))
      as (outs1 & w1 & Hrun & Hst & _).
    exists outs1, w1. split; [exact Hrun|]. intros e. rewrite Hst.
    cbn [patch_mask]. rewrite Hkeys. apply mask_at_mask_of.
  - intros x outs0 w0 k. apply edge_loop_prefix.
Qed.

End OrderFacts.

Section OrderExample.
#[local] Existing Instances Z_Torch Z_Model Z_Score Z_ScoreOrder.

(** C2 on two batches and three edges with scores 5, 7, 5. *)
Lemma C2_order_and_masks_witness :
  sorted_desc example_scores ≡ₚ example_scores
  ∧ ∃ outs w' segs,
      run_pruned example_loader (mkExperimentType CLEAN ZERO) [0; 2]%Z
        example_scores true false example_world = inr (outs, w')
      ∧ events w' = mjoin segs
      ∧ Forall2
          (λ _ seg,
             mask_writes seg
             = (λ e, (e, 1%Z)) <$> (sorted_desc example_scores).*1)
          example_loader segs
      ∧ ∀ e, mask_at (patch_mask (model_state w')) e
             = if decide (e ∈ (sorted_desc example_scores).*1)
               then 1%Z else 0%Z.
Proof.
  destruct (C2_order_and_masks example_loader (mkExperimentType CLEAN ZERO)
              [0; 2]%Z example_scores true false example_world
              example_scores_NoDup (or_introl eq_refl)
              (or_intror (or_intror eq_refl)) (example_labels true))
    as (_ & Hperm & _ & _ & _ & _
        & (outs & w' & segs & Hrun & Hev & Hsegs & Hmask) & _).
  split; [exact Hperm|]. exists outs, w', segs.
  split; [exact Hrun|]. split; [exact Hev|]. split.
  - eapply Forall2_impl; [exact Hsegs|]. by intros batch seg [_ Hw].
  - apply Hmask. discriminate.
Defined.

End OrderExample.
